(** * RoyDental data-access layer: locks, cache, sequential identifiers and
      repositories

    A shallow embedding of the Go packages [database] (redis.go),
    [cache] (cache.go) and [repositories] (patient, appointment, billing and
    doctor repositories, with the cache helpers of the other dependents),
    of the service and the handlers of patients, of the middlewares that
    check the bearer token, the access token and the role, and of the
    password check, the reset codes and the token validation of [utils].

    The process talks to two servers.  Both are part of the state [World]:
    - Redis, one keyspace shared by the lock entries and the cache entries
      (the [Cache] is built from [database.RedisClient]);
    - PostgreSQL, with the seven tables of models.go and the named sequences
      the repositories call [nextval] and [setval] on.

    Every call to a server can fail for reasons the program does not control
    (network, server, constraint of the schema that is not modelled).  Two
    fault schedules in the world say which calls fail: each Redis command
    takes the head of [redis_faults], each SQL statement the head of
    [db_faults]; an exhausted schedule means no more failures.  A failed call
    leaves the server state as it was.

    Every operation returns, besides its Go results and the new world, the
    list of server calls, sleeps and log lines it performed, in order.

    Not modelled: key expiry (no clock: the time-to-live of a key is recorded
    in the event of the command that sets it), [created_at] columns and the
    preloaded association slices, context deadlines (a deadline that fires
    shows as a failed call). *)

From Stdlib Require Import ZArith Floats Ascii String.
From stdpp Require Import gmap strings list fin_maps pretty.

Open Scope string_scope.
Open Scope Z_scope.

(** ** Go values *)

(** [time.Duration]: a count of nanoseconds. *)
Definition Duration := Z.
Definition Second : Duration := 1000000000.
Definition Minute : Duration := 60 * Second.
Definition Hour : Duration := 60 * Minute.

(** Go [error] values; a nil error is [None : option error].
    [Errorf f a] is [fmt.Errorf(f, a)] with one [%w] verb (it wraps [a]),
    [Errorf2 f a b] is [fmt.Errorf(f, a, b)] with two [%v] verbs (it wraps
    nothing). *)
#[local] Unset Elimination Schemes.
Inductive error : Type :=
| ErrIO                 (* an error of the Redis or PostgreSQL client *)
| ErrTxAborted          (* statement sent in a transaction that already failed *)
| ErrUniqueViolation    (* primary key already present *)
| ErrSequence           (* unknown sequence, or value out of its bounds *)
| RedisNil              (* redis.Nil *)
| ErrRecordNotFound     (* gorm.ErrRecordNotFound *)
| ErrJSON               (* an error of encoding/json *)
| New (text : string)
| Errorf (format : string) (a : option error)
| Errorf2 (format : string) (a b : option error).
#[local] Set Elimination Schemes.

(** [errors.Is(err, gorm.ErrRecordNotFound)]: follows the [%w] chain. *)
Fixpoint errors_Is_ErrRecordNotFound (e : error) : bool :=
  match e with
  | ErrRecordNotFound => true
  | Errorf _ (Some e') => errors_Is_ErrRecordNotFound e'
  | _ => false
  end.

(** [err == redis.Nil] *)
Definition is_RedisNil (e : error) : bool :=
  match e with RedisNil => true | _ => false end.

Definition is_nil (e : option error) : bool :=
  match e with None => true | Some _ => false end.

(** ** Rows (models.go) *)

Record Doctor := {
  Doctor_ID : string;
  Doctor_FirstName : string;
  Doctor_LastName : string;
}.

Record Patient := {
  ID : string;
  FirstName : string;
  MiddleName : string;
  LastName : string;
  Sex : string;
  DateOfBirth : string;
  Insured : bool;
  Cash : bool;
  InsuranceCompany : string;
  Scheme : string;
  CoverLimit : float;
  Occupation : string;
  PlaceOfWork : string;
  Phone : string;
  Email : string;
  Address : string;
}.

Record EmergencyContact := {
  EmergencyContact_ID : N;
  EmergencyContact_PatientID : string;
  EmergencyContact_Name : string;
  EmergencyContact_Phone : string;
  EmergencyContact_Relationship : string;
}.

Record Examination := {
  Examination_ID : N;
  Examination_PatientID : string;
  Examination_Report : string;
}.

Record Billing := {
  BillingID : string;
  Billing_PatientID : string;
  Billing_DoctorID : string;
  Procedure : string;
  BillingAmount : float;
  PaidCashAmount : float;
  PaidInsuranceAmount : float;
  Balance : float;
  TotalReceived : float;
}.

Record TreatmentPlan := {
  TreatmentPlan_ID : N;
  TreatmentPlan_PatientID : string;
  TreatmentPlan_Plan : string;
}.

Record Appointment := {
  Appointment_ID : N;
  Appointment_PatientID : string;
  Appointment_DoctorID : string;
  DateTime : string;
  Status : string;
}.

(** ** The two servers *)

(** A PostgreSQL sequence: [nextval] returns [last_value] itself when
    [is_called] is false, [last_value + 1] otherwise. *)
Record Seq := { last_value : Z; is_called : bool }.

Definition seq_min : Z := 1.
Definition seq_max : Z := 9223372036854775807.

Record Tables := {
  patient : list Patient;
  emergency_contact : list EmergencyContact;
  examination : list Examination;
  billing : list Billing;
  treatment_plan : list TreatmentPlan;
  appointment : list Appointment;
  doctor : list Doctor;
}.

Record World := {
  RedisClient : bool;                (* database.RedisClient != nil *)
  redis : gmap string string;        (* keyspace: locks and cache entries *)
  redis_faults : list bool;
  DB : Tables;                       (* committed and in-transaction rows *)
  sequences : gmap string Seq;       (* not transactional *)
  db_faults : list bool;
  tx_aborted : bool;                 (* the open transaction has failed *)
}.

Definition set_redis (f : gmap string string → gmap string string) (w : World) : World :=
  {| RedisClient := RedisClient w; redis := f (redis w);
     redis_faults := redis_faults w; DB := DB w; sequences := sequences w;
     db_faults := db_faults w; tx_aborted := tx_aborted w |}.

Definition set_redis_faults (fs : list bool) (w : World) : World :=
  {| RedisClient := RedisClient w; redis := redis w;
     redis_faults := fs; DB := DB w; sequences := sequences w;
     db_faults := db_faults w; tx_aborted := tx_aborted w |}.

Definition set_DB (t : Tables) (w : World) : World :=
  {| RedisClient := RedisClient w; redis := redis w;
     redis_faults := redis_faults w; DB := t; sequences := sequences w;
     db_faults := db_faults w; tx_aborted := tx_aborted w |}.

Definition set_sequences (s : gmap string Seq) (w : World) : World :=
  {| RedisClient := RedisClient w; redis := redis w;
     redis_faults := redis_faults w; DB := DB w; sequences := s;
     db_faults := db_faults w; tx_aborted := tx_aborted w |}.

Definition set_db_faults (fs : list bool) (w : World) : World :=
  {| RedisClient := RedisClient w; redis := redis w;
     redis_faults := redis_faults w; DB := DB w; sequences := sequences w;
     db_faults := fs; tx_aborted := tx_aborted w |}.

Definition set_tx_aborted (b : bool) (w : World) : World :=
  {| RedisClient := RedisClient w; redis := redis w;
     redis_faults := redis_faults w; DB := DB w; sequences := sequences w;
     db_faults := db_faults w; tx_aborted := b |}.

(** ** What an operation does, in order *)

Inductive sql : Type :=
| Begin
| Commit
| Rollback
| Select (table : string)
| Insert (table : string)
| Upsert (table : string)
| DeleteFrom (table : string)
| Nextval (sequence : string)
| Setval (sequence : string).

Inductive event : Type :=
| EvSetNX (key value : string) (ttl : Duration)
| EvEval (key value : string)          (* the release script *)
| EvGet (key : string)
| EvSet (key : string) (ttl : Duration)
| EvDel (key : string)
| EvScan (pattern : string)
| EvSQL (statement : sql)
| EvSleep (d : Duration)
| EvLog (line : string).

(** ** The monad of operations *)

Definition M (A : Type) : Type := World → A * World * list event.

#[global] Instance M_ret : MRet M := λ A a w, (a, w, []).

#[global] Instance M_bind : MBind M := λ A B k m w,
  let '(a, w1, e1) := m w in
  let '(b, w2, e2) := k a w1 in
  (b, w2, (e1 ++ e2)%list).

Definition gets {A} (f : World → A) : M A := λ w, (f w, w, []).
Definition modify (f : World → World) : M unit := λ w, (tt, f w, []).
Definition emit (e : event) : M unit := λ w, (tt, w, [e]).

(** [defer f] around [body]: [f] runs after [body], whose results are
    returned. *)
Definition defer {A} (f : M unit) (body : M A) : M A :=
  a ← body; _ ← f; mret a.

Definition result {A} (o : A * World * list event) : A := o.1.1.
Definition world_of {A} (o : A * World * list event) : World := o.1.2.
Definition events {A} (o : A * World * list event) : list event := o.2.

(** ** Redis commands *)

(** The head of a fault schedule: does the next call fail? *)
Definition next_fault (fs : list bool) : bool :=
  match fs with
  | b :: _ => b
  | [] => false
  end.

(** The next Redis call: does it fail?  The call uses up the head of the
    schedule. *)
Definition redis_tick (w : World) : World :=
  set_redis_faults (tail (redis_faults w)) w.

Definition redis_call : M bool :=
  fs ← gets redis_faults;
  _ ← modify redis_tick;
  mret (next_fault fs).

(** SET key value NX PX ttl *)
Definition SetNX (key value : string) (ttl : Duration) : M (bool * option error) :=
  _ ← emit (EvSetNX key value ttl);
  failed ← redis_call;
  if failed : bool then mret (false, Some ErrIO)
  else
    r ← gets redis;
    match r !! key with
    | Some _ => mret (false, None)
    | None => _ ← modify (set_redis (insert key value)); mret (true, None)
    end.

(** GET key: the value, or [redis.Nil] when the key does not exist. *)
Definition GET (key : string) : M (string * option error) :=
  _ ← emit (EvGet key);
  failed ← redis_call;
  if failed : bool then mret ("", Some ErrIO)
  else
    r ← gets redis;
    match r !! key with
    | Some v => mret (v, None)
    | None => mret ("", Some RedisNil)
    end.

(** SET key value PX expiration *)
Definition SET (key value : string) (expiration : Duration) : M (option error) :=
  _ ← emit (EvSet key expiration);
  failed ← redis_call;
  if failed : bool then mret (Some ErrIO)
  else _ ← modify (set_redis (insert key value)); mret None.

(** DEL key *)
Definition DEL (key : string) : M (option error) :=
  _ ← emit (EvDel key);
  failed ← redis_call;
  if failed : bool then mret (Some ErrIO)
  else _ ← modify (set_redis (delete key)); mret None.

(** Glob patterns of SCAN ... MATCH: [*] any run of characters, [?] any one
    character, [\c] the character [c].  Character classes are not modelled;
    no pattern of the repositories has one. *)
Fixpoint glob_match (p s : string) : bool :=
  match p with
  | EmptyString => match s with EmptyString => true | _ => false end
  | String "*"%char p' =>
      (fix star (s : string) : bool :=
         glob_match p' s ||
         match s with EmptyString => false | String _ s' => star s' end) s
  | String "?"%char p' =>
      match s with EmptyString => false | String _ s' => glob_match p' s' end
  | String "\"%char (String c p') =>
      match s with
      | EmptyString => false
      | String d s' => bool_decide (c = d) && glob_match p' s'
      end
  | String c p' =>
      match s with
      | EmptyString => false
      | String d s' => bool_decide (c = d) && glob_match p' s'
      end
  end.

(** The keys a SCAN cursor walk with MATCH [pattern] yields. *)
Definition scan_keys (pattern : string) (r : gmap string string) : list string :=
  filter (λ k, glob_match pattern k = true) (map_to_list r).*1.

(** [client.Scan(ctx, 0, pattern, 0).Iterator()]: the keys to visit and the
    iterator's error. *)
Definition SCAN (pattern : string) : M (list string * option error) :=
  _ ← emit (EvScan pattern);
  failed ← redis_call;
  if failed : bool then mret ([], Some ErrIO)
  else r ← gets redis; mret (scan_keys pattern r, None).

(** The script of [ReleaseLock], run by the server in one step:
<<
    if redis.call("GET", KEYS[1]) == ARGV[1] then
        return redis.call("DEL", KEYS[1])
    else
        return 0
    end
>> *)
Definition releaseLockScript (key value : string) (r : gmap string string)
  : Z * gmap string string :=
  if decide (r !! key = Some value) then (1, delete key r) else (0, r).

(** [script.Run(ctx, RedisClient, []string{key}, value).Result()] *)
Definition EVAL_releaseLockScript (key value : string) : M (Z * option error) :=
  _ ← emit (EvEval key value);
  failed ← redis_call;
  if failed : bool then mret (0, Some ErrIO)
  else
    r ← gets redis;
    _ ← modify (set_redis (λ _, (releaseLockScript key value r).2));
    mret ((releaseLockScript key value r).1, None).

(** ** package database: locks (redis.go) *)

Definition NewLock (key value : string) (ttl : Duration) : M (bool * option error) :=
  client ← gets RedisClient;
  if negb client
  then mret (false, Some (New "Redis client is not initialized"))
  else SetNX key value ttl.

Definition ReleaseLock (key value : string) : M (option error) :=
  client ← gets RedisClient;
  if negb client
  then mret (Some (New "Redis client is not initialized"))
  else
    '(result, err) ← EVAL_releaseLockScript key value;
    match err with
    | Some _ => mret (Some (Errorf "failed to release lock: %w" err))
    | None =>
        if result =? 0
        then mret (Some (New "lock release failed: not the lock owner"))
        else mret None
    end.

(** [time.Sleep] and [log.Printf] *)
Definition Sleep (d : Duration) : M unit := emit (EvSleep d).
Definition log_Printf (line : string) : M unit := emit (EvLog line).

(** ** package cache (cache.go) *)

Module Cache.

Definition Delete (key : string) : M (option error) :=
  client ← gets RedisClient;
  if negb client
  then mret (Some (New "Redis client is not initialized"))
  else DEL key.

(** The loop of [DeleteAll] over the keys the iterator yields. *)
Fixpoint DeleteAll_loop (keys : list string) : M (option error) :=
  match keys with
  | [] => mret None
  | k :: keys' =>
      err ← DEL k;
      match err with
      | Some _ => mret err
      | None => DeleteAll_loop keys'
      end
  end.

Definition DeleteAll (pattern : string) : M (option error) :=
  client ← gets RedisClient;
  if negb client
  then mret (Some (New "Redis client is not initialized"))
  else
    '(keys, iterErr) ← SCAN pattern;
    err ← DeleteAll_loop keys;
    match err with
    | Some _ => mret err
    | None =>
        match iterErr with
        | Some _ => mret iterErr
        | None => mret None
        end
    end.

Definition Set_ (key value : string) (expiration : Duration) : M (option error) :=
  client ← gets RedisClient;
  if negb client
  then mret (Some (New "Redis client is not initialized"))
  else SET key value expiration.

Definition Get (key : string) : M (string * option error) :=
  client ← gets RedisClient;
  if negb client
  then mret ("", Some (New "Redis client is not initialized"))
  else
    '(val, err) ← GET key;
    match err with
    | Some RedisNil => mret ("", None)      (* key does not exist *)
    | _ => mret (val, err)
    end.

End Cache.

(** ** PostgreSQL statements, as gorm issues them *)

(** [database.DB], or the [tx] handed to the closure of [Transaction]. *)
Inductive handle : Type := Pool | Tx.

Definition mark_aborted (h : handle) (w : World) : World :=
  match h with Tx => set_tx_aborted true w | Pool => w end.

Definition db_tick (w : World) : World :=
  set_db_faults (tail (db_faults w)) w.

(** The next statement on [h]: nil when the server executes it.  A statement
    sent in a failed transaction is refused; a statement that fails in a
    transaction fails the transaction. *)
Definition refused (h : handle) (w : World) : bool :=
  match h with Tx => tx_aborted w | Pool => false end.

Definition db_call (h : handle) : M (option error) :=
  r ← gets (refused h);
  if r : bool
  then mret (Some ErrTxAborted)
  else
    fs ← gets db_faults;
    _ ← modify db_tick;
    if next_fault fs
    then _ ← modify (mark_aborted h); mret (Some ErrIO)
    else mret None.

(** The server rejects the statement with [e]. *)
Definition db_reject (h : handle) (e : error) : M (option error) :=
  _ ← modify (mark_aborted h); mret (Some e).

Record Table (R : Type) := {
  table_name : string;
  rows : Tables → list R;
  with_rows : list R → Tables → Tables;
  same_key : R → R → bool;            (* equal primary keys *)
}.
Arguments table_name {R}.
Arguments rows {R}.
Arguments with_rows {R}.
Arguments same_key {R}.

Definition patient_table : Table Patient := {|
  table_name := "patient";
  rows := patient;
  with_rows l t :=
    {| patient := l; emergency_contact := emergency_contact t;
       examination := examination t; billing := billing t;
       treatment_plan := treatment_plan t; appointment := appointment t;
       doctor := doctor t |};
  same_key a b := bool_decide (ID a = ID b);
|}.

Definition emergency_contact_table : Table EmergencyContact := {|
  table_name := "emergency_contact";
  rows := emergency_contact;
  with_rows l t :=
    {| patient := patient t; emergency_contact := l;
       examination := examination t; billing := billing t;
       treatment_plan := treatment_plan t; appointment := appointment t;
       doctor := doctor t |};
  same_key a b := bool_decide (EmergencyContact_ID a = EmergencyContact_ID b);
|}.

Definition examination_table : Table Examination := {|
  table_name := "examination";
  rows := examination;
  with_rows l t :=
    {| patient := patient t; emergency_contact := emergency_contact t;
       examination := l; billing := billing t;
       treatment_plan := treatment_plan t; appointment := appointment t;
       doctor := doctor t |};
  same_key a b := bool_decide (Examination_ID a = Examination_ID b);
|}.

Definition billing_table : Table Billing := {|
  table_name := "billing";
  rows := billing;
  with_rows l t :=
    {| patient := patient t; emergency_contact := emergency_contact t;
       examination := examination t; billing := l;
       treatment_plan := treatment_plan t; appointment := appointment t;
       doctor := doctor t |};
  same_key a b := bool_decide (BillingID a = BillingID b);
|}.

Definition treatment_plan_table : Table TreatmentPlan := {|
  table_name := "treatment_plan";
  rows := treatment_plan;
  with_rows l t :=
    {| patient := patient t; emergency_contact := emergency_contact t;
       examination := examination t; billing := billing t;
       treatment_plan := l; appointment := appointment t;
       doctor := doctor t |};
  same_key a b := bool_decide (TreatmentPlan_ID a = TreatmentPlan_ID b);
|}.

Definition appointment_table : Table Appointment := {|
  table_name := "appointment";
  rows := appointment;
  with_rows l t :=
    {| patient := patient t; emergency_contact := emergency_contact t;
       examination := examination t; billing := billing t;
       treatment_plan := treatment_plan t; appointment := l;
       doctor := doctor t |};
  same_key a b := bool_decide (Appointment_ID a = Appointment_ID b);
|}.

Definition doctor_table : Table Doctor := {|
  table_name := "doctor";
  rows := doctor;
  with_rows l t :=
    {| patient := patient t; emergency_contact := emergency_contact t;
       examination := examination t; billing := billing t;
       treatment_plan := treatment_plan t; appointment := appointment t;
       doctor := l |};
  same_key a b := bool_decide (Doctor_ID a = Doctor_ID b);
|}.

Section Statements.
Context {R : Type} (T : Table R) (h : handle).

(** [h.Where(cond).First(&dest)]: the first matching row is stored in
    [dest]; when there is none the error is [gorm.ErrRecordNotFound]
    (which is not a failure of the statement) and [dest] is left as it
    was. *)
Definition db_First (dest : R) (cond : R → Prop) `{∀ r, Decision (cond r)}
  : M (R * option error) :=
  _ ← emit (EvSQL (Select (table_name T)));
  err ← db_call h;
  match err with
  | Some _ => mret (dest, err)
  | None =>
      t ← gets DB;
      match head (filter cond (rows T t)) with
      | Some r => mret (r, None)
      | None => mret (dest, Some ErrRecordNotFound)
      end
  end.

(** [h.Where(cond).Find(&dest)]: all matching rows; no row is no error. *)
Definition db_Find (cond : R → Prop) `{∀ r, Decision (cond r)}
  : M (list R * option error) :=
  _ ← emit (EvSQL (Select (table_name T)));
  err ← db_call h;
  match err with
  | Some _ => mret ([], err)
  | None => t ← gets DB; mret (filter cond (rows T t), None)
  end.

(** The INSERT of one row, once the statement has reached the server: a
    primary key that is already there is a unique violation. *)
Definition insert_row (row : R) : M (option error) :=
  t ← gets DB;
  if existsb (same_key T row) (rows T t)
  then db_reject h ErrUniqueViolation
  else _ ← modify (set_DB (with_rows T (rows T t ++ [row])%list t)); mret None.

(** [h.Create(&row)] with the primary key set by the caller. *)
Definition db_Create (row : R) : M (option error) :=
  _ ← emit (EvSQL (Insert (table_name T)));
  err ← db_call h;
  match err with
  | Some _ => mret err
  | None => insert_row row
  end.

(** [h.Save(&row)]: the row with this primary key takes the new values;
    when there is none the row is inserted. *)
Definition db_Save (row : R) : M (option error) :=
  _ ← emit (EvSQL (Upsert (table_name T)));
  err ← db_call h;
  match err with
  | Some _ => mret err
  | None =>
      t ← gets DB;
      let old := rows T t in
      let new :=
        if existsb (same_key T row) old
        then (λ r, if same_key T row r then row else r) <$> old
        else (old ++ [row])%list in
      _ ← modify (set_DB (with_rows T new t)); mret None
  end.

(** [h.Where(cond).Delete(&Model{})] and [h.Delete(&Model{}, cond)] *)
Definition db_Delete (cond : R → Prop) `{∀ r, Decision (cond r)}
  : M (option error) :=
  _ ← emit (EvSQL (DeleteFrom (table_name T)));
  err ← db_call h;
  match err with
  | Some _ => mret err
  | None =>
      t ← gets DB;
      _ ← modify (set_DB (with_rows T (filter (λ r, ¬ cond r) (rows T t)) t));
      mret None
  end.

End Statements.

(** SQL [LPAD(s, len, fill)] with a one-character [fill]: [s] padded on the
    left to [len] characters, or cut to its first [len] characters when it
    is longer. *)
Definition LPAD (s : string) (len : nat) (fill : ascii) : string :=
  if (String.length s <=? len)%nat
  then string_of_list_ascii (replicate (len - String.length s) fill) +:+ s
  else substring 0 len s.

(** [nextval(name)]: the sequence advances and its new value is read, in
    one statement. *)
Definition nextval (s : Seq) : Z * Seq :=
  let v := if is_called s then last_value s + 1 else last_value s in
  (v, {| last_value := v; is_called := true |}).

Definition db_nextval (h : handle) (name : string) : M (Z * option error) :=
  err ← db_call h;
  match err with
  | Some _ => mret (0, err)
  | None =>
      ss ← gets sequences;
      match ss !! name with
      | None => err ← db_reject h ErrSequence; mret (0, err)
      | Some s =>
          if seq_max <? (nextval s).1
          then err ← db_reject h ErrSequence; mret (0, err)
          else
            _ ← modify (set_sequences (<[name := (nextval s).2]> ss));
            mret ((nextval s).1, None)
      end
  end.

(** [h.Raw("SELECT 'P-' || LPAD(nextval('name')::TEXT, 6, '0')").Scan(&nextID)] *)
Definition format_id (prefix : string) (v : Z) : string :=
  prefix +:+ LPAD (pretty v) 6 "0".

Definition db_Raw_next_id (h : handle) (prefix name : string)
  : M (string * option error) :=
  _ ← emit (EvSQL (Nextval name));
  '(v, err) ← db_nextval h name;
  match err with
  | Some _ => mret ("", err)
  | None => mret (format_id prefix v, None)
  end.

(** [setval(name, (SELECT last_value FROM name) - 1, false)] *)
Definition setval_back (s : Seq) : option Seq :=
  let v := last_value s - 1 in
  if (v <? seq_min) || (seq_max <? v) then None
  else Some {| last_value := v; is_called := false |}.

(** [h.Exec("SELECT setval('name', (SELECT last_value FROM name) - 1, false)")] *)
Definition db_Exec_setval_back (h : handle) (name : string) : M (option error) :=
  _ ← emit (EvSQL (Setval name));
  err ← db_call h;
  match err with
  | Some _ => mret err
  | None =>
      ss ← gets sequences;
      match ss !! name ≫= setval_back with
      | None => db_reject h ErrSequence
      | Some s' => _ ← modify (set_sequences (<[name := s']> ss)); mret None
      end
  end.

(** [database.DB.Transaction(fc)]: BEGIN, the closure, then COMMIT when it
    returns nil and ROLLBACK when it returns an error.  The rows go back to
    what they were at BEGIN unless the COMMIT succeeds; sequences and Redis
    are outside the transaction. *)
Definition Transaction (fc : M (option error)) : M (option error) :=
  _ ← emit (EvSQL Begin);
  err ← db_call Pool;
  match err with
  | Some _ => mret err
  | None =>
      snapshot ← gets DB;
      _ ← modify (set_tx_aborted false);
      err ← fc;
      match err with
      | Some _ =>
          _ ← emit (EvSQL Rollback);
          _ ← modify (λ w, set_tx_aborted false (set_DB snapshot w));
          mret err
      | None =>
          _ ← emit (EvSQL Commit);
          cerr ← db_call Tx;
          match cerr with
          | Some _ =>
              _ ← modify (λ w, set_tx_aborted false (set_DB snapshot w));
              mret cerr
          | None => _ ← modify (set_tx_aborted false); mret None
          end
      end
  end.

(** ** package repositories *)

(** The loop that opens Create, Update and Delete of every repository:
<<
    for i := 0; i < maxRetries; i++ {
        locked, err = database.NewLock(ctx, lockKey, lockValue, ttl)
        if err == nil && locked { break }
        if i < maxRetries-1 { time.Sleep(retryDelay) }
    }
>>
    [lock_loop ... n i (locked, err)] runs the iterations from index [i] on;
    [n] is the number of iterations left, [maxRetries - i]. *)
Fixpoint lock_loop (lockKey lockValue : string) (ttl : Duration)
    (maxRetries : Z) (retryDelay : Duration)
    (n : nat) (i : Z) (st : bool * option error) : M (bool * option error) :=
  match n with
  | O => mret st
  | S n' =>
      '(locked, err) ← NewLock lockKey lockValue ttl;
      if is_nil err && locked then mret (locked, err)
      else
        _ ← (if i <? maxRetries - 1 then Sleep retryDelay else mret tt);
        lock_loop lockKey lockValue ttl maxRetries retryDelay n' (i + 1) (locked, err)
  end.

(** The lock acquisition of the per-record operations: [maxRetries := 3],
    [retryDelay := 2 * time.Second], a lock of [10 * time.Second]. *)
Definition acquire (lockKey lockValue : string) : M (bool * option error) :=
  let maxRetries := 3 in
  let retryDelay := 2 * Second in
  lock_loop lockKey lockValue (10 * Second) maxRetries retryDelay
    (Z.to_nat maxRetries) 0 (false, None).

(** The deferred closure of every mutating operation. *)
Definition release (lockKey lockValue : string) : M unit :=
  err ← ReleaseLock lockKey lockValue;
  match err with
  | Some _ => log_Printf "Failed to release lock: %v"
  | None => mret tt
  end.

(** Cache keys and cache helpers of the dependents' repositories. *)
Definition getPatientCacheKey (patientID : string) : string :=
  "patient_cache:" +:+ patientID.

Module EmergencyContactRepository.
Definition getEmergencyContactCacheKey (patientID : string) (id : N) : string :=
  "emergency_contact_cache:" +:+ patientID +:+ "_" +:+ pretty id.
Definition DeleteCache (patientID : string) (id : N) : M (option error) :=
  Cache.Delete (getEmergencyContactCacheKey patientID id).
Definition DeleteAllCache : M (option error) :=
  Cache.DeleteAll "emergency_contacts_cache".
End EmergencyContactRepository.

Module ExaminationRepository.
Definition getExaminationCacheKey (patientID : string) (id : N) : string :=
  "examination_cache:" +:+ patientID +:+ ":" +:+ pretty id.
Definition DeleteCache (patientID : string) (id : N) : M (option error) :=
  Cache.Delete (getExaminationCacheKey patientID id).
Definition DeleteAllCache : M (option error) :=
  Cache.DeleteAll "examinations_cache".
End ExaminationRepository.

Module TreatmentPlanRepository.
Definition getTreatmentPlanCacheKey (patientID : string) (id : N) : string :=
  "treatment_plan_cache:" +:+ patientID +:+ ":" +:+ pretty id.
Definition DeleteCache (patientID : string) (id : N) : M (option error) :=
  Cache.Delete (getTreatmentPlanCacheKey patientID id).
Definition DeleteAllCache : M (option error) :=
  Cache.DeleteAll "treatment_plans_cache".
End TreatmentPlanRepository.

(** [if err := step; err != nil { return err }] followed by [rest]. *)
Definition check (step rest : M (option error)) : M (option error) :=
  err ← step;
  match err with
  | Some _ => mret err
  | None => rest
  end.

(** [if err := step; err != nil && !errors.Is(err, gorm.ErrRecordNotFound)
    { return err }] followed by [rest]. *)
Definition check_found (step rest : M (option error)) : M (option error) :=
  err ← step;
  match err with
  | Some e => if errors_Is_ErrRecordNotFound e then rest else mret err
  | None => rest
  end.

(** [for _, x := range l { if err := f(x); err != nil { return err } }
    return nil] *)
Fixpoint for_each {A} (f : A → M (option error)) (l : list A) : M (option error) :=
  match l with
  | [] => mret None
  | x :: l' => check (f x) (for_each f l')
  end.

Definition Patient_zero : Patient := {|
  ID := ""; FirstName := ""; MiddleName := ""; LastName := ""; Sex := "";
  DateOfBirth := ""; Insured := false; Cash := false; InsuranceCompany := "";
  Scheme := ""; CoverLimit := 0%float; Occupation := ""; PlaceOfWork := "";
  Phone := ""; Email := ""; Address := "" |}.

Definition Patient_with_ID (id : string) (p : Patient) : Patient := {|
  ID := id; FirstName := FirstName p; MiddleName := MiddleName p;
  LastName := LastName p; Sex := Sex p; DateOfBirth := DateOfBirth p;
  Insured := Insured p; Cash := Cash p; InsuranceCompany := InsuranceCompany p;
  Scheme := Scheme p; CoverLimit := CoverLimit p; Occupation := Occupation p;
  PlaceOfWork := PlaceOfWork p; Phone := Phone p; Email := Email p;
  Address := Address p |}.

Definition Doctor_zero : Doctor :=
  {| Doctor_ID := ""; Doctor_FirstName := ""; Doctor_LastName := "" |}.

Definition Billing_zero : Billing := {|
  BillingID := ""; Billing_PatientID := ""; Billing_DoctorID := ""; Procedure := "";
  BillingAmount := 0%float; PaidCashAmount := 0%float;
  PaidInsuranceAmount := 0%float; Balance := 0%float; TotalReceived := 0%float |}.

Definition Doctor_with_ID (id : string) (d : Doctor) : Doctor :=
  {| Doctor_ID := id; Doctor_FirstName := Doctor_FirstName d;
     Doctor_LastName := Doctor_LastName d |}.

Definition Billing_with_ID (id : string) (b : Billing) : Billing := {|
  BillingID := id; Billing_PatientID := Billing_PatientID b;
  Billing_DoctorID := Billing_DoctorID b; Procedure := Procedure b;
  BillingAmount := BillingAmount b; PaidCashAmount := PaidCashAmount b;
  PaidInsuranceAmount := PaidInsuranceAmount b; Balance := Balance b;
  TotalReceived := TotalReceived b |}.

(** [billing.Balance = billing.BillingAmount - (billing.PaidCashAmount +
    billing.PaidInsuranceAmount); billing.TotalReceived =
    billing.PaidCashAmount + billing.PaidInsuranceAmount] *)
Definition Billing_with_totals (b : Billing) : Billing := {|
  BillingID := BillingID b; Billing_PatientID := Billing_PatientID b;
  Billing_DoctorID := Billing_DoctorID b; Procedure := Procedure b;
  BillingAmount := BillingAmount b; PaidCashAmount := PaidCashAmount b;
  PaidInsuranceAmount := PaidInsuranceAmount b;
  Balance := (BillingAmount b - (PaidCashAmount b + PaidInsuranceAmount b))%float;
  TotalReceived := (PaidCashAmount b + PaidInsuranceAmount b)%float |}.

Definition Appointment_with_ID (id : N) (a : Appointment) : Appointment := {|
  Appointment_ID := id; Appointment_PatientID := Appointment_PatientID a;
  Appointment_DoctorID := Appointment_DoctorID a; DateTime := DateTime a;
  Status := Status a |}.

(** *** doctorRepository.go *)
Module DoctorRepository.

Definition getDoctorCacheKey (id : string) : string := "doctor_cache:" +:+ id.

(** The closure handed to [Transaction] by [Create]; the compensation of
    the sequence goes through [database.DB], outside the transaction. *)
Definition Create_tx (doctor : Doctor) : M (option error) :=
  err ← db_Create doctor_table Tx doctor;
  match err with
  | Some _ =>
      rollbackErr ← db_Exec_setval_back Pool "doctor_id_seq";
      match rollbackErr with
      | Some _ =>
          mret (Some (Errorf2
            "transaction failed and sequence rollback failed: %v, rollback error: %v"
            err rollbackErr))
      | None => mret (Some (Errorf "failed to create doctor: %w" err))
      end
  | None =>
      err ← Cache.Delete (getDoctorCacheKey (Doctor_ID doctor));
      match err with
      | Some _ => mret (Some (Errorf "failed to delete doctor cache: %w" err))
      | None => Cache.DeleteAll "doctors_cache"
      end
  end.

(** [lockValue] is the [uuid.New().String()] the call draws. *)
Definition Create (lockValue : string) (doctor : Doctor) : M (Doctor * option error) :=
  let lockKey :=
    "doctor_lock:" +:+ Doctor_FirstName doctor +:+ "_" +:+ Doctor_LastName doctor in
  '(locked, err) ← acquire lockKey lockValue;
  if negb locked
  then mret (doctor, Some (Errorf "failed to acquire lock after retries: %w" err))
  else
    defer (release lockKey lockValue)
      ('(_, err) ← db_First doctor_table Pool Doctor_zero
           (λ r, Doctor_FirstName r = Doctor_FirstName doctor
                 ∧ Doctor_LastName r = Doctor_LastName doctor);
       match err with
       | None => mret (doctor, Some (New "doctor with the same name already exists"))
       | Some e =>
           if negb (errors_Is_ErrRecordNotFound e)
           then mret (doctor, Some (Errorf "failed to check for existing doctor: %w" err))
           else
             '(nextID, err) ← db_Raw_next_id Pool "DR-" "doctor_id_seq";
             match err with
             | Some _ =>
                 mret (doctor, Some (Errorf "failed to obtain next sequence value: %w" err))
             | None =>
                 let doctor := Doctor_with_ID nextID doctor in
                 err ← Transaction (Create_tx doctor);
                 mret (doctor, err)
             end
       end).

Definition Update (lockValue : string) (doctor : Doctor) : M (option error) :=
  let lockKey := "doctor_lock:" +:+ Doctor_ID doctor in
  '(locked, err) ← acquire lockKey lockValue;
  if negb locked
  then mret (Some (Errorf "failed to acquire lock after retries: %w" err))
  else
    defer (release lockKey lockValue)
      (err ← db_Save doctor_table Pool doctor;
       match err with
       | Some _ => mret (Some (Errorf "failed to update doctor: %w" err))
       | None =>
           err ← Cache.Delete (getDoctorCacheKey (Doctor_ID doctor));
           match err with
           | Some _ => mret (Some (Errorf "failed to delete doctor cache: %w" err))
           | None => Cache.DeleteAll "doctors_cache"
           end
       end).

Definition Delete (lockValue : string) (id : string) : M (option error) :=
  let lockKey := "doctor_lock:" +:+ id in
  '(locked, err) ← acquire lockKey lockValue;
  if negb locked
  then mret (Some (Errorf "failed to acquire lock after retries: %w" err))
  else
    defer (release lockKey lockValue)
      (err ← db_Delete doctor_table Pool (λ r, Doctor_ID r = id);
       match err with
       | Some _ => mret (Some (Errorf "failed to delete doctor: %w" err))
       | None =>
           err ← Cache.Delete (getDoctorCacheKey id);
           match err with
           | Some _ => mret (Some (Errorf "failed to delete doctor cache: %w" err))
           | None => Cache.DeleteAll "doctors_cache"
           end
       end).

End DoctorRepository.

(** *** The billing repository *)
Module BillingRepository.

Definition getBillingCacheKey (id : string) : string := "billing_cache:" +:+ id.

Definition DeleteCache (id : string) : M (option error) :=
  Cache.Delete (getBillingCacheKey id).

Definition DeleteAllCache : M (option error) :=
  Cache.DeleteAll "billings_cache".

(** The four invalidations that end Create and Update. *)
Definition invalidate (billing : Billing) : M (option error) :=
  err ← Cache.Delete (getBillingCacheKey (BillingID billing));
  match err with
  | Some _ => mret (Some (Errorf "failed to delete billing cache: %w" err))
  | None =>
      err ← Cache.DeleteAll "billings_cache";
      match err with
      | Some _ => mret (Some (Errorf "failed to delete all billings cache: %w" err))
      | None =>
          err ← Cache.Delete (getPatientCacheKey (Billing_PatientID billing));
          match err with
          | Some _ => mret (Some (Errorf "failed to delete patient cache: %w" err))
          | None => Cache.DeleteAll "patients_cache"
          end
      end
  end.

Definition Create (lockValue : string) (billing : Billing) : M (Billing * option error) :=
  let lockKey := "billing_lock:" +:+ BillingID billing in
  '(locked, err) ← acquire lockKey lockValue;
  if negb locked
  then mret (billing, Some (Errorf "failed to acquire lock after retries: %w" err))
  else
    defer (release lockKey lockValue)
      ('(_, err) ← db_First doctor_table Pool Doctor_zero
           (λ r, Doctor_ID r = Billing_DoctorID billing);
       match err with
       | Some e =>
           if errors_Is_ErrRecordNotFound e
           then mret (billing, Some (New "doctor not found"))
           else mret (billing, Some (Errorf "failed to find doctor: %w" err))
       | None =>
           '(nextID, err) ← db_Raw_next_id Pool "PB-" "billing_id_seq";
           match err with
           | Some _ =>
               mret (billing, Some (Errorf "failed to obtain next sequence value: %w" err))
           | None =>
               let billing := Billing_with_ID nextID billing in
               let billing := Billing_with_totals billing in
               err ← Transaction
                 (err ← db_Create billing_table Tx billing;
                  match err with
                  | Some _ =>
                      rollbackErr ← db_Exec_setval_back Pool "billing_id_seq";
                      match rollbackErr with
                      | Some _ =>
                          mret (Some (Errorf2
                            "transaction failed and sequence rollback failed: %v, rollback error: %v"
                            err rollbackErr))
                      | None => mret (Some (Errorf "failed to create billing: %w" err))
                      end
                  | None => invalidate billing
                  end);
               mret (billing, err)
           end
       end).

Definition Update (lockValue : string) (billing : Billing) : M (Billing * option error) :=
  let lockKey := "billing_lock:" +:+ BillingID billing in
  '(locked, err) ← acquire lockKey lockValue;
  if negb locked
  then mret (billing, Some (Errorf "failed to acquire lock after retries: %w" err))
  else
    defer (release lockKey lockValue)
      ('(_, err) ← db_First doctor_table Pool Doctor_zero
           (λ r, Doctor_ID r = Billing_DoctorID billing);
       match err with
       | Some e =>
           if errors_Is_ErrRecordNotFound e
           then mret (billing, Some (New "doctor not found"))
           else mret (billing, Some (Errorf "failed to find doctor: %w" err))
       | None =>
           let billing := Billing_with_totals billing in
           err ← db_Save billing_table Pool billing;
           match err with
           | Some _ => mret (billing, Some (Errorf "failed to update billing: %w" err))
           | None => err ← invalidate billing; mret (billing, err)
           end
       end).

(** The row is read first, for the patient whose cache entry is to be
    invalidated; a billing that does not exist is an error. *)
Definition Delete (lockValue : string) (id : string) : M (option error) :=
  let lockKey := "billing_lock:" +:+ id in
  '(locked, err) ← acquire lockKey lockValue;
  if negb locked
  then mret (Some (Errorf "failed to acquire lock after retries: %w" err))
  else
    defer (release lockKey lockValue)
      ('(billing, err) ← db_First billing_table Pool Billing_zero
           (λ r, BillingID r = id);
       match err with
       | Some _ => mret (Some (Errorf "failed to find billing: %w" err))
       | None =>
           err ← db_Delete billing_table Pool (λ r, BillingID r = id);
           match err with
           | Some _ => mret (Some (Errorf "failed to delete billing: %w" err))
           | None =>
               err ← Cache.Delete (getBillingCacheKey id);
               match err with
               | Some _ => mret (Some (Errorf "failed to delete billing cache: %w" err))
               | None =>
                   err ← Cache.DeleteAll "billings_cache";
                   match err with
                   | Some _ =>
                       mret (Some (Errorf "failed to delete all billings cache: %w" err))
                   | None =>
                       err ← Cache.Delete (getPatientCacheKey (Billing_PatientID billing));
                       match err with
                       | Some _ =>
                           mret (Some (Errorf "failed to delete patient cache: %w" err))
                       | None => Cache.DeleteAll "patients_cache"
                       end
                   end
               end
           end
       end).

End BillingRepository.

(** *** The appointment repository *)
Module AppointmentRepository.

Definition getAppointmentCacheKey (patientID : string) (id : N) : string :=
  "appointment_cache:" +:+ patientID +:+ "_" +:+ pretty id.

Definition DeleteCache (patientID : string) (id : N) : M (option error) :=
  Cache.Delete (getAppointmentCacheKey patientID id).

Definition DeleteAllCache : M (option error) :=
  Cache.DeleteAll "appointments_cache".

Definition lockKey_of (appointment : Appointment) : string :=
  "appointment_lock:" +:+ Appointment_PatientID appointment +:+ "_"
    +:+ pretty (Appointment_ID appointment).

(** [appointment.Status != "scheduled" && appointment.Status != "fulfilled"
    && appointment.Status != "cancelled"] *)
Definition invalid_status (appointment : Appointment) : bool :=
  bool_decide (Status appointment ≠ "scheduled")
  && bool_decide (Status appointment ≠ "fulfilled")
  && bool_decide (Status appointment ≠ "cancelled").

(** [database.DB.Create(appointment)]: the [id] column is auto-increment; a
    zero [ID] is replaced by the next value of the column's sequence, and
    gorm stores it in the struct. *)
Definition db_Create_Appointment (h : handle) (appointment : Appointment)
  : M (Appointment * option error) :=
  _ ← emit (EvSQL (Insert "appointment"));
  if (Appointment_ID appointment =? 0)%N
  then
    '(v, err) ← db_nextval h "appointment_id_seq";
    match err with
    | Some _ => mret (appointment, err)
    | None =>
        let appointment := Appointment_with_ID (Z.to_N v) appointment in
        err ← insert_row appointment_table h appointment;
        mret (appointment, err)
    end
  else
    err ← db_call h;
    match err with
    | Some _ => mret (appointment, err)
    | None =>
        err ← insert_row appointment_table h appointment;
        mret (appointment, err)
    end.

(** The four invalidations that end Create and Update. *)
Definition invalidate (appointment : Appointment) : M (option error) :=
  err ← Cache.Delete
          (getAppointmentCacheKey (Appointment_PatientID appointment)
             (Appointment_ID appointment));
  match err with
  | Some _ => mret (Some (Errorf "failed to delete appointment cache: %w" err))
  | None =>
      err ← Cache.DeleteAll "appointments_cache";
      match err with
      | Some _ => mret (Some (Errorf "failed to delete all appointments cache: %w" err))
      | None =>
          err ← Cache.Delete (getPatientCacheKey (Appointment_PatientID appointment));
          match err with
          | Some _ => mret (Some (Errorf "failed to delete patient cache: %w" err))
          | None => Cache.DeleteAll "patients_cache"
          end
      end
  end.

Definition Create (lockValue : string) (appointment : Appointment)
  : M (Appointment * option error) :=
  let lockKey := lockKey_of appointment in
  '(locked, err) ← acquire lockKey lockValue;
  if negb locked
  then mret (appointment, Some (Errorf "failed to acquire lock after retries: %w" err))
  else
    defer (release lockKey lockValue)
      (if invalid_status appointment
       then mret (appointment, Some (New "invalid status value"))
       else
         '(appointment, err) ← db_Create_Appointment Pool appointment;
         match err with
         | Some _ =>
             mret (appointment, Some (Errorf "failed to create appointment: %w" err))
         | None => err ← invalidate appointment; mret (appointment, err)
         end).

Definition Update (lockValue : string) (appointment : Appointment)
  : M (Appointment * option error) :=
  let lockKey := lockKey_of appointment in
  '(locked, err) ← acquire lockKey lockValue;
  if negb locked
  then mret (appointment, Some (Errorf "failed to acquire lock after retries: %w" err))
  else
    defer (release lockKey lockValue)
      (if invalid_status appointment
       then mret (appointment, Some (New "invalid status value"))
       else
         err ← db_Save appointment_table Pool appointment;
         match err with
         | Some _ =>
             mret (appointment, Some (Errorf "failed to update appointment: %w" err))
         | None => err ← invalidate appointment; mret (appointment, err)
         end).

Definition Delete (lockValue : string) (patientID : string) (id : N) : M (option error) :=
  let lockKey := "appointment_lock:" +:+ patientID +:+ "_" +:+ pretty id in
  '(locked, err) ← acquire lockKey lockValue;
  if negb locked
  then mret (Some (Errorf "failed to acquire lock after retries: %w" err))
  else
    defer (release lockKey lockValue)
      (err ← db_Delete appointment_table Pool
               (λ r, Appointment_ID r = id ∧ Appointment_PatientID r = patientID);
       match err with
       | Some _ => mret (Some (Errorf "failed to delete appointment: %w" err))
       | None =>
           err ← Cache.Delete (getAppointmentCacheKey patientID id);
           match err with
           | Some _ => mret (Some (Errorf "failed to delete appointment cache: %w" err))
           | None =>
               err ← Cache.DeleteAll "appointments_cache";
               match err with
               | Some _ =>
                   mret (Some (Errorf "failed to delete all appointments cache: %w" err))
               | None =>
                   err ← Cache.Delete (getPatientCacheKey patientID);
                   match err with
                   | Some _ =>
                       mret (Some (Errorf "failed to delete patient cache: %w" err))
                   | None => Cache.DeleteAll "patients_cache"
                   end
               end
           end
       end).

End AppointmentRepository.

(** *** patientRepository.go *)
Module PatientRepository.

Definition PatientCacheExpiry : Duration := 7 * 24 * Hour.

(** The two invalidations that end Create, Update and Delete. *)
Definition invalidate (id : string) : M (option error) :=
  err ← Cache.Delete (getPatientCacheKey id);
  match err with
  | Some _ => mret (Some (Errorf "failed to delete patient cache: %w" err))
  | None => Cache.DeleteAll "patients_cache"
  end.

Definition middleName_of (patient : Patient) : string :=
  if decide (MiddleName patient = "") then "N/A" else MiddleName patient.

Definition Create_lockKey (patient : Patient) : string :=
  "patient_lock:" +:+ FirstName patient +:+ "_" +:+ middleName_of patient
    +:+ "_" +:+ LastName patient +:+ "_" +:+ DateOfBirth patient.

(** The closure handed to [Transaction] by [Create]: the insert, the
    compensation of the sequence when it fails, the invalidations when it
    succeeds. *)
Definition Create_tx (patient : Patient) : M (option error) :=
  err ← db_Create patient_table Tx patient;
  match err with
  | Some _ =>
      rollbackErr ← db_Exec_setval_back Tx "patient_id_seq";
      match rollbackErr with
      | Some _ =>
          mret (Some (Errorf2
            "transaction failed and sequence rollback failed: %v, rollback error: %v"
            err rollbackErr))
      | None => mret (Some (Errorf "failed to create patient: %w" err))
      end
  | None => invalidate (ID patient)
  end.

(** [lockValue] is the [uuid.New().String()] the call draws. *)
Definition Create (lockValue : string) (patient : Patient) : M (Patient * option error) :=
  let middleName := middleName_of patient in
  let lockKey := Create_lockKey patient in
  '(locked, err) ← acquire lockKey lockValue;
  if negb locked
  then mret (patient, Some (Errorf "failed to acquire lock after retries: %w" err))
  else
    defer (release lockKey lockValue)
      ('(_, err) ← db_First patient_table Pool Patient_zero
           (λ r, FirstName r = FirstName patient ∧ MiddleName r = middleName
                 ∧ LastName r = LastName patient
                 ∧ DateOfBirth r = DateOfBirth patient);
       match err with
       | None => mret (patient, Some (New "patient with the same details already exists"))
       | Some e =>
           if negb (errors_Is_ErrRecordNotFound e)
           then mret (patient, Some (Errorf "failed to check for existing patient: %w" err))
           else
             '(nextID, err) ← db_Raw_next_id Pool "DP-" "patient_id_seq";
             match err with
             | Some _ =>
                 mret (patient, Some (Errorf "failed to obtain next sequence value: %w" err))
             | None =>
                 let patient := Patient_with_ID nextID patient in
                 err ← Transaction (Create_tx patient);
                 mret (patient, err)
             end
       end).

Section Reads.
(** [encoding/json] on [models.Patient] and [[]models.Patient]: an
    encoder that can refuse a value, a decoder that can refuse a text. *)
Variable json_Marshal : Patient → option string.
Variable json_Unmarshal : string → option Patient.
Variable json_Marshal_all : list Patient → option string.
Variable json_Unmarshal_all : string → option (list Patient).

(** The cache lookup that opens [GetByID]: the patient decoded from the
    cached text, if there is one. *)
Definition GetByID_cached (id : string) : M (option Patient) :=
  '(cachedPatient, err) ← Cache.Get (getPatientCacheKey id);
  match err with
  | None => mret (json_Unmarshal cachedPatient)
  | Some e =>
      _ ← (if negb (is_RedisNil e)
           then log_Printf "Failed to get patient from cache: %v"
           else mret tt);
      mret None
  end.

(** The rest of [GetByID], run when the cache gave no patient: the row of
    the backing store, then the cache entry. *)
Definition GetByID_store (id : string) : M (option Patient * option error) :=
  '(patient, err) ← db_First patient_table Pool Patient_zero (λ r, ID r = id);
  match err with
  | Some e =>
      if errors_Is_ErrRecordNotFound e then mret (None, None)
      else mret (None, Some (Errorf "failed to get patient: %w" err))
  | None =>
      match json_Marshal patient with
      | None =>
          mret (None, Some (Errorf "failed to marshal patient: %w" (Some ErrJSON)))
      | Some patientJSON =>
          err ← Cache.Set_ (getPatientCacheKey id) patientJSON PatientCacheExpiry;
          _ ← (if negb (is_nil err)
               then log_Printf "Failed to set patient in cache: %v"
               else mret tt);
          mret (Some patient, None)
      end
  end.

Definition GetByID (id : string) : M (option Patient * option error) :=
  hit ← GetByID_cached id;
  match hit with
  | Some patient => mret (Some patient, None)
  | None => GetByID_store id
  end.

(** The cache lookup that opens [GetAll]. *)
Definition GetAll_cached : M (option (list Patient)) :=
  '(cachedPatients, err) ← Cache.Get "patients_cache";
  match err with
  | None => mret (json_Unmarshal_all cachedPatients)
  | Some e =>
      _ ← (if negb (is_RedisNil e)
           then log_Printf "Failed to get patients from cache: %v"
           else mret tt);
      mret None
  end.

(** The rest of [GetAll], run when the cache gave no list.  The rows come
    in the order of the table: the ORDER BY created_at DESC of the query is
    not modelled, the rows having no [created_at]. *)
Definition GetAll_store : M (list Patient * option error) :=
  '(patients, err) ← db_Find patient_table Pool (λ _, True);
  match err with
  | Some _ => mret ([], Some (Errorf "failed to get all patients: %w" err))
  | None =>
      match json_Marshal_all patients with
      | None =>
          mret ([], Some (Errorf "failed to marshal patients: %w" (Some ErrJSON)))
      | Some patientsJSON =>
          err ← Cache.Set_ "patients_cache" patientsJSON PatientCacheExpiry;
          _ ← (if negb (is_nil err)
               then log_Printf "Failed to set patients in cache: %v"
               else mret tt);
          mret (patients, None)
      end
  end.

Definition GetAll : M (list Patient * option error) :=
  hit ← GetAll_cached;
  match hit with
  | Some patients => mret (patients, None)
  | None => GetAll_store
  end.
End Reads.

Definition Update (lockValue : string) (patient : Patient) : M (option error) :=
  let lockKey := "patient_lock:" +:+ ID patient in
  '(locked, err) ← acquire lockKey lockValue;
  if negb locked
  then mret (Some (Errorf "failed to acquire lock after retries: %w" err))
  else
    defer (release lockKey lockValue)
      (err ← db_Save patient_table Pool patient;
       match err with
       | Some _ => mret (Some (Errorf "failed to update patient: %w" err))
       | None => invalidate (ID patient)
       end).

Definition Delete (lockValue : string) (id : string) : M (option error) :=
  let lockKey := "patient_lock:" +:+ id in
  '(locked, err) ← acquire lockKey lockValue;
  if negb locked
  then mret (Some (Errorf "failed to acquire lock after retries: %w" err))
  else
    defer (release lockKey lockValue)
      (err ← db_Delete patient_table Pool (λ r, ID r = id);
       match err with
       | Some _ => mret (Some (Errorf "failed to delete patient: %w" err))
       | None => invalidate id
       end).

(** [tx.Where("patient_id = ?", patientID).Find(&rows)], then the cache key
    of every row found. *)
Definition invalidate_rows {R} (T : Table R) (owner : R → string)
    (DeleteCache : R → M (option error)) (patientID : string) : M (option error) :=
  '(found, err) ← db_Find T Tx (λ r, owner r = patientID);
  match err with
  | Some e => if errors_Is_ErrRecordNotFound e then mret None else mret err
  | None => for_each DeleteCache found
  end.

Definition invalidateEmergencyContactsCache : string → M (option error) :=
  invalidate_rows emergency_contact_table EmergencyContact_PatientID
    (λ contact, EmergencyContactRepository.DeleteCache
                  (EmergencyContact_PatientID contact) (EmergencyContact_ID contact)).

Definition invalidateExaminationsCache : string → M (option error) :=
  invalidate_rows examination_table Examination_PatientID
    (λ examination, ExaminationRepository.DeleteCache
                      (Examination_PatientID examination) (Examination_ID examination)).

Definition invalidateBillingsCache : string → M (option error) :=
  invalidate_rows billing_table Billing_PatientID
    (λ billing, BillingRepository.DeleteCache (BillingID billing)).

Definition invalidateTreatmentPlansCache : string → M (option error) :=
  invalidate_rows treatment_plan_table TreatmentPlan_PatientID
    (λ treatmentPlan, TreatmentPlanRepository.DeleteCache
                        (TreatmentPlan_PatientID treatmentPlan)
                        (TreatmentPlan_ID treatmentPlan)).

Definition invalidateAppointmentsCache : string → M (option error) :=
  invalidate_rows appointment_table Appointment_PatientID
    (λ appointment, AppointmentRepository.DeleteCache
                      (Appointment_PatientID appointment)
                      (Appointment_ID appointment)).

(** The closure handed to [Transaction] by [DeletePatientAndRelated]. *)
Definition DeletePatientAndRelated_tx (id : string) : M (option error) :=
  check (invalidateEmergencyContactsCache id)
  (check (invalidateExaminationsCache id)
  (check (invalidateBillingsCache id)
  (check (invalidateTreatmentPlansCache id)
  (check (invalidateAppointmentsCache id)
  (check_found (db_Delete emergency_contact_table Tx
                  (λ r, EmergencyContact_PatientID r = id))
  (check_found (db_Delete examination_table Tx (λ r, Examination_PatientID r = id))
  (check_found (db_Delete billing_table Tx (λ r, Billing_PatientID r = id))
  (check_found (db_Delete treatment_plan_table Tx (λ r, TreatmentPlan_PatientID r = id))
  (check_found (db_Delete appointment_table Tx (λ r, Appointment_PatientID r = id))
  (check_found (db_Delete patient_table Tx (λ r, ID r = id))
  (check (Cache.Delete (getPatientCacheKey id))
  (check (Cache.DeleteAll "patients_cache")
  (check AppointmentRepository.DeleteAllCache
  (check EmergencyContactRepository.DeleteAllCache
  (check BillingRepository.DeleteAllCache
  (check ExaminationRepository.DeleteAllCache
  (check TreatmentPlanRepository.DeleteAllCache
  (mret None)))))))))))))))))).

Definition DeletePatientAndRelated (lockValue : string) (id : string) : M (option error) :=
  let lockKey := "patient_lock:" +:+ id in
  '(locked, err) ← NewLock lockKey lockValue Minute;
  match err with
  | Some _ => mret (Some (Errorf "failed to acquire lock: %w" err))
  | None =>
      if negb locked
      then mret (Some (New "failed to acquire lock"))
      else defer (release lockKey lockValue)
             (Transaction (DeletePatientAndRelated_tx id))
  end.

End PatientRepository.

(** ** packages services and handlers: patients *)

(** The value a handler hands to [c.JSON]. *)
Inductive JSON : Type :=
| H_error (text : string)                  (* gin.H{"error": text} *)
| H_error_of (err : error)                 (* gin.H{"error": err.Error()} *)
| H_message (text : string)                (* gin.H{"message": text} *)
| JSON_Patient (patient : option Patient)  (* a patient; null for a nil pointer *)
| JSON_Patients (patients : list Patient).

Record Response := { status : Z; body : JSON }.

Section Patients.
Variable json_Marshal : Patient → option string.
Variable json_Unmarshal : string → option Patient.
Variable json_Marshal_all : list Patient → option string.
Variable json_Unmarshal_all : string → option (list Patient).
(** [c.ShouldBindJSON(&patient)] on the body of the request: the struct it
    leaves and its error. *)
Variable ShouldBindJSON : string → Patient * option error.

(** patientService.go: every method hands its arguments to the
    repository. *)
Definition PatientService_Create : string → Patient → M (Patient * option error) :=
  PatientRepository.Create.
Definition PatientService_GetByID : string → M (option Patient * option error) :=
  PatientRepository.GetByID json_Marshal json_Unmarshal.
Definition PatientService_GetAll : M (list Patient * option error) :=
  PatientRepository.GetAll json_Marshal_all json_Unmarshal_all.
Definition PatientService_Update : string → Patient → M (option error) :=
  PatientRepository.Update.
Definition PatientService_Delete : string → string → M (option error) :=
  PatientRepository.Delete.
Definition PatientService_DeletePatientAndRelated : string → string → M (option error) :=
  PatientRepository.DeletePatientAndRelated.

(** patientHandler.go.  [lockValue] is the token the repository draws,
    [requestBody] the body of the request, [id] its path parameter
    patient_id. *)
Definition CreatePatient (lockValue requestBody : string) : M Response :=
  let '(patient, err) := ShouldBindJSON requestBody in
  match err with
  | Some e => mret {| status := 400; body := H_error_of e |}
  | None =>
      '(patient, err) ← PatientService_Create lockValue patient;
      match err with
      | Some e => mret {| status := 500; body := H_error_of e |}
      | None => mret {| status := 201; body := JSON_Patient (Some patient) |}
      end
  end.

Definition GetPatientByID (id : string) : M Response :=
  '(patient, err) ← PatientService_GetByID id;
  match err with
  | Some _ => mret {| status := 404; body := H_error "Patient not found" |}
  | None => mret {| status := 200; body := JSON_Patient patient |}
  end.

Definition GetAllPatients : M Response :=
  '(patients, err) ← PatientService_GetAll;
  match err with
  | Some e => mret {| status := 500; body := H_error_of e |}
  | None => mret {| status := 200; body := JSON_Patients patients |}
  end.

Definition UpdatePatient (lockValue id requestBody : string) : M Response :=
  let '(patient, err) := ShouldBindJSON requestBody in
  match err with
  | Some e => mret {| status := 400; body := H_error_of e |}
  | None =>
      let patient := Patient_with_ID id patient in
      err ← PatientService_Update lockValue patient;
      match err with
      | Some e => mret {| status := 500; body := H_error_of e |}
      | None => mret {| status := 200; body := JSON_Patient (Some patient) |}
      end
  end.

Definition DeletePatient (lockValue id : string) : M Response :=
  err ← PatientService_Delete lockValue id;
  match err with
  | Some e => mret {| status := 500; body := H_error_of e |}
  | None => mret {| status := 204; body := H_message "Patient deleted" |}
  end.

Definition DeletePatientAndRelated (lockValue id : string) : M Response :=
  err ← PatientService_DeletePatientAndRelated lockValue id;
  match err with
  | Some e => mret {| status := 500; body := H_error_of e |}
  | None =>
      mret {| status := 204;
              body := H_message "Patient and all related records deleted" |}
  end.

End Patients.

(** ** Reading the list of events *)

(** The SQL statements among the events, in order. *)
Definition sql_of (evs : list event) : list sql :=
  omap (λ e, match e with EvSQL q => Some q | _ => None end) evs.

(** The commands that invalidate cache entries. *)
Definition is_invalidation (e : event) : bool :=
  match e with EvDel _ | EvScan _ => true | _ => false end.

Definition invalidations (evs : list event) : list event :=
  List.filter is_invalidation evs.



(** Nothing of PostgreSQL differs between two worlds. *)
Definition same_db (w w' : World) : Prop :=
  DB w' = DB w ∧ sequences w' = sequences w ∧ tx_aborted w' = tx_aborted w.

(** Keys that are absent stay absent. *)
Definition shrinks (w w' : World) : Prop :=
  ∀ k, redis w !! k = None → redis w' !! k = None.

(** The events of the operations of package cache. *)
Definition cache_events (evs : list event) : Prop :=
  Forall (λ e, is_invalidation e = true) evs.

(** The errors of the operations of package cache. *)
Definition cache_error (e : error) : Prop :=
  e = ErrIO ∨ e = New "Redis client is not initialized".

(** An operation that only deletes cache entries. *)
Definition cache_op (m : M (option error)) : Prop :=
  ∀ w, same_db w (world_of (m w))
       ∧ RedisClient (world_of (m w)) = RedisClient w
       ∧ shrinks w (world_of (m w))
       ∧ cache_events (events (m w))
       ∧ (∀ e, result (m w) = Some e → cache_error e).



(** ** The aggregate of a patient *)

(** The number of rows that belong to patient [id]: the patient row and the
    rows of the five dependent tables. *)
Definition rows_for (id : string) (t : Tables) : nat :=
  (length (filter (λ r, ID r = id) (patient t))
   + length (filter (λ r, EmergencyContact_PatientID r = id) (emergency_contact t))
   + length (filter (λ r, Examination_PatientID r = id) (examination t))
   + length (filter (λ r, Billing_PatientID r = id) (billing t))
   + length (filter (λ r, TreatmentPlan_PatientID r = id) (treatment_plan t))
   + length (filter (λ r, Appointment_PatientID r = id) (appointment t)))%nat.

(** The tables without the rows of patient [id]. *)
Definition without_patient (id : string) (t : Tables) : Tables := {|
  patient := filter (λ r, ¬ ID r = id) (patient t);
  emergency_contact :=
    filter (λ r, ¬ EmergencyContact_PatientID r = id) (emergency_contact t);
  examination := filter (λ r, ¬ Examination_PatientID r = id) (examination t);
  billing := filter (λ r, ¬ Billing_PatientID r = id) (billing t);
  treatment_plan :=
    filter (λ r, ¬ TreatmentPlan_PatientID r = id) (treatment_plan t);
  appointment := filter (λ r, ¬ Appointment_PatientID r = id) (appointment t);
  doctor := doctor t |}.

(** The cache keys of patient [id] in the tables [t]: the patient's key, the
    key of every dependent row, and the collection key of each of the six
    entity types. *)
Inductive aggregate_key (id : string) (t : Tables) : string → Prop :=
| key_patient : aggregate_key id t (getPatientCacheKey id)
| key_patients : aggregate_key id t "patients_cache"
| key_emergency_contact r :
    r ∈ emergency_contact t → EmergencyContact_PatientID r = id →
    aggregate_key id t
      (EmergencyContactRepository.getEmergencyContactCacheKey
         (EmergencyContact_PatientID r) (EmergencyContact_ID r))
| key_emergency_contacts : aggregate_key id t "emergency_contacts_cache"
| key_examination r :
    r ∈ examination t → Examination_PatientID r = id →
    aggregate_key id t
      (ExaminationRepository.getExaminationCacheKey
         (Examination_PatientID r) (Examination_ID r))
| key_examinations : aggregate_key id t "examinations_cache"
| key_billing r :
    r ∈ billing t → Billing_PatientID r = id →
    aggregate_key id t (BillingRepository.getBillingCacheKey (BillingID r))
| key_billings : aggregate_key id t "billings_cache"
| key_treatment_plan r :
    r ∈ treatment_plan t → TreatmentPlan_PatientID r = id →
    aggregate_key id t
      (TreatmentPlanRepository.getTreatmentPlanCacheKey
         (TreatmentPlan_PatientID r) (TreatmentPlan_ID r))
| key_treatment_plans : aggregate_key id t "treatment_plans_cache"
| key_appointment r :
    r ∈ appointment t → Appointment_PatientID r = id →
    aggregate_key id t
      (AppointmentRepository.getAppointmentCacheKey
         (Appointment_PatientID r) (Appointment_ID r))
| key_appointments : aggregate_key id t "appointments_cache".

(** ** Assertions on the steps of a transaction closure *)

(** In the world: the Redis client is initialised, the rows are [t], the
    open transaction has not failed, and the keys of [K] are absent from
    Redis. *)
Definition holds (t : Tables) (K : string → Prop) (w : World) : Prop :=
  RedisClient w = true ∧ DB w = t ∧ tx_aborted w = false
  ∧ (∀ k, K k → redis w !! k = None).

(** When [m] starts in a world of [P] and returns nil, it ends in a world
    of [Q] and the SQL statements it sent are [qs]. *)
Definition triple (P : World → Prop) (m : M (option error)) (qs : list sql)
    (Q : World → Prop) : Prop :=
  ∀ w, P w → result (m w) = None →
       Q (world_of (m w)) ∧ sql_of (events (m w)) = qs.

(** [m] never fails with [gorm.ErrRecordNotFound]. *)
Definition never_not_found (m : M (option error)) : Prop :=
  ∀ w e, result (m w) = Some e → errors_Is_ErrRecordNotFound e = false.

(** ** Worlds and rows for the examples *)

Definition no_rows : Tables := {|
  patient := []; emergency_contact := []; examination := []; billing := [];
  treatment_plan := []; appointment := []; doctor := [] |}.

Definition new_sequence : Seq := {| last_value := 1; is_called := false |}.

Definition new_sequences : gmap string Seq :=
  list_to_map
    [("patient_id_seq", new_sequence); ("doctor_id_seq", new_sequence);
     ("billing_id_seq", new_sequence); ("appointment_id_seq", new_sequence)].

(** Both servers up and empty, no failure scheduled. *)
Definition empty_world : World := {|
  RedisClient := true; redis := ∅; redis_faults := [];
  DB := no_rows; sequences := new_sequences; db_faults := [];
  tx_aborted := false |}.

Definition with_redis_faults (fs : list bool) (w : World) : World :=
  set_redis_faults fs w.

Definition appointment_pending : Appointment := {|
  Appointment_ID := 0; Appointment_PatientID := "DP-000001";
  Appointment_DoctorID := "DR-000001"; DateTime := "2025-01-10T09:00";
  Status := "pending" |}.

Definition patient_ann : Patient := {|
  ID := "DP-000001"; FirstName := "Ann"; MiddleName := "Lee"; LastName := "Roy";
  Sex := "Female"; DateOfBirth := "1990-01-01"; Insured := false; Cash := true;
  InsuranceCompany := ""; Scheme := ""; CoverLimit := 0%float; Occupation := "";
  PlaceOfWork := ""; Phone := "0700"; Email := ""; Address := "" |}.

Definition doctor_kim : Doctor :=
  {| Doctor_ID := "DR-000001"; Doctor_FirstName := "Kim"; Doctor_LastName := "Otieno" |}.

Definition contact_of_ann : EmergencyContact := {|
  EmergencyContact_ID := 1; EmergencyContact_PatientID := "DP-000001";
  EmergencyContact_Name := "Bo"; EmergencyContact_Phone := "0711";
  EmergencyContact_Relationship := "brother" |}.

Definition billing_of_ann : Billing := {|
  BillingID := "PB-000001"; Billing_PatientID := "DP-000001";
  Billing_DoctorID := "DR-000001"; Procedure := "filling";
  BillingAmount := 100%float; PaidCashAmount := 30%float;
  PaidInsuranceAmount := 20%float; Balance := 50%float;
  TotalReceived := 50%float |}.

(** One patient with an emergency contact and a billing, one doctor, and
    cache entries for the patient, her contact and two collections. *)
Definition clinic_world : World := {|
  RedisClient := true;
  redis :=
    list_to_map
      [("patient_cache:DP-000001", "{ann}"); ("patients_cache", "[{ann}]");
       ("emergency_contact_cache:DP-000001_1", "{bo}");
       ("billings_cache", "[{filling}]")];
  redis_faults := [];
  DB := {| patient := [patient_ann]; emergency_contact := [contact_of_ann];
           examination := []; billing := [billing_of_ann]; treatment_plan := [];
           appointment := []; doctor := [doctor_kim] |};
  sequences :=
    list_to_map
      [("patient_id_seq", {| last_value := 1; is_called := true |});
       ("doctor_id_seq", {| last_value := 1; is_called := true |});
       ("billing_id_seq", {| last_value := 1; is_called := true |});
       ("appointment_id_seq", new_sequence)];
  db_faults := [];
  tx_aborted := false |}.


(** ** Billing totals *)

(** [stored] is the one row of [t] with its identifier, its amounts are those
    of the billing [given] by the caller, and its balance and total received
    are computed from them. *)
Definition persisted_with_totals (given stored : Billing) (t : Tables) : Prop :=
  stored ∈ billing t
  ∧ (∀ r, r ∈ billing t → BillingID r = BillingID stored → r = stored)
  ∧ BillingAmount stored = BillingAmount given
  ∧ PaidCashAmount stored = PaidCashAmount given
  ∧ PaidInsuranceAmount stored = PaidInsuranceAmount given
  ∧ Balance stored
    = (BillingAmount given - (PaidCashAmount given + PaidInsuranceAmount given))%float
  ∧ TotalReceived stored
    = (PaidCashAmount given + PaidInsuranceAmount given)%float.

(** A billing whose balance and total received are wrong. *)
Definition billing_wrong_totals : Billing := {|
  BillingID := ""; Billing_PatientID := "DP-000001";
  Billing_DoctorID := "DR-000001"; Procedure := "crown";
  BillingAmount := 500%float; PaidCashAmount := 100%float;
  PaidInsuranceAmount := 150%float; Balance := 0%float;
  TotalReceived := 999%float |}.

(** ** Failures before the cache is touched *)




(** ** The statements of a Create *)

(** The lists of SQL statements a [Create] that takes its identifier from
    [sequence] and inserts into [table] can send: none without the lock, the
    uniqueness query, then [nextval], then one transaction around the
    insert, with the [setval] that takes the value back when the insert
    fails. *)
Definition Create_statements (table sequence : string) : list (list sql) :=
  [ [];
    [Select table];
    [Select table; Nextval sequence];
    [Select table; Nextval sequence; Begin];
    [Select table; Nextval sequence; Begin; Insert table; Setval sequence; Rollback];
    [Select table; Nextval sequence; Begin; Insert table; Rollback];
    [Select table; Nextval sequence; Begin; Insert table; Commit] ].

(** ** package middlewares: the bearer token (bearertoken.go) *)

(** [s[i]], a byte. *)
Definition byte_at (s : string) (i : nat) : Z :=
  match String.get i s with
  | Some c => Z.of_N (N_of_ascii c)
  | None => 0
  end.

(** [secureCompare]:
<<
    if len(a) != len(b) { return false }
    result := byte(0)
    for i := 0; i < len(a); i++ { result |= a[i] ^ b[i] }
    return result == 0
>> *)
Definition secureCompare (a b : string) : bool :=
  if negb (String.length a =? String.length b)%nat then false
  else
    let result :=
      fold_left (λ result i, Z.lor result (Z.lxor (byte_at a i) (byte_at b i)))
        (seq 0 (String.length a)) 0 in
    result =? 0.

(** [strings.HasPrefix] and [strings.TrimPrefix] *)
Definition HasPrefix (s prefix : string) : bool :=
  (String.length prefix <=? String.length s)%nat
  && bool_decide (substring 0 (String.length prefix) s = prefix).

Definition TrimPrefix (s prefix : string) : string :=
  if HasPrefix s prefix
  then substring (String.length prefix) (String.length s - String.length prefix) s
  else s.

(** What a handler of the gin chain does with a request: it answers with a
    status and an error text and aborts the chain, or hands the request
    on. *)
Inductive verdict : Type :=
| AbortJSON (status : Z) (error : string)
| Next.

Definition StatusUnauthorized : Z := 401.

(** The handler [ValidateBearerToken(expectedBearerToken)] returns, run on a
    request whose Authorization header is [authHeader] (empty when the
    request has none). *)
Definition ValidateBearerToken (expectedBearerToken authHeader : string) : verdict :=
  if decide (authHeader = "")
  then AbortJSON StatusUnauthorized "Authorization header is missing"
  else if negb (HasPrefix authHeader "Bearer ")
  then AbortJSON StatusUnauthorized "Invalid Authorization header format"
  else
    let token := TrimPrefix authHeader "Bearer " in
    if negb (secureCompare token expectedBearerToken)
    then AbortJSON StatusUnauthorized "Invalid Bearer Token"
    else Next.

(** ** package utils: passwords (authValidation.go) *)

Definition log_Println (line : string) : M unit := emit (EvLog line).

Definition ErrPasswordTooShort : error :=
  New "password must be at least 8 characters long".

Definition ErrPasswordNotComplex : error :=
  New "password must include at least one uppercase letter, one lowercase letter, one digit, and one special character".

(** [regexp.MustCompile(class).MatchString(s)] for a pattern that is one
    class of ASCII characters: some byte of [s] is in the class (a byte of
    a multi-byte UTF-8 sequence is never an ASCII character). *)
Definition MatchString (class : ascii → bool) (s : string) : bool :=
  existsb class (list_ascii_of_string s).

Definition between (lo hi c : ascii) : bool :=
  (N_of_ascii lo <=? N_of_ascii c)%N && (N_of_ascii c <=? N_of_ascii hi)%N.

Definition lowercaseRegex : ascii → bool := between "a" "z".     (* [a-z] *)
Definition uppercaseRegex : ascii → bool := between "A" "Z".     (* [A-Z] *)
Definition digitRegex : ascii → bool := between "0" "9".         (* \d *)
Definition specialRegex (c : ascii) : bool :=                     (* [@$!%*?&] *)
  bool_decide (c ∈ ["@"; "$"; "!"; "%"; "*"; "?"; "&"]%char).

Definition validatePassword (password : string) : M (option error) :=
  if (String.length password <? 8)%nat
  then _ ← log_Println "Password too short"; mret (Some ErrPasswordTooShort)
  else
    _ ← (if negb (MatchString lowercaseRegex password)
         then log_Println "Password missing lowercase letter" else mret tt);
    _ ← (if negb (MatchString uppercaseRegex password)
         then log_Println "Password missing uppercase letter" else mret tt);
    _ ← (if negb (MatchString digitRegex password)
         then log_Println "Password missing digit" else mret tt);
    _ ← (if negb (MatchString specialRegex password)
         then log_Println "Password missing special character" else mret tt);
    if negb (MatchString lowercaseRegex password)
       || negb (MatchString uppercaseRegex password)
       || negb (MatchString digitRegex password)
       || negb (MatchString specialRegex password)
    then mret (Some ErrPasswordNotComplex)
    else mret None.

(** ** package cache: the constructor (cache.go) *)

(** [NewCache()]: the instance holds [database.RedisClient]; only the error
    is kept, the methods of [Cache] read the client from the world. *)
Definition NewCache : M (option error) :=
  client ← gets RedisClient;
  if negb client
  then mret (Some (New "Redis client is not initialized"))
  else mret None.

(** ** package utils: reset codes (authResetCode.go) *)

(** [fmt.Sprintf("%06d", n)]: the sign, then zeros up to a width of six,
    then the digits. *)
Definition Sprintf_06d (n : Z) : string :=
  let sign := if n <? 0 then "-" else "" in
  let digits := pretty (Z.abs n) in
  sign
  +:+ string_of_list_ascii
        (replicate (6 - String.length sign - String.length digits) "0"%char)
  +:+ digits.

(** [GenerateResetCode()], with [n] the number [rand.Intn(1000000)] draws. *)
Definition GenerateResetCode (n : Z) : string := Sprintf_06d n.

Definition SetResetCode (email code : string) : M (option error) :=
  err ← NewCache;
  match err with
  | Some _ => mret err
  | None => Cache.Set_ ("reset_code:" +:+ email) code (15 * Minute)
  end.

(** The code is returned through a pointer: [None] is the nil pointer. *)
Definition GetResetCode (email : string) : M (option string * option error) :=
  err ← NewCache;
  match err with
  | Some _ => mret (None, err)
  | None =>
      '(code, err) ← Cache.Get ("reset_code:" +:+ email);
      match err with
      | Some _ => mret (None, err)
      | None =>
          if decide (code = "") then mret (None, None)   (* the code does not exist *)
          else mret (Some code, None)
      end
  end.

Definition DeleteResetCode (email : string) : M (option error) :=
  err ← NewCache;
  match err with
  | Some _ => mret err
  | None => Cache.Delete ("reset_code:" +:+ email)
  end.

(** The check that opens [ChangePassword] (authHandler.go), true when the
    request is answered 401 "Invalid reset code":
<<
    storedCode, err := utils.GetResetCode(ctx, data.Email)
    if err != nil || storedCode == nil || *storedCode != data.Code {
>> *)
Definition ChangePassword_code_refused (email code : string) : M bool :=
  '(storedCode, err) ← GetResetCode email;
  mret (negb (is_nil err)
        || match storedCode with
           | None => true
           | Some stored => bool_decide (stored ≠ code)
           end).

(** ** package utils: tokens *)

Record TokenClaims := {
  UserID : string;
  Role : string;
  Expiry : Z;                          (* an instant, in nanoseconds *)
}.

Definition TokenClaims_zero : TokenClaims :=
  {| UserID := ""; Role := ""; Expiry := 0 |}.

(** A request context is the map of the values stored under the keys of
    type [contextKey]. *)
Definition userIDKey : string := "userID".
Definition userRoleKey : string := "userRole".

Section Tokens.
(** [os.Getenv("SYMMETRIC_KEY")], the decryption of paseto (the claims it
    leaves in the struct it is given, and its error) and [time.Now()]. *)
Variable SYMMETRIC_KEY : string.
Variable Decrypt : string → string → TokenClaims → TokenClaims * option error.
Variable Now : Z.

(** [log.Fatalf] ends the process: the result is [None]. *)
Definition GetSymmetricKey : M (option string) :=
  let key := SYMMETRIC_KEY in
  if negb (String.length key =? 32)%nat
  then
    _ ← log_Printf "SYMMETRIC_KEY must be 32 bytes long. Current length: %d";
    mret None
  else mret (Some key).

Definition parseToken (tokenString : string)
  : M (option (option TokenClaims * option error)) :=
  key ← GetSymmetricKey;
  match key with
  | None => mret None
  | Some symmetricKey =>
      let '(claims, err) := Decrypt tokenString symmetricKey TokenClaims_zero in
      match err with
      | Some _ =>
          _ ← log_Printf "Token decryption failed: %v";
          mret (Some (None, Some (Errorf "failed to decrypt token: %w" err)))
      | None => mret (Some (Some claims, None))
      end
  end.

(** [for _, role := range requiredRoles { if claims.Role == role { return
    claims, nil } }]: did the loop return? *)
Fixpoint role_matches (claims : TokenClaims) (requiredRoles : list string) : bool :=
  match requiredRoles with
  | [] => false
  | role :: requiredRoles' =>
      if decide (Role claims = role) then true
      else role_matches claims requiredRoles'
  end.

(** [None] again is the end of the process; a nil [claims] with a nil error,
    which [parseToken] never returns, would be a nil dereference. *)
Definition ValidateToken (tokenString : string) (requiredRoles : list string)
  : M (option (option TokenClaims * option error)) :=
  r ← parseToken tokenString;
  match r with
  | None => mret None
  | Some (claims, err) =>
      match err with
      | Some _ =>
          _ ← log_Printf "Token parsing failed: %v";
          mret (Some (None, Some (Errorf "failed to parse token: %w" err)))
      | None =>
          match claims with
          | None => mret None
          | Some claims =>
              if Expiry claims <? Now            (* time.Now().After(claims.Expiry) *)
              then
                _ ← log_Printf "Token expired: %v";
                mret (Some (None, Some (New "token expired")))
              else if (length requiredRoles =? 0)%nat
              then mret (Some (Some claims, None))
              else if role_matches claims requiredRoles
              then mret (Some (Some claims, None))
              else
                _ ← log_Printf
                      "Insufficient permissions. Required roles: %v, found role: %v";
                mret (Some (None, Some (New "insufficient permissions")))
          end
      end
  end.

(** The handler of [TokenAuthMiddleware], run on a request whose query
    parameter accessToken is [token] (empty when there is none): what it
    does with the request, and the context of the request afterwards. *)
Definition TokenAuthMiddleware (token : string) (ctx : gmap string string)
  : M (option (verdict * gmap string string)) :=
  if decide (token = "")
  then mret (Some (AbortJSON StatusUnauthorized "Missing access token", ctx))
  else
    r ← ValidateToken token ["Admin"; "Doctor"; "Receptionist"; "Patient"];
    match r with
    | None => mret None
    | Some (claims, err) =>
        match err with
        | Some _ => mret (Some (AbortJSON StatusUnauthorized "Invalid token", ctx))
        | None =>
            match claims with
            | None => mret None
            | Some claims =>
                let ctx := <[userIDKey := UserID claims]> ctx in
                let ctx := <[userRoleKey := Role claims]> ctx in
                mret (Some (Next, ctx))
            end
        end
    end.

End Tokens.

Definition ExtractUserIDFromContext (ctx : gmap string string) : string * option error :=
  match ctx !! userIDKey with
  | Some userID => (userID, None)
  | None => ("", Some (New "user ID not found in context"))
  end.

Definition ExtractUserRoleFromContext (ctx : gmap string string) : string * option error :=
  match ctx !! userRoleKey with
  | Some userRole => (userRole, None)
  | None => ("", Some (New "user role not found in context"))
  end.

Definition StatusForbidden : Z := 403.

(** The handler of [RoleAuthMiddleware(requiredRole)] on a request with
    context [ctx]. *)
Definition RoleAuthMiddleware (requiredRole : string) (ctx : gmap string string) : verdict :=
  let '(role, err) := ExtractUserRoleFromContext ctx in
  match err with
  | Some _ => AbortJSON StatusUnauthorized "User role not found in context"
  | None =>
      if decide (role ≠ requiredRole)
      then AbortJSON StatusForbidden "Forbidden: insufficient privileges"
      else Next
  end.

(** A stand-in for paseto in the examples: one token decrypts, to an
    administrator whose token expires at instant 100. *)
Definition toy_Decrypt (token key : string) (claims : TokenClaims)
  : TokenClaims * option error :=
  if decide (token = "v2.local.admin")
  then ({| UserID := "7"; Role := "Admin"; Expiry := 100 |}, None)
  else (claims, Some (New "invalid token format")).

Definition toy_key : string := "0123456789abcdef0123456789abcdef".

(** The number a text of decimal digits denotes. *)
Definition decimal_value (s : string) : N :=
  fold_left (λ acc c, 10 * acc + (N_of_ascii c - 48))%N (list_ascii_of_string s) 0%N.

(** A pattern without the characters that are special to SCAN ... MATCH. *)
Definition literal (pattern : string) : bool :=
  forallb (λ c, negb (bool_decide (c ∈ ["*"; "?"; "\"; "["]%char)))
    (list_ascii_of_string pattern).

(** ** Rows after a write *)

(** The rows of a table after [Save]. *)
Definition saved {R} (T : Table R) (row : R) (old : list R) : list R :=
  if existsb (same_key T row) old
  then (λ r, if same_key T row r then row else r) <$> old
  else (old ++ [row])%list.

(** ** Rows and codecs for the examples of the read path *)

(** Ann with a new phone number. *)
Definition patient_ann_moved : Patient := {|
  ID := "DP-000001"; FirstName := "Ann"; MiddleName := "Lee"; LastName := "Roy";
  Sex := "Female"; DateOfBirth := "1990-01-01"; Insured := false; Cash := true;
  InsuranceCompany := ""; Scheme := ""; CoverLimit := 0%float; Occupation := "";
  PlaceOfWork := ""; Phone := "0799"; Email := ""; Address := "" |}.

(** A stand-in for [encoding/json] in the examples: the text of a patient is
    the identifier between braces, and only the text of Ann decodes. *)
Definition toy_Marshal (p : Patient) : option string :=
  Some ("{" +:+ ID p +:+ "}").

Definition toy_Unmarshal (s : string) : option Patient :=
  if decide (s = "{DP-000001}") then Some patient_ann else None.

(** A stand-in for the binding of a request body: one body binds, to Ann
    with the new phone number and no identifier. *)
Definition toy_ShouldBindJSON (requestBody : string) : Patient * option error :=
  if decide (requestBody = "{phone:0799}")
  then (Patient_with_ID "" patient_ann_moved, None)
  else (Patient_zero, Some ErrJSON).


(** ** Doctors *)

(** The pair by which [Create] tells whether a doctor is there already. *)
Definition doctor_name (d : Doctor) : string * string :=
  (Doctor_FirstName d, Doctor_LastName d).

(** ** Patients *)

(** The four columns by which [Create] tells whether a patient is there
    already, as a row stores them and as [Create] searches for them (with
    "N/A" for an empty middle name). *)
Definition natural_key (p : Patient) : string * string * string * string :=
  (FirstName p, MiddleName p, LastName p, DateOfBirth p).

Definition searched_key (p : Patient) : string * string * string * string :=
  (FirstName p, PatientRepository.middleName_of p, LastName p, DateOfBirth p).

(** A patient without a middle name, as the handler decodes it: no
    identifier yet. *)
Definition patient_joe : Patient := {|
  ID := ""; FirstName := "Joe"; MiddleName := ""; LastName := "Kamau";
  Sex := "Male"; DateOfBirth := "1985-05-05"; Insured := false; Cash := true;
  InsuranceCompany := ""; Scheme := ""; CoverLimit := 0%float; Occupation := "";
  PlaceOfWork := ""; Phone := "0722"; Email := ""; Address := "" |}.

(** The same person with a middle name. *)
Definition patient_joe_m : Patient := {|
  ID := ""; FirstName := "Joe"; MiddleName := "M"; LastName := "Kamau";
  Sex := "Male"; DateOfBirth := "1985-05-05"; Insured := false; Cash := true;
  InsuranceCompany := ""; Scheme := ""; CoverLimit := 0%float; Occupation := "";
  PlaceOfWork := ""; Phone := "0722"; Email := ""; Address := "" |}.

(** Redis reachable for the SET NX of the lock, then failing on the next
    command: the world of the clinic with that schedule. *)
Definition clinic_world_flaky : World := set_redis_faults [false; true] clinic_world.


(** PostgreSQL failing on its eighth statement: in [DeletePatientAndRelated]
    the DELETE of the examinations, after the contacts were deleted. *)
Definition clinic_world_failing_delete : World :=
  set_db_faults [false; false; false; false; false; false; false; true] clinic_world.

(** * Properties *)

(** Unfolding one layer of the monad. *)
Ltac run :=
  cbv [mbind mret M_bind M_ret gets modify emit defer check check_found
       result world_of events Sleep log_Printf];
  cbn [fst snd].

(** ** Lock release *)

Lemma releaseLockScript_owner (key value : string) (r : gmap string string) :
  r !! key = Some value →
  releaseLockScript key value r = (1, delete key r).
Proof. intros H. unfold releaseLockScript. by rewrite decide_True. Qed.

Lemma releaseLockScript_not_owner (key value : string) (r : gmap string string) :
  r !! key ≠ Some value →
  releaseLockScript key value r = (0, r).
Proof. intros H. unfold releaseLockScript. by rewrite decide_False. Qed.

(** Whatever happens to the call, an entry that is not the pair
    (key, token) presented survives a release. *)
Lemma ReleaseLock_keeps_others (w : World) (key token k v : string) :
  redis w !! k = Some v →
  ¬ (k = key ∧ v = token) →
  redis (world_of (ReleaseLock key token w)) !! k = Some v.
Proof.
  intros Hk Hne. unfold ReleaseLock, EVAL_releaseLockScript, redis_call. run.
  destruct (RedisClient w); cbn; [|done].
  destruct (next_fault (redis_faults w)); cbn; [done|].
  unfold releaseLockScript. case_decide; cbn; [|done].
  destruct (decide (k = key)) as [->|]; [|by rewrite lookup_delete_ne].
  exfalso. apply Hne. split; congruence.
Qed.

(** C4: [ReleaseLock] compares and deletes in one server step.  With the
    client initialised and the call reaching the server: when the stored
    token is the presented one the entry is deleted and the result is nil;
    when it is another token, or the key is absent, the result is the
    not-owner error and the keyspace is unchanged.  In every case, also
    when the call fails, an entry held under another token stays. *)
Theorem ReleaseLock_compare_and_delete (w : World) (key token : string) :
  RedisClient w = true →
  next_fault (redis_faults w) = false →
  (redis w !! key = Some token →
     result (ReleaseLock key token w) = None
     ∧ redis (world_of (ReleaseLock key token w)) = delete key (redis w))
  ∧ (redis w !! key ≠ Some token →
     result (ReleaseLock key token w)
       = Some (New "lock release failed: not the lock owner")
     ∧ redis (world_of (ReleaseLock key token w)) = redis w)
  ∧ (∀ k v, redis w !! k = Some v → ¬ (k = key ∧ v = token) →
     redis (world_of (ReleaseLock key token w)) !! k = Some v).
Proof.
  intros Hc Hf. split; [|split].
  - intros Hown. unfold ReleaseLock, EVAL_releaseLockScript, redis_call. run.
    rewrite Hc. cbn. rewrite Hf. cbn. by rewrite (releaseLockScript_owner _ _ _ Hown).
  - intros Hown. unfold ReleaseLock, EVAL_releaseLockScript, redis_call. run.
    rewrite Hc. cbn. rewrite Hf. cbn. by rewrite (releaseLockScript_not_owner _ _ _ Hown).
  - intros k v. apply ReleaseLock_keeps_others.
Qed.

Lemma ReleaseLock_compare_and_delete_witness :
  result (ReleaseLock "patient_lock:DP-000001" "t1"
            (set_redis (insert "patient_lock:DP-000001" "t1") empty_world)) = None
  ∧ result (ReleaseLock "patient_lock:DP-000001" "t2"
              (set_redis (insert "patient_lock:DP-000001" "t1") empty_world))
    = Some (New "lock release failed: not the lock owner").
Proof.
  pose proof (ReleaseLock_compare_and_delete
                (set_redis (insert "patient_lock:DP-000001" "t1") empty_world)
                "patient_lock:DP-000001" "t1" eq_refl eq_refl) as (H1 & _ & _).
  pose proof (ReleaseLock_compare_and_delete
                (set_redis (insert "patient_lock:DP-000001" "t1") empty_world)
                "patient_lock:DP-000001" "t2" eq_refl eq_refl) as (_ & H2 & _).
  split.
  - apply H1. vm_compute. reflexivity.
  - apply H2. vm_compute. discriminate.
Defined.

(** ** The monad *)

Lemma bind_run {A B} (m : M A) (k : A → M B) (w : World) :
  (m ≫= k) w =
  (result (k (result (m w)) (world_of (m w))),
   world_of (k (result (m w)) (world_of (m w))),
   (events (m w) ++ events (k (result (m w)) (world_of (m w))))%list).
Proof.
  unfold mbind, M_bind, result, world_of, events.
  destruct (m w) as [[a w1] e1]. cbn. by destruct (k a w1) as [[b w2] e2].
Qed.

Lemma sql_of_app (e1 e2 : list event) :
  sql_of (e1 ++ e2)%list = (sql_of e1 ++ sql_of e2)%list.
Proof. apply omap_app. Qed.

Lemma invalidations_app (e1 e2 : list event) :
  invalidations (e1 ++ e2)%list = (invalidations e1 ++ invalidations e2)%list.
Proof. apply List.filter_app. Qed.

Lemma same_db_refl w : same_db w w.
Proof. by repeat split. Qed.

Lemma same_db_trans w1 w2 w3 : same_db w1 w2 → same_db w2 w3 → same_db w1 w3.
Proof. unfold same_db. intros (?&?&?) (?&?&?). repeat split; congruence. Qed.

Lemma shrinks_refl w : shrinks w w.
Proof. by intros k. Qed.

Lemma shrinks_trans w1 w2 w3 : shrinks w1 w2 → shrinks w2 w3 → shrinks w1 w3.
Proof. intros H1 H2 k Hk. by apply H2, H1. Qed.


(** ** Equations of the Redis operations *)

Lemma NewLock_eq (k v : string) (ttl : Duration) (w : World) :
  NewLock k v ttl w =
  if RedisClient w then
    if next_fault (redis_faults w)
    then ((false, Some ErrIO), redis_tick w, [EvSetNX k v ttl])
    else match redis w !! k with
         | Some _ => ((false, None), redis_tick w, [EvSetNX k v ttl])
         | None =>
             ((true, None), set_redis (insert k v) (redis_tick w), [EvSetNX k v ttl])
         end
  else ((false, Some (New "Redis client is not initialized")), w, []).
Proof.
  unfold NewLock, SetNX, redis_call. run.
  destruct (RedisClient w); cbn; [|done].
  destruct (next_fault (redis_faults w)); cbn; [done|].
  by destruct (redis w !! k).
Qed.

Lemma ReleaseLock_eq (k v : string) (w : World) :
  ReleaseLock k v w =
  if RedisClient w then
    if next_fault (redis_faults w)
    then (Some (Errorf "failed to release lock: %w" (Some ErrIO)), redis_tick w,
          [EvEval k v])
    else if decide (redis w !! k = Some v)
         then (None, set_redis (delete k) (redis_tick w), [EvEval k v])
         else (Some (New "lock release failed: not the lock owner"),
               set_redis (λ _, redis w) (redis_tick w), [EvEval k v])
  else (Some (New "Redis client is not initialized"), w, []).
Proof.
  unfold ReleaseLock, EVAL_releaseLockScript, redis_call, releaseLockScript. run.
  destruct (RedisClient w); cbn; [|done].
  destruct (next_fault (redis_faults w)); cbn; [done|].
  by case_decide.
Qed.

Lemma Cache_Delete_eq (k : string) (w : World) :
  Cache.Delete k w =
  if RedisClient w then
    if next_fault (redis_faults w)
    then (Some ErrIO, redis_tick w, [EvDel k])
    else (None, set_redis (delete k) (redis_tick w), [EvDel k])
  else (Some (New "Redis client is not initialized"), w, []).
Proof.
  unfold Cache.Delete, DEL, redis_call. run.
  destruct (RedisClient w); cbn; [|done].
  by destruct (next_fault (redis_faults w)).
Qed.

Lemma Cache_Get_eq (k : string) (w : World) :
  Cache.Get k w =
  if RedisClient w then
    if next_fault (redis_faults w)
    then (("", Some ErrIO), redis_tick w, [EvGet k])
    else match redis w !! k with
         | Some v => ((v, None), redis_tick w, [EvGet k])
         | None => (("", None), redis_tick w, [EvGet k])
         end
  else (("", Some (New "Redis client is not initialized")), w, []).
Proof.
  unfold Cache.Get, GET, redis_call. run.
  destruct (RedisClient w); cbn; [|done].
  destruct (next_fault (redis_faults w)); cbn; [done|].
  by destruct (redis w !! k).
Qed.

Lemma Cache_Set_eq (k v : string) (d : Duration) (w : World) :
  Cache.Set_ k v d w =
  if RedisClient w then
    if next_fault (redis_faults w)
    then (Some ErrIO, redis_tick w, [EvSet k d])
    else (None, set_redis (insert k v) (redis_tick w), [EvSet k d])
  else (Some (New "Redis client is not initialized"), w, []).
Proof.
  unfold Cache.Set_, SET, redis_call. run.
  destruct (RedisClient w); cbn; [|done].
  by destruct (next_fault (redis_faults w)).
Qed.

(** ** Lock acquisition *)

Section Acquire.
Variables (k tok : string) (w : World).

Let S_ := EvSetNX k tok (10 * Second).
Let Z_ := EvSleep (2 * Second).

Lemma acquire_spec :
  let o := acquire k tok w in
  same_db w (world_of o)
  ∧ RedisClient (world_of o) = RedisClient w
  ∧ ((result o).1 = true →
       (result o).2 = None ∧ redis w !! k = None ∧ RedisClient w = true
       ∧ redis (world_of o) = <[k := tok]> (redis w))
  ∧ ((result o).1 = false → redis (world_of o) = redis w)
  ∧ (RedisClient w = true →
       (events o = [S_] ∨ events o = [S_; Z_; S_] ∨ events o = [S_; Z_; S_; Z_; S_])
       ∧ ((result o).1 = false → events o = [S_; Z_; S_; Z_; S_]))
  ∧ (RedisClient w = false → events o = [Z_; Z_] ∧ (result o).1 = false)
  ∧ sql_of (events o) = [] ∧ invalidations (events o) = [].
Proof.
  subst S_ Z_. unfold acquire. change (Z.to_nat 3) with 3%nat.
  cbn [lock_loop].
  change (0 <? 3 - 1) with true. change (0 + 1 <? 3 - 1) with true.
  change (0 + 1 + 1 <? 3 - 1) with false.
  run. rewrite !NewLock_eq.
  destruct (RedisClient w) eqn:Hc; cbn.
  2:{ rewrite !NewLock_eq, !Hc. cbn. rewrite !NewLock_eq, !Hc. cbn.
      repeat split; done. }
  destruct (redis w !! k) eqn:Hk;
    destruct (next_fault (redis_faults w)); cbn;
    rewrite ?NewLock_eq; cbn; rewrite ?Hc, ?Hk; cbn;
    try destruct (next_fault (tail (redis_faults w))); cbn;
    rewrite ?NewLock_eq; cbn; rewrite ?Hc, ?Hk; cbn;
    try destruct (next_fault (tail (tail (redis_faults w)))); cbn;
    repeat split; try done; auto.
Qed.
End Acquire.

(** ** Equations of the SQL statements *)

Lemma db_call_eq (h : handle) (w : World) :
  db_call h w =
  if refused h w then (Some ErrTxAborted, w, [])
  else if next_fault (db_faults w)
       then (Some ErrIO, mark_aborted h (db_tick w), [])
       else (None, db_tick w, []).
Proof.
  unfold db_call. run. destruct (refused h w); [done|].
  by destruct (next_fault (db_faults w)).
Qed.

Section StatementEquations.
Context {R : Type} (T : Table R) (h : handle).

Lemma db_First_eq (dest : R) (cond : R → Prop) `{∀ r, Decision (cond r)} w :
  db_First T h dest cond w =
  if refused h w
  then ((dest, Some ErrTxAborted), w, [EvSQL (Select (table_name T))])
  else if next_fault (db_faults w)
  then ((dest, Some ErrIO), mark_aborted h (db_tick w),
        [EvSQL (Select (table_name T))])
  else match head (filter cond (rows T (DB w))) with
       | Some r => ((r, None), db_tick w, [EvSQL (Select (table_name T))])
       | None => ((dest, Some ErrRecordNotFound), db_tick w,
                  [EvSQL (Select (table_name T))])
       end.
Proof.
  unfold db_First. run. rewrite db_call_eq.
  destruct (refused h w); [done|].
  destruct (next_fault (db_faults w)); [done|]. cbn.
  by destruct (head _).
Qed.

Lemma db_Find_eq (cond : R → Prop) `{∀ r, Decision (cond r)} w :
  db_Find T h cond w =
  if refused h w
  then (([], Some ErrTxAborted), w, [EvSQL (Select (table_name T))])
  else if next_fault (db_faults w)
  then (([], Some ErrIO), mark_aborted h (db_tick w),
        [EvSQL (Select (table_name T))])
  else ((filter cond (rows T (DB w)), None), db_tick w,
        [EvSQL (Select (table_name T))]).
Proof.
  unfold db_Find. run. rewrite db_call_eq.
  destruct (refused h w); [done|].
  by destruct (next_fault (db_faults w)).
Qed.

Lemma db_Create_eq (row : R) w :
  db_Create T h row w =
  if refused h w
  then (Some ErrTxAborted, w, [EvSQL (Insert (table_name T))])
  else if next_fault (db_faults w)
  then (Some ErrIO, mark_aborted h (db_tick w), [EvSQL (Insert (table_name T))])
  else if existsb (same_key T row) (rows T (DB w))
  then (Some ErrUniqueViolation, mark_aborted h (db_tick w),
        [EvSQL (Insert (table_name T))])
  else (None,
        set_DB (with_rows T (rows T (DB w) ++ [row])%list (DB w)) (db_tick w),
        [EvSQL (Insert (table_name T))]).
Proof.
  unfold db_Create, insert_row, db_reject. run. rewrite db_call_eq.
  destruct (refused h w); [done|].
  destruct (next_fault (db_faults w)); [done|]. cbn.
  by destruct (existsb _ _).
Qed.

Lemma db_Save_eq (row : R) w :
  db_Save T h row w =
  if refused h w
  then (Some ErrTxAborted, w, [EvSQL (Upsert (table_name T))])
  else if next_fault (db_faults w)
  then (Some ErrIO, mark_aborted h (db_tick w), [EvSQL (Upsert (table_name T))])
  else (None,
        set_DB (with_rows T
                  (if existsb (same_key T row) (rows T (DB w))
                   then (λ r, if same_key T row r then row else r) <$> rows T (DB w)
                   else (rows T (DB w) ++ [row])%list)
                  (DB w)) (db_tick w),
        [EvSQL (Upsert (table_name T))]).
Proof.
  unfold db_Save. run. rewrite db_call_eq.
  destruct (refused h w); [done|].
  by destruct (next_fault (db_faults w)).
Qed.

Lemma db_Delete_eq (cond : R → Prop) `{∀ r, Decision (cond r)} w :
  db_Delete T h cond w =
  if refused h w
  then (Some ErrTxAborted, w, [EvSQL (DeleteFrom (table_name T))])
  else if next_fault (db_faults w)
  then (Some ErrIO, mark_aborted h (db_tick w),
        [EvSQL (DeleteFrom (table_name T))])
  else (None,
        set_DB (with_rows T (filter (λ r, ¬ cond r) (rows T (DB w))) (DB w))
          (db_tick w),
        [EvSQL (DeleteFrom (table_name T))]).
Proof.
  unfold db_Delete. run. rewrite db_call_eq.
  destruct (refused h w); [done|].
  by destruct (next_fault (db_faults w)).
Qed.

End StatementEquations.

Lemma db_Raw_next_id_eq (h : handle) (prefix name : string) (w : World) :
  db_Raw_next_id h prefix name w =
  if refused h w then (("", Some ErrTxAborted), w, [EvSQL (Nextval name)])
  else if next_fault (db_faults w)
  then (("", Some ErrIO), mark_aborted h (db_tick w), [EvSQL (Nextval name)])
  else match sequences w !! name with
       | None => (("", Some ErrSequence), mark_aborted h (db_tick w),
                  [EvSQL (Nextval name)])
       | Some s =>
           if seq_max <? (nextval s).1
           then (("", Some ErrSequence), mark_aborted h (db_tick w),
                 [EvSQL (Nextval name)])
           else ((format_id prefix (nextval s).1, None),
                 set_sequences (<[name := (nextval s).2]> (sequences w)) (db_tick w),
                 [EvSQL (Nextval name)])
       end.
Proof.
  unfold db_Raw_next_id, db_nextval, db_reject. run. rewrite db_call_eq.
  destruct (refused h w); [done|].
  destruct (next_fault (db_faults w)); [done|]. cbn.
  destruct (sequences w !! name); [|done].
  by destruct (seq_max <? _).
Qed.

Lemma db_Exec_setval_back_eq (h : handle) (name : string) (w : World) :
  db_Exec_setval_back h name w =
  if refused h w then (Some ErrTxAborted, w, [EvSQL (Setval name)])
  else if next_fault (db_faults w)
  then (Some ErrIO, mark_aborted h (db_tick w), [EvSQL (Setval name)])
  else match sequences w !! name ≫= setval_back with
       | None => (Some ErrSequence, mark_aborted h (db_tick w), [EvSQL (Setval name)])
       | Some s' =>
           (None, set_sequences (<[name := s']> (sequences w)) (db_tick w),
            [EvSQL (Setval name)])
       end.
Proof.
  unfold db_Exec_setval_back, db_reject. run. rewrite db_call_eq.
  destruct (refused h w); [done|].
  destruct (next_fault (db_faults w)); [done|]. cbn.
  destruct (sequences w !! name) as [s|]; cbn; [|done].
  by destruct (setval_back s).
Qed.

Lemma Transaction_eq (fc : M (option error)) (w : World) :
  Transaction fc w =
  if next_fault (db_faults w) then (Some ErrIO, db_tick w, [EvSQL Begin])
  else
    let o := fc (set_tx_aborted false (db_tick w)) in
    match result o with
    | Some e =>
        (Some e, set_tx_aborted false (set_DB (DB w) (world_of o)),
         EvSQL Begin :: (events o ++ [EvSQL Rollback])%list)
    | None =>
        if tx_aborted (world_of o)
        then (Some ErrTxAborted, set_tx_aborted false (set_DB (DB w) (world_of o)),
              EvSQL Begin :: (events o ++ [EvSQL Commit])%list)
        else if next_fault (db_faults (world_of o))
        then (Some ErrIO,
              set_tx_aborted false (set_DB (DB w) (mark_aborted Tx (db_tick (world_of o)))),
              EvSQL Begin :: (events o ++ [EvSQL Commit])%list)
        else (None, set_tx_aborted false (db_tick (world_of o)),
              EvSQL Begin :: (events o ++ [EvSQL Commit])%list)
    end.
Proof.
  unfold Transaction. run. rewrite db_call_eq. cbn.
  destruct (next_fault (db_faults w)); [done|]. cbn.
  destruct (fc _) as [[[e|] w1] e1]; cbn; [done|].
  rewrite db_call_eq. cbn.
  destruct (tx_aborted w1); cbn; [done|].
  by destruct (next_fault (db_faults w1)).
Qed.

(** ** The deferred release *)

Lemma release_eq (k tok : string) (w : World) :
  release k tok w =
  if RedisClient w then
    if next_fault (redis_faults w)
    then (tt, redis_tick w, [EvEval k tok; EvLog "Failed to release lock: %v"])
    else if decide (redis w !! k = Some tok)
         then (tt, set_redis (delete k) (redis_tick w), [EvEval k tok])
         else (tt, set_redis (λ _, redis w) (redis_tick w),
               [EvEval k tok; EvLog "Failed to release lock: %v"])
  else (tt, w, [EvLog "Failed to release lock: %v"]).
Proof.
  unfold release. run. rewrite ReleaseLock_eq.
  destruct (RedisClient w); cbn; [|done].
  destruct (next_fault (redis_faults w)); cbn; [done|].
  by case_decide.
Qed.

(** The release never touches PostgreSQL, sends no SQL and invalidates no
    cache entry. *)
Lemma release_spec (k tok : string) (w : World) :
  let o := release k tok w in
  same_db w (world_of o)
  ∧ RedisClient (world_of o) = RedisClient w
  ∧ sql_of (events o) = [] ∧ invalidations (events o) = []
  ∧ shrinks w (world_of o)
  ∧ (∀ k', k' ≠ k → redis (world_of o) !! k' = redis w !! k').
Proof.
  cbv zeta. rewrite release_eq. unfold same_db, shrinks.
  destruct (RedisClient w) eqn:Hc; [|by repeat split; auto].
  destruct (next_fault (redis_faults w)); [by repeat split; auto|].
  case_decide; cbn; repeat split; auto.
  - intros k' Hk'. destruct (decide (k' = k)) as [->|].
    + apply lookup_delete_eq.
    + by rewrite lookup_delete_ne.
  - intros k' Hk'. by rewrite lookup_delete_ne.
Qed.

(** Splitting the run of the first step of an operation, with what is
    known about it. *)
Tactic Notation "first_step" constr(spec) "as" ident(H) ident(r) ident(w') ident(e) :=
  pose proof spec as H; cbv zeta in H;
  match type of H with
  | context [world_of ?o] => destruct o as [[r w'] e]
  end;
  unfold result, world_of, events in H;
  cbn [fst snd] in H.

(** Closing a conjunction of frame facts. *)
Ltac frame :=
  unfold same_db in *; cbn [fst snd] in *;
  repeat split; try done; try (intuition congruence).

(** ** Appointment status *)

Lemma invalid_status_true (a : Appointment) :
  Status a ≠ "scheduled" → Status a ≠ "fulfilled" → Status a ≠ "cancelled" →
  AppointmentRepository.invalid_status a = true.
Proof.
  intros H1 H2 H3. unfold AppointmentRepository.invalid_status.
  by rewrite !bool_decide_eq_true_2.
Qed.

(** C10: an appointment whose status is none of "scheduled", "fulfilled",
    "cancelled" is never written: Create and Update send no SQL statement and
    leave PostgreSQL as it was; once the lock is acquired the error returned
    is the invalid-status error. *)
Theorem Appointment_invalid_status_rejected (w : World) (tok : string) (a : Appointment) :
  Status a ≠ "scheduled" → Status a ≠ "fulfilled" → Status a ≠ "cancelled" →
  let oc := AppointmentRepository.Create tok a w in
  let ou := AppointmentRepository.Update tok a w in
  (sql_of (events oc) = [] ∧ same_db w (world_of oc)
   ∧ sql_of (events ou) = [] ∧ same_db w (world_of ou))
  ∧ ((result (acquire (AppointmentRepository.lockKey_of a) tok w)).1 = true →
     (result oc).2 = Some (New "invalid status value")
     ∧ (result ou).2 = Some (New "invalid status value")).
Proof.
  intros H1 H2 H3. cbv zeta.
  unfold AppointmentRepository.Create, AppointmentRepository.Update.
  rewrite (invalid_status_true a H1 H2 H3). run.
  first_step (acquire_spec (AppointmentRepository.lockKey_of a) tok w) as Ha r w0 e0.
  destruct Ha as (Hdb & Hc & Hok & Hko & _ & _ & Hsql & _).
  destruct r as [locked err]; destruct locked; cbn.
  - first_step (release_spec (AppointmentRepository.lockKey_of a) tok w0) as Hr u w1 e1.
    destruct Hr as (Hdb' & _ & Hsql' & _). cbn.
    rewrite !sql_of_app, Hsql, Hsql'. cbn.
    frame.
  - rewrite !app_nil_r. frame.
Qed.

Lemma Appointment_invalid_status_rejected_witness :
  (result (AppointmentRepository.Create "t1" appointment_pending empty_world)).2
  = Some (New "invalid status value").
Proof.
  pose proof (Appointment_invalid_status_rejected empty_world "t1" appointment_pending
                ltac:(done) ltac:(done) ltac:(done)) as [_ H].
  apply H. vm_compute. reflexivity.
Defined.

(** ** The operations of package cache only delete *)

Lemma DEL_eq (k : string) (w : World) :
  DEL k w =
  if next_fault (redis_faults w)
  then (Some ErrIO, redis_tick w, [EvDel k])
  else (None, set_redis (delete k) (redis_tick w), [EvDel k]).
Proof. unfold DEL, redis_call. run. by destruct (next_fault (redis_faults w)). Qed.

Lemma cache_events_app (e1 e2 : list event) :
  cache_events e1 → cache_events e2 → cache_events (e1 ++ e2)%list.
Proof. unfold cache_events. rewrite Forall_app. auto. Qed.

Lemma cache_events_sql (evs : list event) : cache_events evs → sql_of evs = [].
Proof.
  induction 1 as [|e evs He _ IH]; [done|].
  destruct e; try done.
Qed.


Lemma shrinks_delete (k : string) (w w' : World) :
  redis w' = delete k (redis w) → shrinks w w'.
Proof.
  intros E k' Hk'. rewrite E. destruct (decide (k' = k)) as [->|].
  - apply lookup_delete_eq.
  - by rewrite lookup_delete_ne.
Qed.

Lemma shrinks_same (w w' : World) : redis w' = redis w → shrinks w w'.
Proof. intros E k Hk. by rewrite E. Qed.

Lemma cache_op_Delete (k : string) : cache_op (Cache.Delete k).
Proof.
  intros w. rewrite Cache_Delete_eq. unfold cache_events, cache_error.
  destruct (RedisClient w) eqn:Hc; [destruct (next_fault (redis_faults w))|];
    cbn; (split; [done|]); (split; [done|]).
  - split; [by apply shrinks_same|]. split; [by repeat constructor|].
    intros e [= <-]. auto.
  - split; [by apply shrinks_delete with k|]. split; [by repeat constructor|done].
  - split; [by apply shrinks_same|]. split; [by constructor|].
    intros e [= <-]. auto.
Qed.

Lemma Cache_Delete_gone (k : string) (w : World) :
  result (Cache.Delete k w) = None →
  redis (world_of (Cache.Delete k w)) !! k = None.
Proof.
  rewrite Cache_Delete_eq.
  destruct (RedisClient w); [destruct (next_fault (redis_faults w))|]; cbn; try done.
  intros _. apply lookup_delete_eq.
Qed.

Lemma DeleteAll_loop_spec (keys : list string) (w : World) :
  let o := Cache.DeleteAll_loop keys w in
  same_db w (world_of o)
  ∧ RedisClient (world_of o) = RedisClient w
  ∧ shrinks w (world_of o)
  ∧ cache_events (events o)
  ∧ (∀ e, result o = Some e → e = ErrIO)
  ∧ (result o = None → ∀ k, k ∈ keys → redis (world_of o) !! k = None).
Proof.
  cbv zeta. revert w. induction keys as [|k keys IH]; intros w.
  - cbn. split; [done|]. split; [done|]. split; [apply shrinks_refl|].
    split; [by apply Forall_nil|]. split; [done|].
    intros _ k Hk. by apply elem_of_nil in Hk.
  - cbn [Cache.DeleteAll_loop]. rewrite bind_run, DEL_eq.
    destruct (next_fault (redis_faults w)); cbn.
    + split; [done|]. split; [done|]. split; [by apply shrinks_same|].
      split; [by repeat constructor|]. split; [congruence|done].
    + specialize (IH (set_redis (delete k) (redis_tick w))).
      destruct IH as (Hdb & Hc & Hs & Hev & Herr & Hgone).
      split; [exact Hdb|]. split; [exact Hc|].
      split.
      { intros k' Hk'. apply Hs. cbn. destruct (decide (k' = k)) as [->|].
        - apply lookup_delete_eq.
        - by rewrite lookup_delete_ne. }
      split; [by constructor|]. split; [exact Herr|].
      intros Hok k' [->|Hin]%elem_of_cons; [|by apply Hgone].
      apply Hs. cbn. apply lookup_delete_eq.
Qed.

Lemma elem_of_scan_keys (p k : string) (r : gmap string string) :
  k ∈ scan_keys p r ↔ glob_match p k = true ∧ is_Some (r !! k).
Proof.
  unfold scan_keys. rewrite list_elem_of_filter, list_elem_of_fmap.
  split.
  - intros [Hg [[k' v] [-> Hin]]]. split; [done|].
    apply elem_of_map_to_list in Hin. by exists v.
  - intros [Hg [v Hv]]. split; [done|].
    exists (k, v). split; [done|]. by apply elem_of_map_to_list.
Qed.

Lemma Cache_DeleteAll_eq (p : string) (w : World) :
  Cache.DeleteAll p w =
  if RedisClient w then
    if next_fault (redis_faults w)
    then (Some ErrIO, redis_tick w, [EvScan p])
    else
      let o := Cache.DeleteAll_loop (scan_keys p (redis w)) (redis_tick w) in
      (result o, world_of o, EvScan p :: events o)
  else (Some (New "Redis client is not initialized"), w, []).
Proof.
  unfold Cache.DeleteAll, SCAN, redis_call. run.
  destruct (RedisClient w); cbn; [|done].
  destruct (next_fault (redis_faults w)); cbn; [done|].
  destruct (Cache.DeleteAll_loop _ _) as [[[e|] w1] e1]; cbn; by rewrite ?app_nil_r.
Qed.

Lemma cache_op_DeleteAll (p : string) : cache_op (Cache.DeleteAll p).
Proof.
  intros w. rewrite Cache_DeleteAll_eq. unfold cache_error.
  destruct (RedisClient w) eqn:Hc; [destruct (next_fault (redis_faults w))|]; cbn.
  - split; [done|]. split; [done|]. split; [by apply shrinks_same|].
    split; [by repeat constructor|]. intros e [= <-]. auto.
  - destruct (DeleteAll_loop_spec (scan_keys p (redis w)) (redis_tick w))
      as (Hdb & Hc' & Hs & Hev & Herr & _).
    split; [exact Hdb|]. split; [by rewrite Hc'|]. split; [exact Hs|].
    split; [by constructor|]. intros e He. left. by apply Herr.
  - split; [done|]. split; [done|]. split; [apply shrinks_refl|].
    split; [by apply Forall_nil|]. intros e [= <-]. auto.
Qed.

(** After a [DeleteAll] that returns nil no key matching the pattern is
    left. *)
Lemma Cache_DeleteAll_gone (p : string) (w : World) :
  result (Cache.DeleteAll p w) = None →
  ∀ k, glob_match p k = true → redis (world_of (Cache.DeleteAll p w)) !! k = None.
Proof.
  rewrite Cache_DeleteAll_eq.
  destruct (RedisClient w); [destruct (next_fault (redis_faults w))|]; cbn; try done.
  intros Hok k Hg.
  destruct (DeleteAll_loop_spec (scan_keys p (redis w)) (redis_tick w))
    as (_ & _ & Hs & _ & _ & Hgone).
  destruct (redis w !! k) as [v|] eqn:Hk.
  - apply Hgone; [done|]. apply elem_of_scan_keys. eauto.
  - by apply Hs.
Qed.

Lemma cache_op_mret : cache_op (mret None).
Proof.
  intros w. cbn. split; [done|]. split; [done|]. split; [apply shrinks_refl|].
  split; [by apply Forall_nil|done].
Qed.

Lemma check_eq (a b : M (option error)) (w : World) :
  check a b w =
  match result (a w) with
  | Some e => (Some e, world_of (a w), events (a w))
  | None =>
      (result (b (world_of (a w))), world_of (b (world_of (a w))),
       (events (a w) ++ events (b (world_of (a w))))%list)
  end.
Proof.
  unfold check. rewrite bind_run.
  destruct (a w) as [[[e|] w1] e1]; cbn; [by rewrite app_nil_r|done].
Qed.

Lemma cache_op_check (a b : M (option error)) :
  cache_op a → cache_op b → cache_op (check a b).
Proof.
  intros Ha Hb w. rewrite check_eq.
  destruct (Ha w) as (Hdb & Hc & Hs & Hev & Herr).
  destruct (result (a w)) as [e|] eqn:Hr; cbn.
  - split; [exact Hdb|]. split; [exact Hc|]. split; [exact Hs|].
    split; [exact Hev|]. intros e' [= <-]. by apply Herr.
  - destruct (Hb (world_of (a w))) as (Hdb' & Hc' & Hs' & Hev' & Herr').
    split; [eauto using same_db_trans|].
    split; [congruence|].
    split; [eauto using shrinks_trans|].
    split; [by apply cache_events_app|done].
Qed.

Lemma cache_op_for_each {A} (f : A → M (option error)) (l : list A) :
  (∀ x, cache_op (f x)) → cache_op (for_each f l).
Proof.
  intros Hf. induction l as [|x l IH]; cbn [for_each].
  - apply cache_op_mret.
  - by apply cache_op_check.
Qed.

(** ** Steps of a transaction closure *)

Lemma check_found_eq (a b : M (option error)) (w : World) :
  never_not_found a →
  check_found a b w =
  match result (a w) with
  | Some e => (Some e, world_of (a w), events (a w))
  | None =>
      (result (b (world_of (a w))), world_of (b (world_of (a w))),
       (events (a w) ++ events (b (world_of (a w))))%list)
  end.
Proof.
  intros Hnf. unfold check_found. rewrite bind_run.
  pose proof (Hnf w) as Hw.
  destruct (a w) as [[[e|] w1] e1]; cbn in *; [|done].
  rewrite (Hw e eq_refl). cbn. by rewrite app_nil_r.
Qed.

Lemma triple_check P Q R (a b : M (option error)) (qa qb : list sql) :
  triple P a qa Q → triple Q b qb R → triple P (check a b) (qa ++ qb)%list R.
Proof.
  intros Ha Hb w HP. rewrite check_eq.
  destruct (result (a w)) as [e|] eqn:Hr; cbn; [done|]. intros Hok.
  destruct (Ha w HP Hr) as [HQ Hqa].
  destruct (Hb _ HQ Hok) as [HR Hqb].
  split; [done|]. by rewrite sql_of_app, Hqa, Hqb.
Qed.

Lemma triple_check_found P Q R (a b : M (option error)) (qa qb : list sql) :
  never_not_found a →
  triple P a qa Q → triple Q b qb R → triple P (check_found a b) (qa ++ qb)%list R.
Proof.
  intros Hnf Ha Hb w HP. rewrite check_found_eq by done.
  destruct (result (a w)) as [e|] eqn:Hr; cbn; [done|]. intros Hok.
  destruct (Ha w HP Hr) as [HQ Hqa].
  destruct (Hb _ HQ Hok) as [HR Hqb].
  split; [done|]. by rewrite sql_of_app, Hqa, Hqb.
Qed.

Lemma triple_mret P : triple P (mret None) [] P.
Proof. intros w HP _. by cbn. Qed.

(** A cache operation keeps the rows and the absent keys; when it returns
    nil the keys it is known to delete are absent too. *)
Lemma triple_cache_op t K (K' : string → Prop) (m : M (option error)) :
  cache_op m →
  (∀ w, result (m w) = None → ∀ k, K' k → redis (world_of (m w)) !! k = None) →
  triple (holds t K) m [] (holds t (λ k, K k ∨ K' k)).
Proof.
  intros Hm Hgone w (Hc & Ht & Ha & HK) Hok.
  destruct (Hm w) as ((Hdb & _ & Hab) & Hc' & Hs & Hev & _).
  split; [|by apply cache_events_sql].
  split; [congruence|]. split; [congruence|]. split; [congruence|].
  intros k [Hk|Hk]; [by apply Hs, HK|by apply Hgone].
Qed.

Lemma triple_Cache_Delete t K (key : string) :
  triple (holds t K) (Cache.Delete key) [] (holds t (λ k, K k ∨ k = key)).
Proof.
  apply triple_cache_op; [apply cache_op_Delete|].
  intros w Hok k ->. by apply Cache_Delete_gone.
Qed.

Lemma triple_Cache_DeleteAll t K (p : string) :
  triple (holds t K) (Cache.DeleteAll p) []
    (holds t (λ k, K k ∨ glob_match p k = true)).
Proof.
  apply triple_cache_op; [apply cache_op_DeleteAll|].
  intros w Hok k Hk. by apply Cache_DeleteAll_gone.
Qed.

Lemma for_each_gone {A} (f : A → M (option error)) (key : A → string) (l : list A) :
  (∀ x, cache_op (f x)) →
  (∀ x w, result (f x w) = None → redis (world_of (f x w)) !! key x = None) →
  ∀ w, result (for_each f l w) = None →
       ∀ x, x ∈ l → redis (world_of (for_each f l w)) !! key x = None.
Proof.
  intros Hf Hkey. induction l as [|y l IH]; intros w Hok x Hx.
  - by apply elem_of_nil in Hx.
  - cbn [for_each] in *. rewrite check_eq in *.
    destruct (result (f y w)) as [e|] eqn:Hr; cbn in *; [done|].
    apply elem_of_cons in Hx as [->|Hx]; [|by apply IH].
    destruct (cache_op_for_each f l Hf (world_of (f y w))) as (_ & _ & Hs & _).
    apply Hs. by apply Hkey.
Qed.

Section InvalidateRows.
Context {R : Type} (T : Table R) (owner : R → string).
Context (DeleteCache : R → M (option error)) (key : R → string).
Hypothesis DeleteCache_op : ∀ r, cache_op (DeleteCache r).
Hypothesis DeleteCache_gone :
  ∀ r w, result (DeleteCache r w) = None →
         redis (world_of (DeleteCache r w)) !! key r = None.

Lemma invalidate_rows_eq (id : string) (w : World) :
  PatientRepository.invalidate_rows T owner DeleteCache id w =
  if tx_aborted w
  then (Some ErrTxAborted, w, [EvSQL (Select (table_name T))])
  else if next_fault (db_faults w)
  then (Some ErrIO, set_tx_aborted true (db_tick w),
        [EvSQL (Select (table_name T))])
  else
    let o := for_each DeleteCache
               (filter (λ r, owner r = id) (rows T (DB w))) (db_tick w) in
    (result o, world_of o, EvSQL (Select (table_name T)) :: events o).
Proof.
  unfold PatientRepository.invalidate_rows. rewrite bind_run, db_Find_eq. cbn.
  destruct (tx_aborted w); [done|].
  destruct (next_fault (db_faults w)); [done|]. cbn.
  by destruct (for_each _ _ _) as [[? ?] ?].
Qed.

Lemma triple_invalidate_rows t K (id : string) :
  triple (holds t K)
    (PatientRepository.invalidate_rows T owner DeleteCache id)
    [Select (table_name T)]
    (holds t (λ k, K k ∨ ∃ r, r ∈ rows T t ∧ owner r = id ∧ k = key r)).
Proof.
  intros w (Hc & Ht & Ha & HK). rewrite invalidate_rows_eq, Ha.
  destruct (next_fault (db_faults w)); [done|]. cbn. intros Hok.
  destruct (cache_op_for_each DeleteCache
              (filter (λ r, owner r = id) (rows T (DB w))) DeleteCache_op (db_tick w))
    as ((Hdb & _ & Hab) & Hc' & Hs & Hev & _).
  split; [|f_equal; exact (cache_events_sql _ Hev)].
  split; [by rewrite Hc'|]. split; [by rewrite Hdb|]. split; [by rewrite Hab|].
  intros k [Hk|(r & Hr & Ho & ->)]; [by apply Hs, HK|].
  apply (for_each_gone DeleteCache key _ DeleteCache_op DeleteCache_gone); [done|].
  apply list_elem_of_filter. split; [done|]. by rewrite Ht.
Qed.
End InvalidateRows.

Section DeleteRows.
Context {R : Type} (T : Table R).

Lemma never_not_found_db_Delete (cond : R → Prop) `{∀ r, Decision (cond r)} :
  never_not_found (db_Delete T Tx cond).
Proof.
  intros w e. rewrite db_Delete_eq.
  destruct (refused Tx w); [by intros [= <-]|].
  destruct (next_fault (db_faults w)); [by intros [= <-]|done].
Qed.

Lemma triple_db_Delete t K (cond : R → Prop) `{∀ r, Decision (cond r)} :
  triple (holds t K) (db_Delete T Tx cond) [DeleteFrom (table_name T)]
    (holds (with_rows T (filter (λ r, ¬ cond r) (rows T t)) t) K).
Proof.
  intros w (Hc & Ht & Ha & HK). rewrite db_Delete_eq. cbn. rewrite Ha.
  destruct (next_fault (db_faults w)); [done|]. cbn. intros _.
  split; [|done]. split; [done|]. split; [by rewrite Ht|]. split; [done|].
  exact HK.
Qed.
End DeleteRows.

(** ** The closure of the aggregate delete *)

Section AggregateDelete.
Import PatientRepository.
Variables (id : string) (t : Tables) (K : string → Prop).

Lemma triple_invalidateEmergencyContactsCache :
  triple (holds t K) (invalidateEmergencyContactsCache id)
    [Select "emergency_contact"]
    (holds t (λ k, K k ∨ ∃ r, r ∈ emergency_contact t
                             ∧ EmergencyContact_PatientID r = id
                             ∧ k = EmergencyContactRepository.getEmergencyContactCacheKey
                                     (EmergencyContact_PatientID r)
                                     (EmergencyContact_ID r))).
Proof.
  apply (triple_invalidate_rows emergency_contact_table); intros.
  - apply cache_op_Delete.
  - by apply Cache_Delete_gone.
Qed.

Lemma triple_invalidateExaminationsCache :
  triple (holds t K) (invalidateExaminationsCache id)
    [Select "examination"]
    (holds t (λ k, K k ∨ ∃ r, r ∈ examination t
                             ∧ Examination_PatientID r = id
                             ∧ k = ExaminationRepository.getExaminationCacheKey
                                     (Examination_PatientID r) (Examination_ID r))).
Proof.
  apply (triple_invalidate_rows examination_table); intros.
  - apply cache_op_Delete.
  - by apply Cache_Delete_gone.
Qed.

Lemma triple_invalidateBillingsCache :
  triple (holds t K) (invalidateBillingsCache id)
    [Select "billing"]
    (holds t (λ k, K k ∨ ∃ r, r ∈ billing t
                             ∧ Billing_PatientID r = id
                             ∧ k = BillingRepository.getBillingCacheKey (BillingID r))).
Proof.
  apply (triple_invalidate_rows billing_table); intros.
  - apply cache_op_Delete.
  - by apply Cache_Delete_gone.
Qed.

Lemma triple_invalidateTreatmentPlansCache :
  triple (holds t K) (invalidateTreatmentPlansCache id)
    [Select "treatment_plan"]
    (holds t (λ k, K k ∨ ∃ r, r ∈ treatment_plan t
                             ∧ TreatmentPlan_PatientID r = id
                             ∧ k = TreatmentPlanRepository.getTreatmentPlanCacheKey
                                     (TreatmentPlan_PatientID r) (TreatmentPlan_ID r))).
Proof.
  apply (triple_invalidate_rows treatment_plan_table); intros.
  - apply cache_op_Delete.
  - by apply Cache_Delete_gone.
Qed.

Lemma triple_invalidateAppointmentsCache :
  triple (holds t K) (invalidateAppointmentsCache id)
    [Select "appointment"]
    (holds t (λ k, K k ∨ ∃ r, r ∈ appointment t
                             ∧ Appointment_PatientID r = id
                             ∧ k = AppointmentRepository.getAppointmentCacheKey
                                     (Appointment_PatientID r) (Appointment_ID r))).
Proof.
  apply (triple_invalidate_rows appointment_table); intros.
  - apply cache_op_Delete.
  - by apply Cache_Delete_gone.
Qed.
End AggregateDelete.

(** One step of the closure of [DeletePatientAndRelated]. *)
Ltac closure_step :=
  first
    [ apply triple_mret
    | eapply triple_check;
      [ first [ apply triple_invalidateEmergencyContactsCache
              | apply triple_invalidateExaminationsCache
              | apply triple_invalidateBillingsCache
              | apply triple_invalidateTreatmentPlansCache
              | apply triple_invalidateAppointmentsCache
              | apply triple_Cache_Delete
              | apply triple_Cache_DeleteAll ] | ]
    | eapply triple_check_found;
      [ apply never_not_found_db_Delete | apply triple_db_Delete | ] ].

(** Choosing the disjunct of an accumulated set of keys. *)
Ltac pick_key :=
  solve [ reflexivity
        | eexists; split; [eassumption|split; [eassumption|reflexivity]]
        | right; pick_key
        | left; pick_key ].

(** The closure, run in a transaction that has not failed: when it returns
    nil the rows of the patient are gone from the six tables, the other rows
    are as they were, every cache key of the aggregate is absent, and the
    statements sent are five SELECTs followed by six DELETEs. *)
Lemma DeletePatientAndRelated_tx_triple (id : string) (t : Tables) :
  triple (holds t (λ _, False)) (PatientRepository.DeletePatientAndRelated_tx id)
    [Select "emergency_contact"; Select "examination"; Select "billing";
     Select "treatment_plan"; Select "appointment";
     DeleteFrom "emergency_contact"; DeleteFrom "examination";
     DeleteFrom "billing"; DeleteFrom "treatment_plan";
     DeleteFrom "appointment"; DeleteFrom "patient"]
    (holds (without_patient id t) (aggregate_key id t)).
Proof.
  intros w HP Hok.
  eassert (Htr : triple (holds t (λ _, False))
                   (PatientRepository.DeletePatientAndRelated_tx id) _ (holds _ _)).
  { unfold PatientRepository.DeletePatientAndRelated_tx,
      AppointmentRepository.DeleteAllCache, EmergencyContactRepository.DeleteAllCache,
      BillingRepository.DeleteAllCache, ExaminationRepository.DeleteAllCache,
      TreatmentPlanRepository.DeleteAllCache.
    repeat closure_step. }
  destruct (Htr w HP Hok) as [(Hc & Ht & Ha & HK) Hsql].
  split; [|exact Hsql].
  split; [exact Hc|]. split; [exact Ht|]. split; [exact Ha|].
  intros k Hk. apply HK. destruct Hk; pick_key.
Qed.

Lemma filter_out_none {A} (P : A → Prop) `{∀ x, Decision (P x)} (l : list A) :
  filter P (filter (λ x, ¬ P x) l) = [].
Proof.
  induction l as [|x l IH]; [done|].
  rewrite (filter_cons (λ x, ¬ P x)). destruct (decide (¬ P x)) as [Hx|Hx]; [|done].
  rewrite filter_cons. by destruct (decide (P x)).
Qed.

Lemma rows_for_without_patient (id : string) (t : Tables) :
  rows_for id (without_patient id t) = 0%nat.
Proof. unfold rows_for, without_patient. cbn. by rewrite !filter_out_none. Qed.

Lemma Cache_Get_absent (k : string) (w : World) :
  RedisClient w = true → next_fault (redis_faults w) = false →
  redis w !! k = None →
  result (Cache.Get k w) = ("", None).
Proof. intros Hc Hf Hk. by rewrite Cache_Get_eq, Hc, Hf, Hk. Qed.

(** C1: when [DeletePatientAndRelated] returns nil, the row deletions were
    sent between one BEGIN and one COMMIT, no row of the patient is left in
    the patient table and the five dependent tables (the other rows are as
    they were), and every cache key of the aggregate (the patient's key, the
    key of every dependent row that was deleted, the collection key of the
    patient and of each dependent type) is absent, so a [Get] of it that
    reaches the server is a miss. *)
Theorem DeletePatientAndRelated_deletes_aggregate (w : World) (tok id : string) :
  let o := PatientRepository.DeletePatientAndRelated tok id w in
  result o = None →
  sql_of (events o) =
    [Begin;
     Select "emergency_contact"; Select "examination"; Select "billing";
     Select "treatment_plan"; Select "appointment";
     DeleteFrom "emergency_contact"; DeleteFrom "examination";
     DeleteFrom "billing"; DeleteFrom "treatment_plan";
     DeleteFrom "appointment"; DeleteFrom "patient";
     Commit]
  ∧ DB (world_of o) = without_patient id (DB w)
  ∧ rows_for id (DB (world_of o)) = 0%nat
  ∧ (∀ k, aggregate_key id (DB w) k →
          redis (world_of o) !! k = None
          ∧ (next_fault (redis_faults (world_of o)) = false →
             result (Cache.Get k (world_of o)) = ("", None))).
Proof.
  cbv zeta. unfold PatientRepository.DeletePatientAndRelated, defer.
  rewrite bind_run, NewLock_eq.
  destruct (RedisClient w) eqn:Hc; [|done].
  destruct (next_fault (redis_faults w)); [done|].
  destruct (redis w !! ("patient_lock:" +:+ id)) eqn:Hk; [done|].
  cbn [result world_of events fst snd negb].
  set (w1 := set_redis _ (redis_tick w)).
  rewrite !bind_run. cbn [result world_of events fst snd mret M_ret].
  rewrite Transaction_eq.
  destruct (next_fault (db_faults w1)); [done|]. cbv zeta.
  set (w2 := set_tx_aborted false (db_tick w1)).
  pose proof (DeletePatientAndRelated_tx_triple id (DB w) w2) as Htx.
  destruct (result (PatientRepository.DeletePatientAndRelated_tx id w2)) as [e|] eqn:Hr;
    [done|].
  destruct Htx as [(Hc3 & Ht & Ha & HK) Hsql]; [by repeat split|done|].
  rewrite Ha.
  set (w3 := world_of (PatientRepository.DeletePatientAndRelated_tx id w2)) in *.
  destruct (next_fault (db_faults w3)); [done|].
  cbn [result world_of events fst snd]. intros _.
  set (w4 := set_tx_aborted false (db_tick w3)).
  destruct (release_spec ("patient_lock:" +:+ id) tok w4)
    as ((Hdb & _) & Hc' & Hsql' & _ & Hs & _).
  assert (HDB : DB (world_of (release ("patient_lock:" +:+ id) tok w4))
                = without_patient id (DB w)) by (by rewrite Hdb).
  split.
  { cbn. rewrite app_nil_r, !sql_of_app, Hsql, Hsql'. done. }
  split; [exact HDB|].
  split; [rewrite HDB; apply rows_for_without_patient|].
  intros k Hagg.
  assert (Hgone : redis (world_of (release ("patient_lock:" +:+ id) tok w4)) !! k = None).
  { apply Hs. cbn. by apply HK. }
  split; [exact Hgone|]. intros Hf. apply Cache_Get_absent; [|done|done].
  by rewrite Hc'.
Qed.

Lemma DeletePatientAndRelated_deletes_aggregate_witness :
  rows_for "DP-000001"
    (DB (world_of (PatientRepository.DeletePatientAndRelated "t1" "DP-000001"
                     clinic_world))) = 0%nat
  ∧ redis (world_of (PatientRepository.DeletePatientAndRelated "t1" "DP-000001"
                       clinic_world)) !! "emergency_contact_cache:DP-000001_1" = None.
Proof.
  pose proof (DeletePatientAndRelated_deletes_aggregate clinic_world "t1" "DP-000001")
    as H.
  cbv zeta in H. destruct H as (_ & _ & Hrows & Hkeys).
  - vm_compute. reflexivity.
  - split; [exact Hrows|].
    apply (Hkeys _ (key_emergency_contact "DP-000001" (DB clinic_world) contact_of_ann
                      ltac:(by apply list_elem_of_singleton) eq_refl)).
Defined.

(** X28: the rows are as they were whenever [DeletePatientAndRelated]
    returns an error, whichever step failed (the lock, a statement of the
    transaction, an invalidation inside it, the COMMIT): nothing of a failed
    attempt is persisted. *)
Lemma DeletePatientAndRelated_atomic (w : World) (tok id : string) :
  result (PatientRepository.DeletePatientAndRelated tok id w) ≠ None →
  DB (world_of (PatientRepository.DeletePatientAndRelated tok id w)) = DB w.
Proof.
  unfold PatientRepository.DeletePatientAndRelated, defer.
  rewrite bind_run, NewLock_eq.
  destruct (RedisClient w) eqn:Hc; [|done].
  destruct (next_fault (redis_faults w)); [done|].
  destruct (redis w !! ("patient_lock:" +:+ id)) eqn:Hk; [done|].
  cbn [result world_of events fst snd negb].
  set (w1 := set_redis _ (redis_tick w)).
  rewrite !bind_run. cbn [result world_of events fst snd mret M_ret].
  intros Herr.
  match goal with
  | |- DB (world_of (release ?k ?v ?w')) = _ =>
      destruct (release_spec k v w') as ((-> & _) & _)
  end.
  revert Herr. rewrite Transaction_eq.
  destruct (next_fault (db_faults w1)); [done|]. cbv zeta.
  destruct (result (PatientRepository.DeletePatientAndRelated_tx id _)); [done|].
  destruct (tx_aborted _); [done|].
  destruct (next_fault _); [done|done].
Qed.

(** ** Where locks are tried *)










Section QuietStatements.
Context {R : Type} (T : Table R) (h : handle).






End QuietStatements.
























(** ** The invalidations that end a mutation *)

(** An operation that touches nothing but cache entries, which it can only
    delete. *)
Lemma cache_op_frame (m : M (option error)) (w : World) :
  cache_op m →
  same_db w (world_of (m w)) ∧ RedisClient (world_of (m w)) = RedisClient w
  ∧ shrinks w (world_of (m w)) ∧ cache_events (events (m w)).
Proof. intros Hm. destruct (Hm w) as (H1 & H2 & H3 & H4 & _). auto. Qed.

Lemma PatientRepository_invalidate_spec (id : string) (w : World) :
  let o := PatientRepository.invalidate id w in
  same_db w (world_of o) ∧ RedisClient (world_of o) = RedisClient w
  ∧ shrinks w (world_of o) ∧ cache_events (events o)
  ∧ (∀ e, result o = Some e →
          cache_error e
          ∨ ∃ e', e = Errorf "failed to delete patient cache: %w" (Some e')).
Proof.
  cbv zeta. unfold PatientRepository.invalidate. rewrite bind_run.
  destruct (cache_op_Delete (getPatientCacheKey id) w) as (Hdb & Hc & Hs & Hev & _).
  destruct (result (Cache.Delete (getPatientCacheKey id) w)) as [e|]; cbn.
  - rewrite app_nil_r. split; [done|]. split; [done|]. split; [done|].
    split; [done|]. intros e' [= <-]. eauto.
  - destruct (cache_op_DeleteAll "patients_cache"
                (world_of (Cache.Delete (getPatientCacheKey id) w)))
      as (Hdb' & Hc' & Hs' & Hev' & Herr').
    split; [eauto using same_db_trans|]. split; [congruence|].
    split; [eauto using shrinks_trans|]. split; [by apply cache_events_app|].
    intros e He. left. by apply Herr'.
Qed.

Lemma BillingRepository_invalidate_spec (b : Billing) (w : World) :
  let o := BillingRepository.invalidate b w in
  same_db w (world_of o) ∧ RedisClient (world_of o) = RedisClient w
  ∧ shrinks w (world_of o) ∧ cache_events (events o).
Proof.
  cbv zeta. unfold BillingRepository.invalidate.
  rewrite bind_run.
  destruct (cache_op_frame _ w (cache_op_Delete
              (BillingRepository.getBillingCacheKey (BillingID b))))
    as (Hdb1 & Hc1 & Hs1 & Hev1).
  set (w1 := world_of (Cache.Delete _ w)) in *.
  destruct (result (Cache.Delete _ w)) as [e|]; cbn;
    [rewrite app_nil_r; auto|].
  rewrite bind_run.
  destruct (cache_op_frame _ w1 (cache_op_DeleteAll "billings_cache"))
    as (Hdb2 & Hc2 & Hs2 & Hev2).
  set (w2 := world_of (Cache.DeleteAll _ w1)) in *.
  destruct (result (Cache.DeleteAll _ w1)) as [e|]; cbn.
  { rewrite app_nil_r. split; [eauto using same_db_trans|]. split; [congruence|].
    split; [eauto using shrinks_trans|]. by apply cache_events_app. }
  rewrite bind_run.
  destruct (cache_op_frame _ w2 (cache_op_Delete
              (getPatientCacheKey (Billing_PatientID b))))
    as (Hdb3 & Hc3 & Hs3 & Hev3).
  set (w3 := world_of (Cache.Delete _ w2)) in *.
  destruct (result (Cache.Delete _ w2)) as [e|]; cbn.
  { rewrite app_nil_r. split; [eauto using same_db_trans|]. split; [congruence|].
    split; [eauto using shrinks_trans|]. eauto using cache_events_app. }
  destruct (cache_op_frame _ w3 (cache_op_DeleteAll "patients_cache"))
    as (Hdb4 & Hc4 & Hs4 & Hev4).
  split; [eauto using same_db_trans|]. split; [congruence|].
  split; [eauto using shrinks_trans|]. eauto using cache_events_app.
Qed.

(** A transaction that returns nil has committed what its closure did. *)
Lemma Transaction_committed (fc : M (option error)) (w : World) :
  result (Transaction fc w) = None →
  result (fc (set_tx_aborted false (db_tick w))) = None
  ∧ DB (world_of (Transaction fc w))
    = DB (world_of (fc (set_tx_aborted false (db_tick w)))).
Proof.
  rewrite Transaction_eq.
  destruct (next_fault (db_faults w)); [done|]. cbv zeta.
  destruct (result (fc _)); [done|].
  destruct (tx_aborted _); [done|].
  by destruct (next_fault _).
Qed.

(** ** Billing totals *)

Lemma Billing_Create_persists (w : World) (tok : string) (b : Billing) :
  (result (BillingRepository.Create tok b w)).2 = None →
  ∃ id,
    (result (BillingRepository.Create tok b w)).1
    = Billing_with_totals (Billing_with_ID id b)
    ∧ billing (DB (world_of (BillingRepository.Create tok b w)))
      = (billing (DB w) ++ [Billing_with_totals (Billing_with_ID id b)])%list
    ∧ existsb (same_key billing_table (Billing_with_totals (Billing_with_ID id b)))
        (billing (DB w)) = false.
Proof.
  unfold BillingRepository.Create. rewrite bind_run.
  first_step (acquire_spec ("billing_lock:" +:+ BillingID b) tok w) as Ha r w1 e1.
  destruct Ha as ((Hdb1 & _ & _) & _).
  destruct r as [locked err]. cbn [result world_of events fst snd].
  destruct locked; cbn [negb]; [|done].
  unfold defer. rewrite !bind_run. cbn [mret M_ret result world_of events fst snd].
  match goal with
  | |- context [release ?k ?v ?w'] =>
      destruct (release_spec k v w') as ((Hdbr & _) & _)
  end.
  rewrite Hdbr. clear Hdbr.
  rewrite db_First_eq. cbn [refused].
  destruct (next_fault (db_faults w1)); [done|].
  destruct (head _) as [d|]; [|done].
  cbn [result world_of events fst snd errors_Is_ErrRecordNotFound].
  rewrite !bind_run, db_Raw_next_id_eq. cbn [refused].
  destruct (next_fault (db_faults (db_tick w1))); [done|].
  destruct (sequences (db_tick w1) !! "billing_id_seq") as [s|];
    [|by cbn [result world_of events fst snd mret M_ret]].
  destruct (seq_max <? (nextval s).1);
    [by cbn [result world_of events fst snd mret M_ret]|].
  cbn [result world_of events fst snd].
  set (b' := Billing_with_totals _). set (w2 := set_sequences _ _).
  rewrite bind_run. cbn [mret M_ret result world_of events fst snd].
  intros Hok. apply Transaction_committed in Hok as [Hc HDB].
  exists (format_id "PB-" (nextval s).1). fold b'.
  rewrite HDB. clear HDB. revert Hc. rewrite bind_run, db_Create_eq.
  cbn [refused tx_aborted set_tx_aborted].
  destruct (next_fault _); cbn [result world_of events fst snd].
  { rewrite bind_run. by destruct (result (db_Exec_setval_back _ _ _)). }
  destruct (existsb _ _) eqn:Hex;
    cbn [result world_of events fst snd].
  { rewrite bind_run. by destruct (result (db_Exec_setval_back _ _ _)). }
  intros _.
  match goal with
  | |- context [BillingRepository.invalidate ?x ?w'] =>
      destruct (BillingRepository_invalidate_spec x w') as ((-> & _) & _)
  end.
  cbn in Hex |- *. rewrite Hdb1 in *. done.
Qed.


Lemma Billing_Update_persists (w : World) (tok : string) (b : Billing) :
  (result (BillingRepository.Update tok b w)).2 = None →
  (result (BillingRepository.Update tok b w)).1 = Billing_with_totals b
  ∧ billing (DB (world_of (BillingRepository.Update tok b w)))
    = if existsb (same_key billing_table (Billing_with_totals b)) (billing (DB w))
      then (λ r, if same_key billing_table (Billing_with_totals b) r
                 then Billing_with_totals b else r) <$> billing (DB w)
      else (billing (DB w) ++ [Billing_with_totals b])%list.
Proof.
  unfold BillingRepository.Update. rewrite bind_run.
  first_step (acquire_spec ("billing_lock:" +:+ BillingID b) tok w) as Ha r w1 e1.
  destruct Ha as ((Hdb1 & _ & _) & _).
  destruct r as [locked err]. cbn [result world_of events fst snd].
  destruct locked; cbn [negb]; [|done].
  unfold defer. rewrite !bind_run. cbn [mret M_ret result world_of events fst snd].
  match goal with
  | |- context [release ?k ?v ?w'] =>
      destruct (release_spec k v w') as ((Hdbr & _) & _)
  end.
  rewrite Hdbr. clear Hdbr.
  rewrite db_First_eq. cbn [refused].
  destruct (next_fault (db_faults w1)); [done|].
  destruct (head _) as [d|]; [|done].
  cbn [result world_of events fst snd errors_Is_ErrRecordNotFound].
  rewrite !bind_run, db_Save_eq. cbn [refused].
  destruct (next_fault _); cbn [result world_of events fst snd]; [done|].
  rewrite bind_run. cbn [mret M_ret result world_of events fst snd].
  intros _.
  match goal with
  | |- context [BillingRepository.invalidate ?x ?w'] =>
      destruct (BillingRepository_invalidate_spec x w') as ((-> & _) & _)
  end.
  cbn. by rewrite Hdb1.
Qed.

Lemma not_same_key_in (b' : Billing) (l : list Billing) (r : Billing) :
  existsb (same_key billing_table b') l = false →
  r ∈ l → BillingID r ≠ BillingID b'.
Proof.
  intros Hex Hin Heq.
  assert (existsb (same_key billing_table b') l = true) as Ht; [|congruence].
  apply existsb_exists. exists r. split; [by apply list_elem_of_In|].
  cbn. by apply bool_decide_eq_true_2.
Qed.

(** C9: when billing Create or Update returns nil, the billing table holds
    one row with the identifier of the billing, with the amounts the caller
    gave and with Balance = BillingAmount - (PaidCashAmount +
    PaidInsuranceAmount) and TotalReceived = PaidCashAmount +
    PaidInsuranceAmount, whatever Balance and TotalReceived the caller
    supplied. *)
Theorem Billing_totals_recomputed (w : World) (tok : string) (b : Billing) :
  ((result (BillingRepository.Create tok b w)).2 = None →
   persisted_with_totals b (result (BillingRepository.Create tok b w)).1
     (DB (world_of (BillingRepository.Create tok b w))))
  ∧ ((result (BillingRepository.Update tok b w)).2 = None →
     BillingID (result (BillingRepository.Update tok b w)).1 = BillingID b
     ∧ persisted_with_totals b (result (BillingRepository.Update tok b w)).1
         (DB (world_of (BillingRepository.Update tok b w)))).
Proof.
  split.
  - intros Hok. destruct (Billing_Create_persists w tok b Hok) as (id & -> & Hrows & Hex).
    unfold persisted_with_totals. rewrite Hrows.
    split; [apply elem_of_app; right; by apply list_elem_of_singleton|].
    split; [|done].
    intros r [Hr|Hr%list_elem_of_singleton]%elem_of_app Hid; [|done].
    by destruct (not_same_key_in _ _ _ Hex Hr).
  - intros Hok. destruct (Billing_Update_persists w tok b Hok) as (-> & Hrows).
    split; [done|]. unfold persisted_with_totals. rewrite Hrows.
    destruct (existsb _ _) eqn:Hex.
    + split.
      { apply existsb_exists in Hex as (r & Hr%list_elem_of_In & Hk).
        apply list_elem_of_fmap. exists r. split; [|done]. by rewrite Hk. }
      split; [|done].
      intros r (r0 & -> & Hr0)%list_elem_of_fmap Hid.
      destruct (same_key billing_table (Billing_with_totals b) r0) eqn:Hk; [done|].
      cbn in Hk, Hid. apply bool_decide_eq_false in Hk. by destruct Hk.
    + split; [apply elem_of_app; right; by apply list_elem_of_singleton|].
      split; [|done].
      intros r [Hr|Hr%list_elem_of_singleton]%elem_of_app Hid; [|done].
      by destruct (not_same_key_in _ _ _ Hex Hr).
Qed.

Lemma Billing_totals_recomputed_witness :
  Balance (result (BillingRepository.Create "t1" billing_wrong_totals clinic_world)).1
  = 250%float
  ∧ TotalReceived
      (result (BillingRepository.Update "t1" billing_of_ann clinic_world)).1
    = 50%float.
Proof.
  destruct (Billing_totals_recomputed clinic_world "t1" billing_wrong_totals) as [Hc _].
  destruct (Billing_totals_recomputed clinic_world "t1" billing_of_ann) as [_ Hu].
  split.
  - destruct Hc as (_ & _ & _ & _ & _ & -> & _); [vm_compute; reflexivity|].
    vm_compute. reflexivity.
  - destruct Hu as (_ & _ & _ & _ & _ & _ & _ & ->); [vm_compute; reflexivity|].
    vm_compute. reflexivity.
Defined.

(** ** Failures before the cache is touched *)




















(** ** Sequential identifiers *)

Lemma pretty_N_go_length (k : nat) (x : N) (s : string) :
  (x < 10 ^ N.of_nat k)%N →
  (String.length (pretty_N_go x s) ≤ k + String.length s)%nat.
Proof.
  revert x s. induction k as [|k IH]; intros x s Hx.
  - assert (x = 0%N) as -> by (cbn in Hx; lia). by rewrite pretty_N_go_0.
  - destruct (decide (x = 0%N)) as [->|Hne].
    + rewrite pretty_N_go_0. lia.
    + rewrite pretty_N_go_step by lia.
      etrans; [apply IH|cbn; lia].
      rewrite Nat2N.inj_succ, N.pow_succ_r' in Hx.
      apply N.Div0.div_lt_upper_bound. lia.
Qed.

Lemma pretty_Z_length (v : Z) :
  0 ≤ v < 1000000 → (String.length (pretty v) ≤ 6)%nat.
Proof.
  intros Hv. destruct v as [|x|x]; [cbn; lia| |lia].
  change (pretty (Z.pos x)) with (pretty (N.pos x)).
  unfold pretty, pretty_N. rewrite decide_False by done.
  pose proof (pretty_N_go_length 6 (N.pos x) "") as H. cbn in H.
  apply H. lia.
Qed.

Lemma format_id_padded (prefix : string) (v : Z) :
  0 ≤ v < 1000000 →
  format_id prefix v
  = prefix
      +:+ string_of_list_ascii (replicate (6 - String.length (pretty v)) "0"%char)
      +:+ pretty v
  ∧ String.length
      (string_of_list_ascii (replicate (6 - String.length (pretty v)) "0"%char)
       +:+ pretty v) = 6%nat.
Proof.
  intros Hv. pose proof (pretty_Z_length v Hv) as Hlen.
  unfold format_id, LPAD.
  destruct (Nat.leb_spec (String.length (pretty v)) 6) as [_|?]; [|lia].
  split; [done|].
  assert (∀ n c s, String.length (string_of_list_ascii (replicate n c) +:+ s)
                   = (n + String.length s)%nat) as Hrep.
  { intros n c s. induction n as [|n IHn]; [done|].
    change (S (String.length (string_of_list_ascii (replicate n c) +:+ s))
            = S (n + String.length s)). by rewrite IHn. }
  rewrite Hrep. lia.
Qed.

Lemma sql_of_release (k tok : string) (w : World) :
  sql_of (events (release k tok w)) = [].
Proof. by destruct (release_spec k tok w) as (_ & _ & H & _). Qed.

(** When the insert fails the closure of [Create] sends the [setval] that
    takes the identifier back, and nothing else. *)
Lemma PatientRepository_Create_tx_insert_fails (p : Patient) (w : World) :
  result (db_Create patient_table Tx p w) ≠ None →
  events (PatientRepository.Create_tx p w)
  = [EvSQL (Insert "patient"); EvSQL (Setval "patient_id_seq")]
  ∧ result (PatientRepository.Create_tx p w) ≠ None.
Proof.
  unfold PatientRepository.Create_tx. rewrite bind_run.
  destruct (result (db_Create patient_table Tx p w)) as [e|] eqn:Hr; [|done].
  intros _. cbn [result world_of events fst snd].
  assert (events (db_Create patient_table Tx p w) = [EvSQL (Insert "patient")]) as ->.
  { rewrite db_Create_eq. by repeat case_match. }
  rewrite bind_run, db_Exec_setval_back_eq.
  destruct (refused _ _); [done|].
  destruct (next_fault _); [done|].
  by destruct (_ ≫= setval_back).
Qed.

Lemma DoctorRepository_Create_tx_insert_fails (d : Doctor) (w : World) :
  result (db_Create doctor_table Tx d w) ≠ None →
  events (DoctorRepository.Create_tx d w)
  = [EvSQL (Insert "doctor"); EvSQL (Setval "doctor_id_seq")]
  ∧ result (DoctorRepository.Create_tx d w) ≠ None.
Proof.
  unfold DoctorRepository.Create_tx. rewrite bind_run.
  destruct (result (db_Create doctor_table Tx d w)) as [e|] eqn:Hr; [|done].
  intros _. cbn [result world_of events fst snd].
  assert (events (db_Create doctor_table Tx d w) = [EvSQL (Insert "doctor")]) as ->.
  { rewrite db_Create_eq. by repeat case_match. }
  rewrite bind_run, db_Exec_setval_back_eq.
  destruct (refused _ _); [done|].
  destruct (next_fault _); [done|].
  by destruct (_ ≫= setval_back).
Qed.

(** The statements of the closure: the insert alone, or the insert and the
    [setval] with an error as result. *)
Lemma PatientRepository_Create_tx_sql (p : Patient) (w : World) :
  (sql_of (events (PatientRepository.Create_tx p w))
   = [Insert "patient"; Setval "patient_id_seq"]
   ∧ result (PatientRepository.Create_tx p w) ≠ None)
  ∨ sql_of (events (PatientRepository.Create_tx p w)) = [Insert "patient"].
Proof.
  destruct (result (db_Create patient_table Tx p w)) as [e|] eqn:Hr.
  - left. destruct (PatientRepository_Create_tx_insert_fails p w) as [-> ?];
      [by rewrite Hr|done].
  - right. unfold PatientRepository.Create_tx. rewrite bind_run, Hr.
    cbn [result world_of events fst snd]. rewrite sql_of_app.
    destruct (PatientRepository_invalidate_spec (ID p)
                (world_of (db_Create patient_table Tx p w)))
      as (_ & _ & _ & Hev & _).
    rewrite (cache_events_sql _ Hev), app_nil_r.
    rewrite db_Create_eq. by repeat case_match.
Qed.

Lemma DoctorRepository_Create_tx_sql (d : Doctor) (w : World) :
  (sql_of (events (DoctorRepository.Create_tx d w))
   = [Insert "doctor"; Setval "doctor_id_seq"]
   ∧ result (DoctorRepository.Create_tx d w) ≠ None)
  ∨ sql_of (events (DoctorRepository.Create_tx d w)) = [Insert "doctor"].
Proof.
  destruct (result (db_Create doctor_table Tx d w)) as [e|] eqn:Hr.
  - left. destruct (DoctorRepository_Create_tx_insert_fails d w) as [-> ?];
      [by rewrite Hr|done].
  - right. unfold DoctorRepository.Create_tx. rewrite bind_run, Hr.
    cbn [result world_of events fst snd]. rewrite sql_of_app.
    assert (sql_of (events (db_Create doctor_table Tx d w)) = [Insert "doctor"]) as ->.
    { rewrite db_Create_eq. by repeat case_match. }
    rewrite bind_run. cbn [events snd]. rewrite sql_of_app.
    destruct (cache_op_Delete (DoctorRepository.getDoctorCacheKey (Doctor_ID d))
                (world_of (db_Create doctor_table Tx d w)))
      as (_ & _ & _ & Hev & _).
    rewrite (cache_events_sql _ Hev).
    destruct (result (Cache.Delete _ _)); [done|].
    match goal with
    | |- context [Cache.DeleteAll ?x ?w'] =>
        destruct (cache_op_DeleteAll x w') as (_ & _ & _ & Hev' & _)
    end.
    by rewrite (cache_events_sql _ Hev').
Qed.

Lemma sql_of_cons (q : sql) (evs : list event) :
  sql_of (EvSQL q :: evs) = q :: sql_of evs.
Proof. done. Qed.

(** Deciding membership in a list of shapes. *)
Ltac in_shapes :=
  cbn; unfold Create_statements;
  repeat first [ apply list_elem_of_here | apply list_elem_of_further ].

Lemma PatientRepository_Create_sql (w : World) (tok : string) (p : Patient) :
  sql_of (events (PatientRepository.Create tok p w))
  ∈ Create_statements "patient" "patient_id_seq".
Proof.
  unfold PatientRepository.Create. rewrite bind_run.
  first_step (acquire_spec (PatientRepository.Create_lockKey p) tok w) as Ha r w1 e1.
  destruct Ha as (_ & _ & _ & _ & _ & _ & Hsql & _).
  destruct r as [locked err]. cbn [result world_of events fst snd].
  destruct locked; cbn [negb].
  2:{ cbn. rewrite app_nil_r, Hsql. in_shapes. }
  unfold defer. rewrite !bind_run. cbn [mret M_ret result world_of events fst snd].
  rewrite app_nil_r, !sql_of_app, sql_of_release, Hsql, app_nil_r.
  rewrite db_First_eq. cbn [refused].
  destruct (next_fault (db_faults w1)); cbn [result world_of events fst snd app];
    [in_shapes|].
  destruct (head _) as [d|]; cbn [result world_of events fst snd app];
    [in_shapes|].
  cbn [errors_Is_ErrRecordNotFound negb].
  rewrite !bind_run, db_Raw_next_id_eq. cbn [refused].
  destruct (next_fault (db_faults (db_tick w1)));
    cbn [result world_of events fst snd mret M_ret]; [in_shapes|].
  destruct (sequences (db_tick w1) !! "patient_id_seq") as [s|];
    cbn [result world_of events fst snd mret M_ret]; [|in_shapes].
  destruct (seq_max <? (nextval s).1);
    cbn [result world_of events fst snd mret M_ret]; [in_shapes|].
  set (p' := Patient_with_ID _ p). set (w2 := set_sequences _ _).
  rewrite bind_run. cbn [mret M_ret result world_of events fst snd].
  rewrite app_nil_r, Transaction_eq.
  destruct (next_fault (db_faults w2)); [in_shapes|]. cbv zeta.
  set (w3 := set_tx_aborted false (db_tick w2)).
  destruct (PatientRepository_Create_tx_sql p' w3) as [[Hs Hne]|Hs].
  - destruct (result (PatientRepository.Create_tx p' w3)); [|done].
    cbn [events snd]. rewrite ?sql_of_app, ?sql_of_cons, ?sql_of_app, Hs. in_shapes.
  - destruct (result (PatientRepository.Create_tx p' w3)).
    + cbn [events snd]. rewrite ?sql_of_app, ?sql_of_cons, ?sql_of_app, Hs.
      in_shapes.
    + destruct (tx_aborted _); [|destruct (next_fault _)];
        cbn [events snd]; rewrite ?sql_of_app, ?sql_of_cons, ?sql_of_app, Hs;
        in_shapes.
Qed.

Lemma DoctorRepository_Create_sql (w : World) (tok : string) (d : Doctor) :
  sql_of (events (DoctorRepository.Create tok d w))
  ∈ Create_statements "doctor" "doctor_id_seq".
Proof.
  unfold DoctorRepository.Create. rewrite bind_run.
  first_step (acquire_spec
                ("doctor_lock:" +:+ Doctor_FirstName d +:+ "_" +:+ Doctor_LastName d)
                tok w) as Ha r w1 e1.
  destruct Ha as (_ & _ & _ & _ & _ & _ & Hsql & _).
  destruct r as [locked err]. cbn [result world_of events fst snd].
  destruct locked; cbn [negb].
  2:{ cbn. rewrite app_nil_r, Hsql. in_shapes. }
  unfold defer. rewrite !bind_run. cbn [mret M_ret result world_of events fst snd].
  rewrite app_nil_r, !sql_of_app, sql_of_release, Hsql, app_nil_r.
  rewrite db_First_eq. cbn [refused].
  destruct (next_fault (db_faults w1)); cbn [result world_of events fst snd app];
    [in_shapes|].
  destruct (head _) as [d0|]; cbn [result world_of events fst snd app];
    [in_shapes|].
  cbn [errors_Is_ErrRecordNotFound negb].
  rewrite !bind_run, db_Raw_next_id_eq. cbn [refused].
  destruct (next_fault (db_faults (db_tick w1)));
    cbn [result world_of events fst snd mret M_ret]; [in_shapes|].
  destruct (sequences (db_tick w1) !! "doctor_id_seq") as [s|];
    cbn [result world_of events fst snd mret M_ret]; [|in_shapes].
  destruct (seq_max <? (nextval s).1);
    cbn [result world_of events fst snd mret M_ret]; [in_shapes|].
  set (d' := Doctor_with_ID _ d). set (w2 := set_sequences _ _).
  rewrite bind_run. cbn [mret M_ret result world_of events fst snd].
  rewrite app_nil_r, Transaction_eq.
  destruct (next_fault (db_faults w2)); [in_shapes|]. cbv zeta.
  set (w3 := set_tx_aborted false (db_tick w2)).
  destruct (DoctorRepository_Create_tx_sql d' w3) as [[Hs Hne]|Hs].
  - destruct (result (DoctorRepository.Create_tx d' w3)); [|done].
    cbn [events snd]. rewrite ?sql_of_app, ?sql_of_cons, ?sql_of_app, Hs. in_shapes.
  - destruct (result (DoctorRepository.Create_tx d' w3)).
    + cbn [events snd]. rewrite ?sql_of_app, ?sql_of_cons, ?sql_of_app, Hs.
      in_shapes.
    + destruct (tx_aborted _); [|destruct (next_fault _)];
        cbn [events snd]; rewrite ?sql_of_app, ?sql_of_cons, ?sql_of_app, Hs;
        in_shapes.
Qed.

(** C8, X30: [nextval] advances the counter of its sequence and reads it in
    one step; the identifier is the prefix (which ends with the hyphen)
    followed by the counter padded with zeros to six digits, for a counter
    below one million (DP-000123 for 123); [Create] sends [nextval] before
    the BEGIN of its transaction, hence before the COMMIT; and when the
    insert fails the closure sends the [setval] that takes the counter back
    by one. *)
Theorem sequential_identifiers (prefix : string) (v : Z) :
  0 ≤ v < 1000000 →
  (∀ s, (nextval s).2 = {| last_value := (nextval s).1; is_called := true |}
        ∧ (is_called s = true → (nextval s).1 = last_value s + 1)
        ∧ (is_called s = false → (nextval s).1 = last_value s))
  ∧ (format_id prefix v
     = prefix
         +:+ string_of_list_ascii (replicate (6 - String.length (pretty v)) "0"%char)
         +:+ pretty v
     ∧ String.length
         (string_of_list_ascii (replicate (6 - String.length (pretty v)) "0"%char)
          +:+ pretty v) = 6%nat)
  ∧ format_id "DP-" 123 = "DP-000123"
  ∧ (∀ w tok patient,
       sql_of (events (PatientRepository.Create tok patient w))
       ∈ Create_statements "patient" "patient_id_seq")
  ∧ (∀ w tok doctor,
       sql_of (events (DoctorRepository.Create tok doctor w))
       ∈ Create_statements "doctor" "doctor_id_seq")
  ∧ (∀ w patient,
       result (db_Create patient_table Tx patient w) ≠ None →
       events (PatientRepository.Create_tx patient w)
       = [EvSQL (Insert "patient"); EvSQL (Setval "patient_id_seq")]
       ∧ result (PatientRepository.Create_tx patient w) ≠ None)
  ∧ (∀ w doctor,
       result (db_Create doctor_table Tx doctor w) ≠ None →
       events (DoctorRepository.Create_tx doctor w)
       = [EvSQL (Insert "doctor"); EvSQL (Setval "doctor_id_seq")]
       ∧ result (DoctorRepository.Create_tx doctor w) ≠ None).
Proof.
  intros Hv. split; [|split; [|split; [|split; [|split; [|split]]]]].
  - intros s. unfold nextval. cbn. split; [done|].
    split; intros ->; done.
  - by apply format_id_padded.
  - by vm_compute.
  - intros. apply PatientRepository_Create_sql.
  - intros. apply DoctorRepository_Create_sql.
  - intros. by apply PatientRepository_Create_tx_insert_fails.
  - intros. by apply DoctorRepository_Create_tx_insert_fails.
Qed.

Lemma sequential_identifiers_witness :
  format_id "DR-" 7
  = "DR-" +:+ string_of_list_ascii (replicate (6 - String.length (pretty 7)) "0"%char)
          +:+ pretty 7.
Proof.
  destruct (sequential_identifiers "DR-" 7 ltac:(lia)) as (_ & [H _] & _).
  exact H.
Defined.

(** Past 999999 [LPAD] keeps the first six digits of the counter. *)
Lemma format_id_truncates : format_id "DP-" 1234567 = "DP-123456".
Proof. by vm_compute. Qed.

(** The compensation of a doctor's identifier, when it succeeds, leaves the
    sequence so that the next [nextval] returns the value before the one
    that was taken back. *)
Lemma setval_back_then_nextval (s s' : Seq) :
  is_called s = true →
  setval_back (nextval s).2 = Some s' →
  (nextval s').1 = last_value s.
Proof.
  unfold setval_back, nextval. cbn. intros ->. cbn.
  destruct (_ || _); [done|]. intros [= <-]. cbn. lia.
Qed.
(** ** The bearer token *)

Lemma fold_lor_zero (f : nat → Z) (l : list nat) (r : Z) :
  fold_left (λ result i, Z.lor result (f i)) l r = 0
  ↔ r = 0 ∧ ∀ i, i ∈ l → f i = 0.
Proof.
  revert r. induction l as [|i l IH]; intros r; cbn.
  - split; [|tauto]. intros ->. split; [done|]. by intros i ?%elem_of_nil.
  - rewrite IH, Z.lor_eq_0_iff. split.
    + intros [[-> Hi] Hl]. split; [done|].
      by intros j [->|?]%elem_of_cons; auto.
    + intros [-> H]. split; [split; [done|]|].
      * apply H. by left.
      * intros j Hj. apply H. by right.
Qed.

Lemma byte_at_inj (c d : ascii) :
  Z.of_N (N_of_ascii c) = Z.of_N (N_of_ascii d) → c = d.
Proof.
  intros H%N2Z.inj.
  by rewrite <- (ascii_N_embedding c), <- (ascii_N_embedding d), H.
Qed.

Lemma bytes_eq (a b : string) :
  String.length a = String.length b →
  (∀ i, (i < String.length a)%nat → byte_at a i = byte_at b i) →
  a = b.
Proof.
  revert b. induction a as [|c a IH]; intros [|d b] Hlen H; try done.
  f_equal.
  - apply byte_at_inj. apply (H 0%nat). cbn. lia.
  - apply IH; [by injection Hlen|].
    intros i Hi. apply (H (S i)). cbn. lia.
Qed.

Lemma secureCompare_spec (a b : string) :
  secureCompare a b = true ↔ a = b.
Proof.
  unfold secureCompare.
  destruct (Nat.eqb_spec (String.length a) (String.length b)) as [Hlen|Hlen]; cbn.
  - rewrite Z.eqb_eq, (fold_lor_zero (λ i, Z.lxor (byte_at a i) (byte_at b i))).
    split.
    + intros [_ H]. apply bytes_eq; [done|].
      intros i Hi. apply Z.lxor_eq. apply H. apply elem_of_seq. lia.
    + intros ->. split; [done|]. intros i _. apply Z.lxor_nilpotent.
  - split; [done|]. intros ->. done.
Qed.

(** X1: [secureCompare] is equality of strings: it returns true exactly when
    the two texts have the same length and the same byte at every index,
    and it is false for texts of different lengths whatever they hold. *)
Theorem secureCompare_eq (a b : string) :
  (secureCompare a b = true ↔ a = b)
  ∧ (String.length a ≠ String.length b → secureCompare a b = false).
Proof.
  split; [apply secureCompare_spec|].
  intros Hlen. apply not_true_is_false. intros H%secureCompare_spec. by subst.
Qed.

Lemma substring_0_app (p t : string) :
  substring 0 (String.length p) (p +:+ t) = p.
Proof.
  induction p as [|c p IH]; [by destruct t|].
  change (String c (substring 0 (String.length p) (p +:+ t)) = String c p).
  by rewrite IH.
Qed.

Lemma length_app (p t : string) :
  String.length (p +:+ t) = (String.length p + String.length t)%nat.
Proof.
  induction p as [|c p IH]; [done|].
  change (S (String.length (p +:+ t)) = S (String.length p + String.length t)).
  by rewrite IH.
Qed.

Lemma substring_all (t : string) : substring 0 (String.length t) t = t.
Proof. induction t as [|c t IH]; [done|]. cbn. by rewrite IH. Qed.

Lemma substring_skip_app (p t : string) :
  substring (String.length p) (String.length t) (p +:+ t) = t.
Proof.
  induction p as [|c p IH]; [apply substring_all|]. exact IH.
Qed.

Lemma HasPrefix_app (p t : string) : HasPrefix (p +:+ t) p = true.
Proof.
  unfold HasPrefix. rewrite length_app, substring_0_app.
  rewrite bool_decide_eq_true_2 by done.
  rewrite andb_true_r. apply Nat.leb_le. lia.
Qed.

Lemma TrimPrefix_app (p t : string) : TrimPrefix (p +:+ t) p = t.
Proof.
  unfold TrimPrefix. rewrite HasPrefix_app, length_app.
  replace (String.length p + String.length t - String.length p)%nat
    with (String.length t) by lia.
  apply substring_skip_app.
Qed.

Lemma substring_split (n : nat) (s : string) :
  (n ≤ String.length s)%nat →
  s = substring 0 n s +:+ substring n (String.length s - n) s.
Proof.
  revert s. induction n as [|n IH]; intros s Hn.
  - cbn. rewrite Nat.sub_0_r, substring_all. by destruct s.
  - destruct s as [|c s]; [cbn in Hn; lia|].
    cbn in Hn.
    change (String c s
            = String c (substring 0 n s +:+ substring n (String.length s - n) s)).
    f_equal. apply IH. lia.
Qed.

(** A string that has the prefix is the prefix followed by what
    [TrimPrefix] leaves. *)
Lemma HasPrefix_split (s p : string) :
  HasPrefix s p = true → s = p +:+ TrimPrefix s p.
Proof.
  intros H. unfold TrimPrefix. rewrite H.
  unfold HasPrefix in H. apply andb_true_iff in H as [Hlen Hsub].
  apply Nat.leb_le in Hlen. apply bool_decide_eq_true in Hsub.
  rewrite <- Hsub at 1. by apply substring_split.
Qed.

(** X2: the request goes on exactly when its Authorization header is
    "Bearer " followed by the expected token; every other request is
    answered 401. *)
Theorem ValidateBearerToken_passes_iff (expectedBearerToken authHeader : string) :
  (ValidateBearerToken expectedBearerToken authHeader = Next
   ↔ authHeader = "Bearer " +:+ expectedBearerToken)
  ∧ (authHeader ≠ "Bearer " +:+ expectedBearerToken →
     ∃ text, ValidateBearerToken expectedBearerToken authHeader
             = AbortJSON 401 text).
Proof.
  assert (ValidateBearerToken expectedBearerToken authHeader = Next
          ↔ authHeader = "Bearer " +:+ expectedBearerToken) as Hiff.
  { unfold ValidateBearerToken. split.
    - case_decide; [done|].
      destruct (HasPrefix authHeader "Bearer ") eqn:Hp; [|done]. cbn.
      destruct (secureCompare _ _) eqn:Hc; [|done]. intros _.
      apply secureCompare_spec in Hc. rewrite <- Hc. by apply HasPrefix_split.
    - intros ->. rewrite decide_False by done.
      rewrite HasPrefix_app, TrimPrefix_app. cbn.
      by rewrite (proj2 (secureCompare_spec _ _) eq_refl). }
  split; [exact Hiff|].
  intros Hne. unfold ValidateBearerToken in *.
  case_decide; [by eexists|].
  destruct (HasPrefix authHeader "Bearer "); [|by eexists]. cbn in *.
  destruct (secureCompare _ _); [|by eexists]. cbn in *.
  destruct Hne. by apply Hiff.
Qed.

(** ** Passwords *)

Lemma MatchString_spec (class : ascii → bool) (s : string) :
  MatchString class s = true
  ↔ ∃ c, c ∈ list_ascii_of_string s ∧ class c = true.
Proof.
  unfold MatchString. rewrite existsb_exists.
  by setoid_rewrite list_elem_of_In.
Qed.

Lemma validatePassword_eq (password : string) (w : World) :
  result (validatePassword password w)
  = (if (String.length password <? 8)%nat then Some ErrPasswordTooShort
     else if MatchString lowercaseRegex password
             && MatchString uppercaseRegex password
             && MatchString digitRegex password
             && MatchString specialRegex password
          then None else Some ErrPasswordNotComplex)
  ∧ world_of (validatePassword password w) = w.
Proof.
  unfold validatePassword, log_Println.
  destruct (String.length password <? 8)%nat; [done|].
  destruct (MatchString lowercaseRegex password),
           (MatchString uppercaseRegex password),
           (MatchString digitRegex password),
           (MatchString specialRegex password); done.
Qed.

(** X3: a password is accepted exactly when it has at least 8 bytes and
    holds a lowercase letter, an uppercase letter, a digit and one of
    [@$!%*?&]; a shorter one is refused as too short whatever it holds, any
    other as not complex.  The check changes nothing. *)
Theorem validatePassword_accepts_iff (password : string) (w : World) :
  (result (validatePassword password w) = None
   ↔ (8 ≤ String.length password)%nat
     ∧ (∃ c, c ∈ list_ascii_of_string password ∧ lowercaseRegex c = true)
     ∧ (∃ c, c ∈ list_ascii_of_string password ∧ uppercaseRegex c = true)
     ∧ (∃ c, c ∈ list_ascii_of_string password ∧ digitRegex c = true)
     ∧ (∃ c, c ∈ list_ascii_of_string password ∧ specialRegex c = true))
  ∧ ((String.length password < 8)%nat →
     result (validatePassword password w) = Some ErrPasswordTooShort)
  ∧ ((8 ≤ String.length password)%nat →
     result (validatePassword password w) ≠ None →
     result (validatePassword password w) = Some ErrPasswordNotComplex)
  ∧ world_of (validatePassword password w) = w.
Proof.
  destruct (validatePassword_eq password w) as [-> ->].
  rewrite <- !MatchString_spec.
  destruct (Nat.ltb_spec (String.length password) 8) as [Hlt|Hge].
  - split; [|split; [done|split; [lia|done]]].
    split; [done|]. lia.
  - split; [|split; [lia|split; [|done]]].
    + destruct (MatchString lowercaseRegex password),
               (MatchString uppercaseRegex password),
               (MatchString digitRegex password),
               (MatchString specialRegex password); cbn; split; try done;
        intros (_ & ? & ? & ? & ?); done.
    + intros _. by repeat case_match.
Qed.

(** ** Tokens *)

Lemma role_matches_spec (claims : TokenClaims) (requiredRoles : list string) :
  role_matches claims requiredRoles = true ↔ Role claims ∈ requiredRoles.
Proof.
  induction requiredRoles as [|role roles IH]; cbn.
  - split; [done|]. by intros ?%elem_of_nil.
  - case_decide as Hr.
    + split; [|done]. intros _. rewrite Hr. by left.
    + rewrite IH. split; [by right|].
      by intros [?|?]%elem_of_cons.
Qed.

Lemma ValidateToken_eq (key : string)
    (Decrypt : string → string → TokenClaims → TokenClaims * option error)
    (Now : Z) (token : string) (requiredRoles : list string) (w : World) :
  String.length key = 32%nat →
  result (ValidateToken key Decrypt Now token requiredRoles w)
  = Some
      (match (Decrypt token key TokenClaims_zero).2 with
       | Some e =>
           (None, Some (Errorf "failed to parse token: %w"
                          (Some (Errorf "failed to decrypt token: %w" (Some e)))))
       | None =>
           let claims := (Decrypt token key TokenClaims_zero).1 in
           if Expiry claims <? Now then (None, Some (New "token expired"))
           else if (length requiredRoles =? 0)%nat then (Some claims, None)
           else if role_matches claims requiredRoles then (Some claims, None)
           else (None, Some (New "insufficient permissions"))
       end)
  ∧ world_of (ValidateToken key Decrypt Now token requiredRoles w) = w.
Proof.
  intros Hkey. unfold ValidateToken, parseToken, GetSymmetricKey, log_Printf.
  rewrite Hkey. cbn [Nat.eqb negb]. run.
  destruct (Decrypt token key TokenClaims_zero) as [claims [e|]]; cbn; [done|].
  destruct (Expiry claims <? Now); cbn; [done|].
  destruct (length requiredRoles =? 0)%nat; cbn; [done|].
  by destruct (role_matches claims requiredRoles).
Qed.

Lemma ValidateToken_accepts (key : string)
    (Decrypt : string → string → TokenClaims → TokenClaims * option error)
    (Now : Z) (token : string) (requiredRoles : list string) (w : World)
    (claims : TokenClaims) :
  String.length key = 32%nat →
  result (ValidateToken key Decrypt Now token requiredRoles w)
  = Some (Some claims, None)
  ↔ Decrypt token key TokenClaims_zero = (claims, None)
    ∧ Now ≤ Expiry claims
    ∧ (requiredRoles = [] ∨ Role claims ∈ requiredRoles).
Proof.
  intros Hkey.
  destruct (ValidateToken_eq key Decrypt Now token requiredRoles w Hkey) as [-> _].
  destruct (Decrypt token key TokenClaims_zero) as [c [e|]]; cbn.
  { split; [done|]. by intros [[=] _]. }
  destruct (Z.ltb_spec (Expiry c) Now) as [Hexp|Hexp].
  { split; [done|]. intros ([= ->] & ? & _). lia. }
  destruct requiredRoles as [|role roles]; cbn [length Nat.eqb].
  { split; [intros [= ->]; auto|]. by intros ([= ->] & _). }
  destruct (role_matches c (role :: roles)) eqn:Hm.
  - apply role_matches_spec in Hm.
    split; [intros [= ->]; auto|]. by intros ([= ->] & _).
  - split; [done|]. intros ([= ->] & _ & [?|Hin]); [done|].
    apply role_matches_spec in Hin. congruence.
Qed.

(** X4: with a key of 32 bytes, [ValidateToken] returns the claims exactly
    when the token decrypts, the instant of the call is not after the expiry
    and either no role is required or the role of the claims is one of the
    required roles; it always returns either claims or an error, never both
    and never neither; with a key of another length the process ends
    whatever the token. *)
Theorem ValidateToken_accepts_iff (key : string)
    (Decrypt : string → string → TokenClaims → TokenClaims * option error)
    (Now : Z) (token : string) (requiredRoles : list string) (w : World)
    (claims : TokenClaims) :
  String.length key = 32%nat →
  (result (ValidateToken key Decrypt Now token requiredRoles w)
   = Some (Some claims, None)
   ↔ Decrypt token key TokenClaims_zero = (claims, None)
     ∧ Now ≤ Expiry claims
     ∧ (requiredRoles = [] ∨ Role claims ∈ requiredRoles))
  ∧ (∃ r, result (ValidateToken key Decrypt Now token requiredRoles w) = Some r
          ∧ (is_Some r.1 ↔ r.2 = None))
  ∧ (∀ key', String.length key' ≠ 32%nat →
       result (ValidateToken key' Decrypt Now token requiredRoles w) = None).
Proof.
  intros Hkey. split; [by apply ValidateToken_accepts|].
  destruct (ValidateToken_eq key Decrypt Now token requiredRoles w Hkey) as [-> _].
  split.
  - eexists. split; [done|].
    destruct (Decrypt token key TokenClaims_zero) as [c [e|]]; cbn.
    { split; [by intros [? ?]|done]. }
    repeat case_match; cbn; split; try done; by intros [? ?].
  - intros key' Hkey'. unfold ValidateToken, parseToken, GetSymmetricKey, log_Printf.
    by rewrite (proj2 (Nat.eqb_neq _ _) Hkey').
Qed.

Lemma ValidateToken_accepts_iff_witness :
  result (ValidateToken toy_key toy_Decrypt 50 "v2.local.admin" ["Admin"] empty_world)
  = Some (Some {| UserID := "7"; Role := "Admin"; Expiry := 100 |}, None).
Proof.
  apply (ValidateToken_accepts_iff toy_key toy_Decrypt 50 "v2.local.admin" ["Admin"]
           empty_world {| UserID := "7"; Role := "Admin"; Expiry := 100 |} eq_refl).
  split; [reflexivity|]. split; [cbn; lia|]. right. by left.
Defined.

(** X5: a request that [TokenAuthMiddleware] hands on carries a token that
    decrypts, has not expired and has one of the four roles; its context
    then holds the user and the role of the claims, so that behind it
    [RoleAuthMiddleware] hands the request on exactly when the role of the
    claims is the required one, and answers 403 otherwise. *)
Theorem TokenAuth_then_RoleAuth (key : string)
    (Decrypt : string → string → TokenClaims → TokenClaims * option error)
    (Now : Z) (token : string) (ctx ctx' : gmap string string) (w : World)
    (requiredRole : string) :
  String.length key = 32%nat →
  result (TokenAuthMiddleware key Decrypt Now token ctx w) = Some (Next, ctx') →
  ∃ claims,
    Decrypt token key TokenClaims_zero = (claims, None)
    ∧ token ≠ "" ∧ Now ≤ Expiry claims
    ∧ Role claims ∈ ["Admin"; "Doctor"; "Receptionist"; "Patient"]
    ∧ ExtractUserIDFromContext ctx' = (UserID claims, None)
    ∧ ExtractUserRoleFromContext ctx' = (Role claims, None)
    ∧ (RoleAuthMiddleware requiredRole ctx' = Next ↔ Role claims = requiredRole)
    ∧ (Role claims ≠ requiredRole →
       RoleAuthMiddleware requiredRole ctx'
       = AbortJSON 403 "Forbidden: insufficient privileges").
Proof.
  intros Hkey. unfold TokenAuthMiddleware.
  case_decide as Htok; [done|]. rewrite bind_run.
  pose proof (ValidateToken_accepts key Decrypt Now token
                ["Admin"; "Doctor"; "Receptionist"; "Patient"] w) as Hv.
  destruct (result (ValidateToken key Decrypt Now token _ w))
    as [[[claims|] [e|]]|] eqn:Hr; cbn; try done.
  intros [= <-].
  destruct (Hv claims Hkey) as [Hacc _].
  destruct (Hacc eq_refl) as (Hd & Hexp & [?|Hrole]); [done|].
  exists claims. split; [done|]. split; [done|]. split; [done|].
  split; [done|].
  assert (ExtractUserRoleFromContext
            (<[userRoleKey := Role claims]> (<[userIDKey := UserID claims]> ctx))
          = (Role claims, None)) as Hx.
  { unfold ExtractUserRoleFromContext. by rewrite lookup_insert_eq. }
  split.
  { unfold ExtractUserIDFromContext.
    by rewrite lookup_insert_ne, lookup_insert_eq. }
  split; [done|].
  unfold RoleAuthMiddleware. rewrite Hx.
  split.
  - case_decide; split; done.
  - intros Hne. by rewrite decide_True.
Qed.

Lemma TokenAuth_then_RoleAuth_witness :
  RoleAuthMiddleware "Doctor" {[ "userRole" := "Admin"; "userID" := "7" ]}
  = AbortJSON 403 "Forbidden: insufficient privileges".
Proof.
  destruct (TokenAuth_then_RoleAuth toy_key toy_Decrypt 50 "v2.local.admin" ∅
              {[ "userRole" := "Admin"; "userID" := "7" ]} empty_world "Doctor"
              eq_refl eq_refl)
    as (claims & Hd & _ & _ & _ & _ & _ & _ & H).
  apply H. injection Hd as <-. done.
Defined.

(** ** Reset codes *)

Lemma SetResetCode_eq (email code : string) (w : World) :
  SetResetCode email code w
  = Cache.Set_ ("reset_code:" +:+ email) code (15 * Minute) w.
Proof.
  unfold SetResetCode, NewCache. run. rewrite Cache_Set_eq.
  destruct (RedisClient w) eqn:Hc; cbn; [|done].
  rewrite Cache_Set_eq, Hc. by destruct (next_fault _).
Qed.

Lemma DeleteResetCode_eq (email : string) (w : World) :
  DeleteResetCode email w = Cache.Delete ("reset_code:" +:+ email) w.
Proof.
  unfold DeleteResetCode, NewCache. run. rewrite Cache_Delete_eq.
  destruct (RedisClient w) eqn:Hc; cbn; [|done].
  rewrite Cache_Delete_eq, Hc. by destruct (next_fault _).
Qed.

Lemma GetResetCode_eq (email : string) (w : World) :
  result (GetResetCode email w)
  = if RedisClient w then
      if next_fault (redis_faults w) then (None, Some ErrIO)
      else match redis w !! ("reset_code:" +:+ email) with
           | Some code => if decide (code = "") then (None, None) else (Some code, None)
           | None => (None, None)
           end
    else (None, Some (New "Redis client is not initialized")).
Proof.
  unfold GetResetCode, NewCache. run.
  destruct (RedisClient w) eqn:Hc; cbn; [|done].
  rewrite Cache_Get_eq, Hc.
  destruct (next_fault _); cbn; [done|].
  destruct (redis w !! _) as [code|]; cbn; [|done].
  by case_decide.
Qed.

Lemma reset_key_inj (email email' : string) :
  "reset_code:" +:+ email = "reset_code:" +:+ email' → email = email'.
Proof. intros [= H]. exact H. Qed.

Lemma SetResetCode_read_back (w : World) (email code : string) :
  result (SetResetCode email code w) = None →
  next_fault (redis_faults (world_of (SetResetCode email code w))) = false →
  result (GetResetCode email (world_of (SetResetCode email code w)))
  = (if decide (code = "") then None else Some code, None).
Proof.
  rewrite SetResetCode_eq, Cache_Set_eq.
  destruct (RedisClient w) eqn:Hc; [|done].
  destruct (next_fault (redis_faults w)) eqn:Hf; [done|].
  cbn [result world_of fst snd]. intros _ Hf1.
  rewrite GetResetCode_eq. cbn [RedisClient set_redis redis_tick set_redis_faults].
  rewrite Hc. cbn [redis_faults set_redis redis_tick set_redis_faults] in Hf1 |- *.
  rewrite Hf1. cbn [redis set_redis redis_tick set_redis_faults].
  rewrite lookup_insert_eq. by case_decide.
Qed.

(** X6: a reset code that was stored is the one read back for that address,
    unless it is the empty text, which reads back as no code; the codes of
    the other addresses read as before; once deleted the code reads back as
    no code. *)
Theorem reset_code_round_trip (w : World) (email code : string) :
  result (SetResetCode email code w) = None →
  let w1 := world_of (SetResetCode email code w) in
  next_fault (redis_faults w1) = false →
  result (GetResetCode email w1)
  = (if decide (code = "") then None else Some code, None)
  ∧ (∀ email', email' ≠ email →
       next_fault (redis_faults w) = false →
       result (GetResetCode email' w1) = result (GetResetCode email' w))
  ∧ (result (DeleteResetCode email w1) = None →
     ∀ w2, redis w2 = redis (world_of (DeleteResetCode email w1)) →
           RedisClient w2 = true → next_fault (redis_faults w2) = false →
           result (GetResetCode email w2) = (None, None)).
Proof.
  rewrite SetResetCode_eq, Cache_Set_eq. cbv zeta.
  destruct (RedisClient w) eqn:Hc; [|done].
  destruct (next_fault (redis_faults w)) eqn:Hf; [done|].
  cbn [result world_of fst snd]. intros _ Hf1.
  split; [|split].
  - pose proof (SetResetCode_read_back w email code) as H.
    rewrite SetResetCode_eq, Cache_Set_eq, Hc, Hf in H. by apply H.
  - intros email' Hne _. rewrite !GetResetCode_eq.
    cbn [RedisClient redis redis_faults set_redis redis_tick set_redis_faults] in Hf1 |- *.
    rewrite Hc, Hf, Hf1. rewrite lookup_insert_ne; [done|].
    intros H. by apply reset_key_inj in H.
  - rewrite DeleteResetCode_eq, Cache_Delete_eq.
    cbn [RedisClient redis redis_faults set_redis redis_tick set_redis_faults] in Hf1 |- *.
    rewrite Hc, Hf1. cbn [result world_of fst snd].
    intros _ w2 Hw2 Hc2 Hf2. rewrite GetResetCode_eq, Hc2, Hf2, Hw2.
    cbn [redis set_redis redis_tick set_redis_faults].
    by rewrite lookup_delete_eq.
Qed.

Lemma reset_code_round_trip_witness :
  result (GetResetCode "ann@example.com"
            (world_of (SetResetCode "ann@example.com" "004217" empty_world)))
  = (Some "004217", None).
Proof.
  destruct (reset_code_round_trip empty_world "ann@example.com" "004217"
              eq_refl eq_refl) as [H _].
  exact H.
Defined.

(** X7: the check of [ChangePassword] lets a request through exactly when
    the client is initialised, the call does not fail, and a code that is
    not the empty text is stored for the address and is the code of the
    request.  With no code stored every request is refused, also one with
    an empty code. *)
Theorem ChangePassword_code_accepted_iff (w : World) (email code : string) :
  (result (ChangePassword_code_refused email code w) = false
   ↔ RedisClient w = true ∧ next_fault (redis_faults w) = false
     ∧ code ≠ "" ∧ redis w !! ("reset_code:" +:+ email) = Some code)
  ∧ (redis w !! ("reset_code:" +:+ email) = None →
     result (ChangePassword_code_refused email code w) = true).
Proof.
  unfold ChangePassword_code_refused. rewrite bind_run.
  pose proof (GetResetCode_eq email w) as Hg.
  destruct (result (GetResetCode email w)) as [stored err] eqn:Hr.
  cbn [result world_of events fst snd mret M_ret].
  destruct (RedisClient w); [|injection Hg as -> ->; split; [|done];
                               split; [done|by intros [? _]]].
  destruct (next_fault (redis_faults w));
    [injection Hg as -> ->; split; [|done]; split; [done|by intros (_ & ? & _)]|].
  destruct (redis w !! _) as [c|];
    [|injection Hg as -> ->; split; [|done]; split; [done|by intros (_ & _ & _ & ?)]].
  case_decide as Hc; injection Hg as -> ->; cbn.
  - split; [|done]. split; [done|]. intros (_ & _ & Hne & [= <-]). done.
  - split; [|done]. split.
    + intros Hb%bool_decide_eq_false. apply dec_stable in Hb. by subst.
    + intros (_ & _ & _ & [= ->]). by apply bool_decide_eq_false_2; auto.
Qed.

(** *** The codes that are generated *)

Lemma pretty_N_char_digit (x : N) :
  (x < 10)%N →
  digitRegex (pretty_N_char x) = true
  ∧ (N_of_ascii (pretty_N_char x) - 48)%N = x.
Proof.
  intros Hx.
  assert (x = 0 ∨ x = 1 ∨ x = 2 ∨ x = 3 ∨ x = 4 ∨ x = 5 ∨ x = 6 ∨ x = 7
          ∨ x = 8 ∨ x = 9)%N as H by lia.
  by destruct H as [->|[->|[->|[->|[->|[->|[->|[->|[->| ->]]]]]]]]].
Qed.

Lemma pretty_N_go_digits (x : N) (s : string) :
  Forall (λ c, digitRegex c = true) (list_ascii_of_string s) →
  Forall (λ c, digitRegex c = true) (list_ascii_of_string (pretty_N_go x s)).
Proof.
  revert s. induction (N.lt_wf_0 x) as [x _ IH]; intros s Hs.
  destruct (decide (x = 0%N)) as [->|Hne]; [by rewrite pretty_N_go_0|].
  rewrite pretty_N_go_step by lia.
  apply IH; [apply N.div_lt; lia|].
  cbn. constructor; [|done].
  apply pretty_N_char_digit. by apply N.mod_lt.
Qed.

Lemma pretty_N_go_value (x : N) (s : string) :
  fold_left (λ acc c, 10 * acc + (N_of_ascii c - 48))%N
    (list_ascii_of_string (pretty_N_go x s)) 0%N
  = fold_left (λ acc c, 10 * acc + (N_of_ascii c - 48))%N
      (list_ascii_of_string s) x.
Proof.
  revert s. induction (N.lt_wf_0 x) as [x _ IH]; intros s.
  destruct (decide (x = 0%N)) as [->|Hne]; [by rewrite pretty_N_go_0|].
  rewrite pretty_N_go_step by lia.
  rewrite IH by (apply N.div_lt; lia). cbn.
  destruct (pretty_N_char_digit (x `mod` 10)) as [_ ->]; [by apply N.mod_lt|].
  f_equal. rewrite (N.div_mod x 10) at 3 by done. lia.
Qed.

Lemma pretty_Z_value (n : Z) :
  0 ≤ n → decimal_value (pretty n) = Z.to_N n.
Proof.
  intros Hn. destruct n as [|x|x]; [done| |lia].
  change (pretty (Z.pos x)) with (pretty (N.pos x)).
  unfold decimal_value, pretty, pretty_N. rewrite decide_False by done.
  by rewrite pretty_N_go_value.
Qed.

Lemma pretty_Z_digits (n : Z) :
  0 ≤ n → Forall (λ c, digitRegex c = true) (list_ascii_of_string (pretty n)).
Proof.
  intros Hn. destruct n as [|x|x]; [by repeat constructor| |lia].
  change (pretty (Z.pos x)) with (pretty (N.pos x)).
  unfold pretty, pretty_N. rewrite decide_False by done.
  by apply pretty_N_go_digits.
Qed.

Lemma list_ascii_of_string_app (s t : string) :
  list_ascii_of_string (s +:+ t)
  = (list_ascii_of_string s ++ list_ascii_of_string t)%list.
Proof.
  induction s as [|c s IH]; [done|].
  change (c :: list_ascii_of_string (s +:+ t)
          = c :: (list_ascii_of_string s ++ list_ascii_of_string t)%list).
  by rewrite IH.
Qed.

Lemma Sprintf_06d_eq (n : Z) :
  0 ≤ n →
  Sprintf_06d n
  = string_of_list_ascii (replicate (6 - String.length (pretty n)) "0"%char)
    +:+ pretty n.
Proof.
  intros Hn. unfold Sprintf_06d.
  destruct (Z.ltb_spec n 0) as [|_]; [lia|].
  rewrite Z.abs_eq by done. cbn [String.length]. by rewrite Nat.sub_0_r.
Qed.

Lemma decimal_value_zeros (k : nat) (s : string) :
  decimal_value (string_of_list_ascii (replicate k "0"%char) +:+ s)
  = decimal_value s.
Proof.
  unfold decimal_value. rewrite list_ascii_of_string_app, fold_left_app.
  rewrite list_ascii_of_string_of_list_ascii.
  f_equal. induction k as [|k IH]; [done|]. exact IH.
Qed.

(** X8: for a draw below one million the reset code is six decimal digits
    that denote the draw, so that two draws give the same code only when
    they are the same draw; stored by [SetResetCode] it is the code
    [GetResetCode] reads back. *)
Theorem GenerateResetCode_six_digits (n : Z) :
  0 ≤ n < 1000000 →
  String.length (GenerateResetCode n) = 6%nat
  ∧ Forall (λ c, digitRegex c = true) (list_ascii_of_string (GenerateResetCode n))
  ∧ decimal_value (GenerateResetCode n) = Z.to_N n
  ∧ (∀ m, 0 ≤ m < 1000000 → GenerateResetCode m = GenerateResetCode n → m = n)
  ∧ (∀ w email,
       result (SetResetCode email (GenerateResetCode n) w) = None →
       next_fault (redis_faults (world_of (SetResetCode email (GenerateResetCode n) w)))
       = false →
       result (GetResetCode email
                 (world_of (SetResetCode email (GenerateResetCode n) w)))
       = (Some (GenerateResetCode n), None)).
Proof.
  intros Hn. unfold GenerateResetCode.
  assert (decimal_value (Sprintf_06d n) = Z.to_N n) as Hval.
  { rewrite Sprintf_06d_eq, decimal_value_zeros, pretty_Z_value; [done|lia..]. }
  assert (String.length (Sprintf_06d n) = 6%nat) as Hlen.
  { rewrite Sprintf_06d_eq by lia.
    destruct (format_id_padded "" n Hn) as [_ H]. exact H. }
  split; [done|]. split; [|split; [done|split]].
  - rewrite Sprintf_06d_eq, list_ascii_of_string_app by lia.
    apply Forall_app. split; [|apply pretty_Z_digits; lia].
    rewrite list_ascii_of_string_of_list_ascii.
    apply Forall_replicate. done.
  - intros m Hm Heq.
    assert (decimal_value (Sprintf_06d m) = Z.to_N m) as Hm'.
    { rewrite Sprintf_06d_eq, decimal_value_zeros, pretty_Z_value; [done|lia..]. }
    rewrite Heq, Hval in Hm'. lia.
  - intros w email Hok Hf.
    rewrite (SetResetCode_read_back w email (Sprintf_06d n) Hok Hf).
    rewrite decide_False; [done|].
    intros E. by rewrite E in Hlen.
Qed.

Lemma GenerateResetCode_six_digits_witness :
  String.length (GenerateResetCode 4217) = 6%nat.
Proof. by destruct (GenerateResetCode_six_digits 4217 ltac:(lia)) as [H _]. Defined.

(** ** Locks *)

(** X9: a lock that is held is not given again: after a successful
    [NewLock] the key holds the token of its owner, and while it does every
    further [NewLock] on the key, with the same or another token, returns
    false and leaves the keyspace as it is, whether or not the call reaches
    the server. *)
Theorem NewLock_mutual_exclusion (w : World) (key a b : string) (ttl ttl' : Duration) :
  result (NewLock key a ttl w) = (true, None) →
  let w1 := world_of (NewLock key a ttl w) in
  redis w !! key = None
  ∧ redis w1 = <[key := a]> (redis w)
  ∧ (∀ w2, redis w2 !! key = Some a →
       (result (NewLock key b ttl' w2)).1 = false
       ∧ redis (world_of (NewLock key b ttl' w2)) = redis w2)
  ∧ (result (NewLock key b ttl' w1)).1 = false.
Proof.
  rewrite NewLock_eq. cbv zeta.
  destruct (RedisClient w) eqn:Hc; [|done].
  destruct (next_fault (redis_faults w)); [done|].
  destruct (redis w !! key) eqn:Hk; [done|]. intros _.
  cbn [result world_of fst snd].
  assert (∀ w2, redis w2 !! key = Some a →
            (result (NewLock key b ttl' w2)).1 = false
            ∧ redis (world_of (NewLock key b ttl' w2)) = redis w2) as Hheld.
  { intros w2 Hw2. rewrite NewLock_eq, Hw2.
    destruct (RedisClient w2); [|done]. by destruct (next_fault _). }
  split; [done|]. split; [done|]. split; [exact Hheld|].
  apply Hheld. cbn. apply lookup_insert_eq.
Qed.

Lemma NewLock_mutual_exclusion_witness :
  (result (NewLock "patient_lock:DP-000001" "t2" (10 * Second)
             (world_of (NewLock "patient_lock:DP-000001" "t1" (10 * Second)
                          clinic_world)))).1 = false.
Proof.
  by destruct (NewLock_mutual_exclusion clinic_world "patient_lock:DP-000001"
                 "t1" "t2" (10 * Second) (10 * Second) eq_refl) as (_ & _ & _ & H).
Defined.

(** X10: taking a lock and releasing it with the same token gives the
    keyspace back as it was, and the lock can be taken again. *)
Theorem lock_round_trip (w : World) (key token : string) (ttl : Duration) :
  result (NewLock key token ttl w) = (true, None) →
  let w1 := world_of (NewLock key token ttl w) in
  next_fault (redis_faults w1) = false →
  let w2 := world_of (ReleaseLock key token w1) in
  result (ReleaseLock key token w1) = None
  ∧ redis w2 = redis w
  ∧ (next_fault (redis_faults w2) = false →
     ∀ token' ttl', result (NewLock key token' ttl' w2) = (true, None)).
Proof.
  rewrite NewLock_eq. cbv zeta.
  destruct (RedisClient w) eqn:Hc; [|done].
  destruct (next_fault (redis_faults w)); [done|].
  destruct (redis w !! key) eqn:Hk; [done|]. intros _.
  cbn [result world_of fst snd]. intros Hf.
  rewrite ReleaseLock_eq. cbn [RedisClient set_redis redis_tick set_redis_faults].
  rewrite Hc, Hf.
  rewrite decide_True by (cbn; apply lookup_insert_eq).
  cbn [result world_of fst snd].
  assert (delete key (<[key := token]> (redis w)) = redis w) as Hback.
  { rewrite delete_insert_eq. by apply delete_id. }
  split; [done|]. split; [exact Hback|].
  intros Hf2 token' ttl'. rewrite NewLock_eq.
  cbn [RedisClient redis redis_faults set_redis redis_tick set_redis_faults] in *.
  by rewrite Hc, Hf2, Hback, Hk.
Qed.

Lemma lock_round_trip_witness :
  redis (world_of (ReleaseLock "patient_lock:DP-000001" "t1"
                     (world_of (NewLock "patient_lock:DP-000001" "t1" (10 * Second)
                                  clinic_world))))
  = redis clinic_world.
Proof.
  by destruct (lock_round_trip clinic_world "patient_lock:DP-000001" "t1"
                 (10 * Second) eq_refl eq_refl) as (_ & H & _).
Defined.

(** ** Cache entries *)

(** X11: what [Set] stores is what [Get] returns, until [Delete] removes it,
    after which [Get] returns the empty text of a miss; the entries under
    other keys are not touched. *)
Theorem Cache_Set_Get_Delete (w : World) (key value : string) (d : Duration) :
  result (Cache.Set_ key value d w) = None →
  let w1 := world_of (Cache.Set_ key value d w) in
  next_fault (redis_faults w1) = false →
  let w2 := world_of (Cache.Delete key w1) in
  result (Cache.Get key w1) = (value, None)
  ∧ result (Cache.Delete key w1) = None
  ∧ (next_fault (redis_faults w2) = false → result (Cache.Get key w2) = ("", None))
  ∧ (∀ k, k ≠ key → redis w1 !! k = redis w !! k ∧ redis w2 !! k = redis w !! k).
Proof.
  rewrite Cache_Set_eq. cbv zeta.
  destruct (RedisClient w) eqn:Hc; [|done].
  destruct (next_fault (redis_faults w)); [done|]. intros _.
  cbn [result world_of fst snd]. intros Hf.
  rewrite Cache_Get_eq, Cache_Delete_eq.
  cbn [RedisClient redis redis_faults set_redis redis_tick set_redis_faults] in *.
  rewrite Hc, Hf, lookup_insert_eq. cbn [result world_of fst snd].
  split; [done|]. split; [done|]. split.
  - intros Hf2. rewrite Cache_Get_eq.
    cbn [RedisClient redis redis_faults set_redis redis_tick set_redis_faults] in *.
    by rewrite Hc, Hf2, lookup_delete_eq.
  - intros k Hk. cbn. by rewrite lookup_delete_ne, lookup_insert_ne.
Qed.

Lemma Cache_Set_Get_Delete_witness :
  result (Cache.Get "doctor_cache:DR-000001"
            (world_of (Cache.Set_ "doctor_cache:DR-000001" "{kim}" (7 * 24 * Hour)
                         clinic_world)))
  = ("{kim}", None).
Proof.
  by destruct (Cache_Set_Get_Delete clinic_world "doctor_cache:DR-000001" "{kim}"
                 (7 * 24 * Hour) eq_refl eq_refl) as (H & _).
Defined.

Lemma DeleteAll_loop_lookup (keys : list string) (w : World) (k : string) :
  (k ∉ keys →
   redis (world_of (Cache.DeleteAll_loop keys w)) !! k = redis w !! k)
  ∧ (result (Cache.DeleteAll_loop keys w) = None → k ∈ keys →
     redis (world_of (Cache.DeleteAll_loop keys w)) !! k = None).
Proof.
  split.
  - revert w. induction keys as [|k' keys IH]; intros w Hk; [done|].
    apply not_elem_of_cons in Hk as [Hne Hk].
    cbn [Cache.DeleteAll_loop]. rewrite bind_run, DEL_eq.
    destruct (next_fault (redis_faults w)); cbn; [done|].
    rewrite IH by done. cbn. by rewrite lookup_delete_ne.
  - intros Hok Hin.
    by destruct (DeleteAll_loop_spec keys w) as (_ & _ & _ & _ & _ & H); apply H.
Qed.


Lemma glob_match_literal_char (c : ascii) (p k : string) :
  negb (bool_decide (c ∈ ["*"; "?"; "\"; "["]%char)) = true →
  glob_match (String c p) k
  = match k with
    | EmptyString => false
    | String d k' => bool_decide (c = d) && glob_match p k'
    end.
Proof.
  intros Hc.
  destruct c as [[] [] [] [] [] [] [] []]; try done;
    vm_compute in Hc; discriminate.
Qed.

Lemma glob_match_literal (p k : string) :
  literal p = true → (glob_match p k = true ↔ k = p).
Proof.
  unfold literal. revert k. induction p as [|c p IH]; intros k Hp.
  - destruct k; cbn; split; done.
  - cbn in Hp. apply andb_true_iff in Hp as [Hc Hp].
    rewrite glob_match_literal_char by done.
    destruct k as [|d k]; [done|].
    rewrite andb_true_iff, bool_decide_eq_true, IH by done.
    split; [by intros [-> ->]|by intros [= -> ->]].
Qed.

(** X13: [DeleteAll] with a pattern that has no special character, as the
    repositories call it for their collection keys, deletes the key that is
    the pattern itself and no other. *)
Theorem Cache_DeleteAll_literal (w : World) (pattern : string) :
  literal pattern = true →
  result (Cache.DeleteAll pattern w) = None →
  redis (world_of (Cache.DeleteAll pattern w)) = delete pattern (redis w).
Proof.
  intros Hlit Hok. apply map_eq. intros k.
  destruct (decide (k = pattern)) as [->|Hne].
  - rewrite lookup_delete_eq. apply Cache_DeleteAll_gone; [done|].
    by apply glob_match_literal.
  - rewrite lookup_delete_ne by done.
    rewrite Cache_DeleteAll_eq.
    destruct (RedisClient w); [|done].
    destruct (next_fault (redis_faults w)); [done|]. cbn.
    destruct (DeleteAll_loop_lookup (scan_keys pattern (redis w)) (redis_tick w) k)
      as [Hout _].
    rewrite Hout; [done|].
    rewrite elem_of_scan_keys. intros [Hg%glob_match_literal _]; done.
Qed.

Lemma Cache_DeleteAll_literal_witness :
  redis (world_of (Cache.DeleteAll "patients_cache" clinic_world))
  = delete "patients_cache" (redis clinic_world).
Proof.
  apply (Cache_DeleteAll_literal clinic_world "patients_cache"); reflexivity.
Defined.

(** ** Reading patients *)

Lemma PatientRepository_invalidate_gone (id : string) (w : World) :
  result (PatientRepository.invalidate id w) = None →
  redis (world_of (PatientRepository.invalidate id w)) !! getPatientCacheKey id = None
  ∧ redis (world_of (PatientRepository.invalidate id w)) !! "patients_cache" = None.
Proof.
  unfold PatientRepository.invalidate. rewrite bind_run.
  pose proof (Cache_Delete_gone (getPatientCacheKey id) w) as Hgone.
  destruct (result (Cache.Delete (getPatientCacheKey id) w)) as [e|]; [done|].
  cbn [result world_of events fst snd]. intros Hok.
  destruct (cache_op_DeleteAll "patients_cache"
              (world_of (Cache.Delete (getPatientCacheKey id) w)))
    as (_ & _ & Hs & _).
  split; [by apply Hs, Hgone|].
  by apply Cache_DeleteAll_gone.
Qed.

Lemma PatientRepository_Update_persists (w : World) (tok : string) (p : Patient) :
  result (PatientRepository.Update tok p w) = None →
  DB (world_of (PatientRepository.Update tok p w))
  = with_rows patient_table (saved patient_table p (patient (DB w))) (DB w)
  ∧ redis (world_of (PatientRepository.Update tok p w)) !! getPatientCacheKey (ID p)
    = None.
Proof.
  unfold PatientRepository.Update. rewrite bind_run.
  first_step (acquire_spec ("patient_lock:" +:+ ID p) tok w) as Ha r w1 e1.
  destruct Ha as ((Hdb1 & _ & _) & _).
  destruct r as [locked err]. cbn [result world_of events fst snd].
  destruct locked; cbn [negb]; [|done].
  unfold defer. rewrite !bind_run. cbn [mret M_ret result world_of events fst snd].
  match goal with
  | |- context [release ?k ?v ?w'] =>
      destruct (release_spec k v w') as ((Hdbr & _) & _ & _ & _ & Hsr & _)
  end.
  rewrite Hdbr. clear Hdbr.
  revert Hsr. rewrite db_Save_eq. cbn [refused].
  destruct (next_fault _); cbn [result world_of events fst snd]; [done|].
  intros Hsr Hok.
  destruct (PatientRepository_invalidate_gone _ _ Hok) as [Hgone _].
  match goal with
  | |- context [PatientRepository.invalidate ?x ?w'] =>
      destruct (PatientRepository_invalidate_spec x w') as ((Hdbi & _) & _)
  end.
  split; [|by apply Hsr].
  rewrite Hdbi. cbn. by rewrite Hdb1.
Qed.

Lemma PatientRepository_Delete_persists (w : World) (tok id : string) :
  result (PatientRepository.Delete tok id w) = None →
  DB (world_of (PatientRepository.Delete tok id w))
  = with_rows patient_table (filter (λ r, ¬ ID r = id) (patient (DB w))) (DB w)
  ∧ redis (world_of (PatientRepository.Delete tok id w)) !! getPatientCacheKey id
    = None.
Proof.
  unfold PatientRepository.Delete. rewrite bind_run.
  first_step (acquire_spec ("patient_lock:" +:+ id) tok w) as Ha r w1 e1.
  destruct Ha as ((Hdb1 & _ & _) & _).
  destruct r as [locked err]. cbn [result world_of events fst snd].
  destruct locked; cbn [negb]; [|done].
  unfold defer. rewrite !bind_run. cbn [mret M_ret result world_of events fst snd].
  match goal with
  | |- context [release ?k ?v ?w'] =>
      destruct (release_spec k v w') as ((Hdbr & _) & _ & _ & _ & Hsr & _)
  end.
  rewrite Hdbr. clear Hdbr.
  revert Hsr. rewrite db_Delete_eq. cbn [refused].
  destruct (next_fault _); cbn [result world_of events fst snd]; [done|].
  intros Hsr Hok.
  destruct (PatientRepository_invalidate_gone _ _ Hok) as [Hgone _].
  match goal with
  | |- context [PatientRepository.invalidate ?x ?w'] =>
      destruct (PatientRepository_invalidate_spec x w') as ((Hdbi & _) & _)
  end.
  split; [|by apply Hsr].
  rewrite Hdbi. cbn. by rewrite Hdb1.
Qed.

(** The first row with the key of [row] after [Save]. *)
Lemma head_saved (p : Patient) (old : list Patient) :
  head (filter (λ r, ID r = ID p) (saved patient_table p old)) = Some p.
Proof.
  unfold saved. destruct (existsb _ _) eqn:Hex.
  - induction old as [|r old IH]; [done|].
    rewrite fmap_cons, filter_cons.
    cbn [existsb] in Hex.
    destruct (same_key patient_table p r) eqn:Hk.
    + by rewrite decide_True.
    + cbn in Hk. apply bool_decide_eq_false in Hk.
      rewrite decide_False by done. by apply IH.
  - rewrite filter_app.
    assert (filter (λ r, ID r = ID p) old = []) as ->.
    { induction old as [|r old IH]; [done|].
      cbn in Hex. apply orb_false_iff in Hex as [Hr Hex].
      apply bool_decide_eq_false in Hr.
      rewrite filter_cons, decide_False by done. by apply IH. }
    rewrite app_nil_l, filter_cons, decide_True by done. done.
Qed.

Section ReadPath.
Context (Marshal : Patient → option string) (Unmarshal : string → option Patient).

Lemma GetByID_cached_eq (id : string) (w : World) :
  PatientRepository.GetByID_cached Unmarshal id w
  = if RedisClient w then
      if next_fault (redis_faults w)
      then (None, redis_tick w,
            [EvGet (getPatientCacheKey id);
             EvLog "Failed to get patient from cache: %v"])
      else (Unmarshal (default "" (redis w !! getPatientCacheKey id)),
            redis_tick w, [EvGet (getPatientCacheKey id)])
    else (None, w, [EvLog "Failed to get patient from cache: %v"]).
Proof.
  unfold PatientRepository.GetByID_cached. rewrite bind_run, Cache_Get_eq.
  destruct (RedisClient w); [|done].
  destruct (next_fault (redis_faults w)); [done|].
  by destruct (redis w !! getPatientCacheKey id).
Qed.

Lemma GetByID_store_eq (id : string) (w : World) :
  next_fault (db_faults w) = false →
  let o := PatientRepository.GetByID_store Marshal id w in
  result o
  = match head (filter (λ r, ID r = id) (patient (DB w))) with
    | Some row =>
        match Marshal row with
        | Some _ => (Some row, None)
        | None => (None, Some (Errorf "failed to marshal patient: %w" (Some ErrJSON)))
        end
    | None => (None, None)
    end
  ∧ DB (world_of o) = DB w
  ∧ sql_of (events o) = [Select "patient"]
  ∧ (head (filter (λ r, ID r = id) (patient (DB w))) = None →
     events o = [EvSQL (Select "patient")] ∧ redis (world_of o) = redis w)
  ∧ (∀ row text,
       head (filter (λ r, ID r = id) (patient (DB w))) = Some row →
       Marshal row = Some text →
       RedisClient w = true → next_fault (redis_faults w) = false →
       redis (world_of o) = <[getPatientCacheKey id := text]> (redis w)).
Proof.
  intros Hf. cbv zeta. unfold PatientRepository.GetByID_store.
  rewrite bind_run, db_First_eq. cbn [refused]. rewrite Hf.
  change (rows patient_table (DB w)) with (patient (DB w)).
  destruct (head _) as [row|]; cbn [result world_of events fst snd];
    [|by cbn].
  cbn [errors_Is_ErrRecordNotFound].
  destruct (Marshal row) as [text|] eqn:HM.
  2:{ cbn. repeat split; try done. intros ?? [= <-]. congruence. }
  rewrite !bind_run, Cache_Set_eq. cbn [RedisClient redis_faults db_tick set_db_faults].
  destruct (RedisClient w); cbn [result world_of events fst snd];
    [destruct (next_fault (redis_faults w)) eqn:Hrf|]; cbn; repeat split; try done.
  intros ?? [= <-] HM' _ _. rewrite HM in HM'. by injection HM' as <-.
Qed.

(** A read that finds nothing to decode in the cache is answered by the
    store. *)
Lemma GetByID_from_store (id : string) (w : World) :
  Unmarshal "" = None →
  (∀ v, redis w !! getPatientCacheKey id = Some v → Unmarshal v = None) →
  next_fault (db_faults w) = false →
  let o := PatientRepository.GetByID Marshal Unmarshal id w in
  result o
  = match head (filter (λ r, ID r = id) (patient (DB w))) with
    | Some row =>
        match Marshal row with
        | Some _ => (Some row, None)
        | None => (None, Some (Errorf "failed to marshal patient: %w" (Some ErrJSON)))
        end
    | None => (None, None)
    end
  ∧ DB (world_of o) = DB w
  ∧ sql_of (events o) = [Select "patient"].
Proof.
  intros Hempty Hcache Hf. cbv zeta. unfold PatientRepository.GetByID.
  rewrite bind_run, GetByID_cached_eq.
  assert (Unmarshal (default "" (redis w !! getPatientCacheKey id)) = None) as Hmiss.
  { destruct (redis w !! getPatientCacheKey id) as [v|]; cbn; auto. }
  destruct (RedisClient w);
    [destruct (next_fault (redis_faults w))|];
    cbn [result world_of events fst snd]; rewrite ?Hmiss;
    match goal with
    | |- context [PatientRepository.GetByID_store _ _ ?w'] =>
        destruct (GetByID_store_eq id w') as (-> & -> & Hsql & _); [done|]
    end;
    rewrite sql_of_app, Hsql; done.
Qed.

End ReadPath.



(** X15: after an [Update] that returned nil, a read of the patient returns
    the patient as updated, and after a [Delete] that returned nil it
    returns no patient and no error: the entry of the patient was removed
    from the cache, so the read is answered by the store (provided the
    SELECT does not fail and the patient can be encoded). *)
Theorem read_your_writes (Marshal : Patient → option string)
    (Unmarshal : string → option Patient) (w : World) (tok : string) :
  Unmarshal "" = None →
  (∀ p, result (PatientRepository.Update tok p w) = None →
        let w1 := world_of (PatientRepository.Update tok p w) in
        next_fault (db_faults w1) = false → is_Some (Marshal p) →
        result (PatientRepository.GetByID Marshal Unmarshal (ID p) w1)
        = (Some p, None))
  ∧ (∀ id, result (PatientRepository.Delete tok id w) = None →
           let w1 := world_of (PatientRepository.Delete tok id w) in
           next_fault (db_faults w1) = false →
           result (PatientRepository.GetByID Marshal Unmarshal id w1)
           = (None, None)).
Proof.
  intros Hempty. split.
  - intros p Hok w1 Hf [text HM].
    destruct (PatientRepository_Update_persists w tok p Hok) as [HDB Hgone].
    destruct (GetByID_from_store Marshal Unmarshal (ID p) w1) as (-> & _); try done.
    { intros v. subst w1. by rewrite Hgone. }
    subst w1. rewrite HDB. cbn [patient with_rows patient_table].
    by rewrite head_saved, HM.
  - intros id Hok w1 Hf.
    destruct (PatientRepository_Delete_persists w tok id Hok) as [HDB Hgone].
    destruct (GetByID_from_store Marshal Unmarshal id w1) as (-> & _); try done.
    { intros v. subst w1. by rewrite Hgone. }
    subst w1. rewrite HDB. cbn [patient with_rows patient_table].
    by rewrite filter_out_none.
Qed.

Lemma read_your_writes_witness :
  result (PatientRepository.GetByID toy_Marshal toy_Unmarshal "DP-000001"
            (world_of (PatientRepository.Update "t1" patient_ann_moved clinic_world)))
  = (Some patient_ann_moved, None).
Proof.
  destruct (read_your_writes toy_Marshal toy_Unmarshal clinic_world "t1" eq_refl)
    as [H _].
  apply (H patient_ann_moved); [by vm_compute|by vm_compute|by eexists].
Defined.

(** ** The handlers of patients *)

(** X16: [GetPatientByID] answers a request for a patient that has no row,
    and no text in the cache that decodes, with status 200 and the body
    null, whatever Redis does; status 404 is the answer to a failure of the
    read: with nothing usable in the cache and a SELECT that fails, it is
    404 also for a patient that exists. *)
Theorem GetPatientByID_unknown (Marshal : Patient → option string)
    (Unmarshal : string → option Patient) (w : World) (id : string) :
  Unmarshal "" = None →
  (∀ v, redis w !! getPatientCacheKey id = Some v → Unmarshal v = None) →
  (next_fault (db_faults w) = false →
   (∀ r, r ∈ patient (DB w) → ID r ≠ id) →
   result (GetPatientByID Marshal Unmarshal id w)
   = {| status := 200; body := JSON_Patient None |})
  ∧ (next_fault (db_faults w) = true →
     result (GetPatientByID Marshal Unmarshal id w)
     = {| status := 404; body := H_error "Patient not found" |}).
Proof.
  intros Hempty Hcache. unfold GetPatientByID, PatientService_GetByID.
  rewrite bind_run. split.
  - intros Hf Hnone.
    destruct (GetByID_from_store Marshal Unmarshal id w) as (-> & _); try done.
    assert (filter (λ r, ID r = id) (patient (DB w)) = []) as ->; [|done].
    induction (patient (DB w)) as [|r l IH]; [done|].
    rewrite filter_cons, decide_False.
    + apply IH. intros r' Hr'. apply Hnone. by right.
    + apply Hnone. by left.
  - intros Hf. unfold PatientRepository.GetByID.
    rewrite bind_run, GetByID_cached_eq.
    assert (Unmarshal (default "" (redis w !! getPatientCacheKey id)) = None) as Hmiss.
    { destruct (redis w !! getPatientCacheKey id) as [v|]; cbn; auto. }
    destruct (RedisClient w);
      [destruct (next_fault (redis_faults w))|];
      cbn [result world_of events fst snd]; rewrite ?Hmiss;
      unfold PatientRepository.GetByID_store;
      rewrite bind_run, db_First_eq; cbn [refused db_faults redis_tick
        set_redis_faults]; rewrite Hf; done.
Qed.

Lemma GetPatientByID_unknown_witness :
  result (GetPatientByID toy_Marshal toy_Unmarshal "DP-000009" clinic_world)
  = {| status := 200; body := JSON_Patient None |}.
Proof.
  destruct (GetPatientByID_unknown toy_Marshal toy_Unmarshal clinic_world "DP-000009"
              eq_refl) as [H _].
  - intros v Hv. vm_compute in Hv. discriminate.
  - apply H; [done|].
    intros r Hr%list_elem_of_singleton. by subst r.
Defined.

(** X17: [UpdatePatient] stores the patient of the body under the identifier
    of the path, whatever identifier the body carries: when it answers 200
    the body of the answer and the first row with that identifier are the
    patient of the request with the identifier of the path, and when no row
    had that identifier one was added.  A body that does not bind is
    answered 400 and nothing is sent to either server. *)
Theorem UpdatePatient_stores_path_id (ShouldBindJSON : string → Patient * option error)
    (w : World) (tok id requestBody : string) :
  let o := UpdatePatient ShouldBindJSON tok id requestBody w in
  let stored := Patient_with_ID id (ShouldBindJSON requestBody).1 in
  (status (result o) = 200 →
   result o = {| status := 200; body := JSON_Patient (Some stored) |}
   ∧ head (filter (λ r, ID r = id) (patient (DB (world_of o)))) = Some stored
   ∧ ((∀ r, r ∈ patient (DB w) → ID r ≠ id) →
      patient (DB (world_of o)) = (patient (DB w) ++ [stored])%list))
  ∧ (∀ e, (ShouldBindJSON requestBody).2 = Some e →
          o = ({| status := 400; body := H_error_of e |}, w, [])).
Proof.
  cbv zeta. unfold UpdatePatient, PatientService_Update.
  destruct (ShouldBindJSON requestBody) as [p [e|]]; cbn [fst snd].
  { split; [done|]. by intros e' [= <-]. }
  split; [|done]. rewrite bind_run.
  set (stored := Patient_with_ID id p).
  pose proof (PatientRepository_Update_persists w tok stored) as Hp.
  destruct (result (PatientRepository.Update tok stored w)) as [e|]; [done|].
  cbn [result world_of events fst snd mret M_ret]. intros _.
  destruct (Hp eq_refl) as [-> _]. cbn [patient with_rows patient_table].
  split; [done|]. split; [apply (head_saved stored)|].
  intros Hnone. unfold saved.
  assert (existsb (same_key patient_table stored) (patient (DB w)) = false) as ->;
    [|done].
  apply not_true_is_false. intros (r & Hr%list_elem_of_In & Hk)%existsb_exists.
  cbn in Hk. apply bool_decide_eq_true in Hk. by apply (Hnone r).
Qed.

Lemma UpdatePatient_stores_path_id_witness :
  result (UpdatePatient toy_ShouldBindJSON "t1" "DP-000001" "{phone:0799}" clinic_world)
  = {| status := 200; body := JSON_Patient (Some patient_ann_moved) |}.
Proof.
  destruct (UpdatePatient_stores_path_id toy_ShouldBindJSON clinic_world "t1"
              "DP-000001" "{phone:0799}") as [H _].
  destruct H as [H _]; [by vm_compute|exact H].
Defined.

(** ** Doctors *)

(** The lock acquisition does not use up the schedule of PostgreSQL. *)
Lemma acquire_db_faults (k tok : string) (w : World) :
  db_faults (world_of (acquire k tok w)) = db_faults w.
Proof.
  unfold acquire. change (Z.to_nat 3) with 3%nat. cbn [lock_loop].
  change (0 <? 3 - 1) with true. change (0 + 1 <? 3 - 1) with true.
  change (0 + 1 + 1 <? 3 - 1) with false.
  run. rewrite !NewLock_eq.
  destruct (RedisClient w) eqn:Hc; cbn.
  2:{ rewrite !NewLock_eq, !Hc. cbn. rewrite !NewLock_eq, !Hc. done. }
  destruct (redis w !! k) eqn:Hk;
    destruct (next_fault (redis_faults w)); cbn;
    rewrite ?NewLock_eq; cbn; rewrite ?Hc, ?Hk; cbn;
    try destruct (next_fault (tail (redis_faults w))); cbn;
    rewrite ?NewLock_eq; cbn; rewrite ?Hc, ?Hk; cbn;
    try destruct (next_fault (tail (tail (redis_faults w)))); cbn; done.
Qed.

(** A closure of [Create] that returns nil has inserted the row. *)
Lemma DoctorRepository_Create_tx_ok (d : Doctor) (w : World) :
  result (DoctorRepository.Create_tx d w) = None →
  DB (world_of (DoctorRepository.Create_tx d w))
  = with_rows doctor_table (doctor (DB w) ++ [d])%list (DB w)
  ∧ existsb (same_key doctor_table d) (doctor (DB w)) = false.
Proof.
  unfold DoctorRepository.Create_tx. rewrite bind_run, db_Create_eq.
  destruct (refused Tx w); cbn [result world_of events fst snd].
  { rewrite bind_run. by destruct (result (db_Exec_setval_back _ _ _)). }
  destruct (next_fault (db_faults w)); cbn [result world_of events fst snd].
  { rewrite bind_run. by destruct (result (db_Exec_setval_back _ _ _)). }
  destruct (existsb _ _) eqn:Hex; cbn [result world_of events fst snd].
  { rewrite bind_run. by destruct (result (db_Exec_setval_back _ _ _)). }
  rewrite bind_run.
  match goal with
  | |- context [Cache.Delete ?k ?w'] =>
      destruct (cache_op_Delete k w') as ((Hdb1 & _) & _);
      destruct (result (Cache.Delete k w')); [done|];
      cbn [result world_of events fst snd];
      destruct (cache_op_DeleteAll "doctors_cache" (world_of (Cache.Delete k w')))
        as ((Hdb2 & _) & _)
  end.
  intros _. by rewrite Hdb2, Hdb1.
Qed.

(** What [Create] leaves in PostgreSQL: nothing when it returns an error;
    when it returns nil, the doctor it was given, under the identifier it
    returns, at the end of a table that had no doctor of that name and no
    row with that identifier. *)
Lemma DoctorRepository_Create_DB (w : World) (tok : string) (d : Doctor) :
  let o := DoctorRepository.Create tok d w in
  ((result o).2 ≠ None ∧ DB (world_of o) = DB w)
  ∨ ((result o).2 = None
     ∧ filter (λ r, Doctor_FirstName r = Doctor_FirstName d
                    ∧ Doctor_LastName r = Doctor_LastName d) (doctor (DB w)) = []
     ∧ ∃ s, sequences w !! "doctor_id_seq" = Some s
            ∧ (result o).1 = Doctor_with_ID (format_id "DR-" (nextval s).1) d
            ∧ DB (world_of o)
              = with_rows doctor_table (doctor (DB w) ++ [(result o).1])%list (DB w)
            ∧ existsb (same_key doctor_table (result o).1) (doctor (DB w)) = false).
Proof.
  cbv zeta. unfold DoctorRepository.Create. rewrite bind_run.
  first_step (acquire_spec
                ("doctor_lock:" +:+ Doctor_FirstName d +:+ "_" +:+ Doctor_LastName d)
                tok w) as Ha r w1 e1.
  destruct Ha as ((Hdb1 & Hseq1 & _) & _).
  destruct r as [locked err]. cbn [result world_of events fst snd].
  destruct locked; cbn [negb]; [|by left].
  unfold defer. rewrite !bind_run. cbn [mret M_ret result world_of events fst snd].
  match goal with
  | |- context [release ?k ?v ?w'] =>
      destruct (release_spec k v w') as ((Hdbr & _) & _)
  end.
  rewrite Hdbr. clear Hdbr.
  rewrite db_First_eq. cbn [refused].
  change (rows doctor_table (DB w1)) with (doctor (DB w1)). rewrite Hdb1.
  destruct (next_fault (db_faults w1)); cbn [result world_of events fst snd];
    [by left|].
  destruct (head _) as [d0|] eqn:Hhead; cbn [result world_of events fst snd];
    [by left|].
  apply head_None in Hhead.
  cbn [errors_Is_ErrRecordNotFound negb].
  rewrite !bind_run, db_Raw_next_id_eq. cbn [refused].
  destruct (next_fault (db_faults (db_tick w1)));
    cbn [result world_of events fst snd mret M_ret]; [by left|].
  change (sequences (db_tick w1)) with (sequences w1). rewrite Hseq1.
  destruct (sequences w !! "doctor_id_seq") as [s|];
    cbn [result world_of events fst snd mret M_ret]; [|by left].
  destruct (seq_max <? (nextval s).1);
    cbn [result world_of events fst snd mret M_ret]; [by left|].
  set (d' := Doctor_with_ID _ d). set (w2 := set_sequences _ _).
  rewrite bind_run. cbn [mret M_ret result world_of events fst snd].
  assert (DB w2 = DB w) as Hdb2 by done.
  rewrite Transaction_eq.
  destruct (next_fault (db_faults w2)); [by left|]. cbv zeta.
  pose proof (DoctorRepository_Create_tx_ok d' (set_tx_aborted false (db_tick w2)))
    as Htx.
  destruct (result (DoctorRepository.Create_tx d' _)) as [e|]; [by left|].
  destruct (tx_aborted _); [by left|].
  destruct (next_fault _); [by left|].
  right. cbn [result world_of events fst snd].
  destruct (Htx eq_refl) as [HDB Hex].
  change (DB (set_tx_aborted false (db_tick w2))) with (DB w1) in HDB, Hex.
  rewrite Hdb1 in HDB, Hex.
  cbn [DB set_tx_aborted db_tick set_db_faults].
  split; [done|]. split; [done|]. exists s. by rewrite HDB.
Qed.

(** A doctor whose name is taken is refused once the lock is held and the
    SELECT has reached the server. *)
Lemma DoctorRepository_Create_duplicate (w : World) (tok : string) (d : Doctor) :
  (result (acquire ("doctor_lock:" +:+ Doctor_FirstName d +:+ "_"
                      +:+ Doctor_LastName d) tok w)).1 = true →
  next_fault (db_faults w) = false →
  doctor_name d ∈ doctor_name <$> doctor (DB w) →
  (result (DoctorRepository.Create tok d w)).2
  = Some (New "doctor with the same name already exists").
Proof.
  intros Hlock Hf Hin. unfold DoctorRepository.Create. rewrite bind_run.
  pose proof (acquire_db_faults
                ("doctor_lock:" +:+ Doctor_FirstName d +:+ "_" +:+ Doctor_LastName d)
                tok w) as Hfd.
  first_step (acquire_spec
                ("doctor_lock:" +:+ Doctor_FirstName d +:+ "_" +:+ Doctor_LastName d)
                tok w) as Ha r w1 e1.
  destruct Ha as ((Hdb1 & _) & _).
  destruct r as [locked err]. cbn [result world_of events fst snd] in *.
  subst locked. cbn [negb].
  unfold defer. rewrite !bind_run. cbn [mret M_ret result world_of events fst snd].
  rewrite db_First_eq. cbn [refused]. rewrite Hfd, Hf.
  change (rows doctor_table (DB w1)) with (doctor (DB w1)). rewrite Hdb1.
  destruct (head _) as [d0|] eqn:Hhead; [done|].
  apply head_None in Hhead.
  apply list_elem_of_fmap in Hin as (r & Hn & Hr).
  assert (r ∈ filter (λ r, Doctor_FirstName r = Doctor_FirstName d
                           ∧ Doctor_LastName r = Doctor_LastName d) (doctor (DB w)))
    as Hin.
  { apply list_elem_of_filter. split; [|done]. by injection Hn as -> ->. }
  rewrite Hhead in Hin. by apply elem_of_nil in Hin.
Qed.

(** X18: [Create] keeps the names of the doctors distinct: it adds a row
    only when no doctor of the table has the first and last name of the
    new one; a doctor whose name is taken is refused and the table is left
    as it was.  When it returns nil the table is the old one followed by the
    doctor it was given, under the next identifier of the sequence; when it
    returns an error no row was added, removed or changed. *)
Theorem DoctorRepository_Create_unique_names (w : World) (tok : string) (d : Doctor) :
  let o := DoctorRepository.Create tok d w in
  (NoDup (doctor_name <$> doctor (DB w)) →
   NoDup (doctor_name <$> doctor (DB (world_of o))))
  ∧ (doctor_name d ∈ doctor_name <$> doctor (DB w) →
     (result o).2 ≠ None ∧ DB (world_of o) = DB w)
  ∧ ((result (acquire ("doctor_lock:" +:+ Doctor_FirstName d +:+ "_"
                         +:+ Doctor_LastName d) tok w)).1 = true →
     next_fault (db_faults w) = false →
     doctor_name d ∈ doctor_name <$> doctor (DB w) →
     (result o).2 = Some (New "doctor with the same name already exists"))
  ∧ ((result o).2 = None →
     doctor (DB (world_of o)) = (doctor (DB w) ++ [(result o).1])%list
     ∧ doctor_name (result o).1 = doctor_name d
     ∧ ∃ s, sequences w !! "doctor_id_seq" = Some s
            ∧ Doctor_ID (result o).1 = format_id "DR-" (nextval s).1)
  ∧ ((result o).2 ≠ None → DB (world_of o) = DB w).
Proof.
  cbv zeta.
  assert (∀ l, filter (λ r, Doctor_FirstName r = Doctor_FirstName d
                            ∧ Doctor_LastName r = Doctor_LastName d) l = [] →
               doctor_name d ∉ doctor_name <$> l) as Hfresh.
  { intros l Hl (r & Hn & Hr)%list_elem_of_fmap.
    assert (r ∈ filter (λ r, Doctor_FirstName r = Doctor_FirstName d
                             ∧ Doctor_LastName r = Doctor_LastName d) l) as Hin.
    { apply list_elem_of_filter. split; [|done]. by injection Hn as -> ->. }
    rewrite Hl in Hin. by apply elem_of_nil in Hin. }
  split; [|split; [|split; [|split]]].
  - intros Hnd.
    destruct (DoctorRepository_Create_DB w tok d)
      as [[_ ->]|(_ & Hnone & s & _ & Hres & -> & _)]; [done|].
    cbn [doctor with_rows doctor_table]. rewrite fmap_app. apply NoDup_app.
    split; [done|]. split; [|apply NoDup_singleton].
    intros n Hn ->%list_elem_of_singleton.
    rewrite Hres in Hn. by apply (Hfresh _ Hnone).
  - intros Hin.
    destruct (DoctorRepository_Create_DB w tok d)
      as [?|(_ & Hnone & _)]; [done|].
    by destruct (Hfresh _ Hnone).
  - apply DoctorRepository_Create_duplicate.
  - intros Hok.
    destruct (DoctorRepository_Create_DB w tok d)
      as [[? _]|(_ & _ & s & Hs & Hres & -> & _)]; [done|].
    split; [done|]. split; [by rewrite Hres|]. exists s. by rewrite Hres.
  - intros Herr.
    by destruct (DoctorRepository_Create_DB w tok d) as [[_ ->]|(? & _)].
Qed.

(** ** Runs without failures *)

Lemma redis_tick_calm (w : World) : redis_faults w = [] → redis_tick w = w.
Proof. destruct w. cbn. by intros ->. Qed.

Lemma db_tick_calm (w : World) : db_faults w = [] → db_tick w = w.
Proof. destruct w. cbn. by intros ->. Qed.

Lemma acquire_calm (k tok : string) (w : World) :
  RedisClient w = true → redis_faults w = [] → redis w !! k = None →
  acquire k tok w
  = ((true, None), set_redis (insert k tok) w, [EvSetNX k tok (10 * Second)]).
Proof.
  intros Hc Hf Hk. unfold acquire. change (Z.to_nat 3) with 3%nat.
  cbn [lock_loop]. rewrite bind_run, NewLock_eq, Hc, Hf, Hk.
  by rewrite redis_tick_calm.
Qed.

Lemma release_calm (k tok : string) (w : World) :
  RedisClient w = true → redis_faults w = [] → redis w !! k = Some tok →
  release k tok w = (tt, set_redis (delete k) w, [EvEval k tok]).
Proof.
  intros Hc Hf Hk. rewrite release_eq, Hc, Hf. cbn [next_fault].
  rewrite decide_True by done. by rewrite redis_tick_calm.
Qed.

Lemma Cache_Delete_calm (k : string) (w : World) :
  RedisClient w = true → redis_faults w = [] →
  Cache.Delete k w = (None, set_redis (delete k) w, [EvDel k]).
Proof.
  intros Hc Hf. rewrite Cache_Delete_eq, Hc, Hf. cbn [next_fault].
  by rewrite redis_tick_calm.
Qed.

Lemma DeleteAll_loop_calm (keys : list string) (w : World) :
  redis_faults w = [] →
  Cache.DeleteAll_loop keys w
  = (None, set_redis (λ r, fold_left (λ r k, delete k r) keys r) w, EvDel <$> keys).
Proof.
  revert w. induction keys as [|k keys IH]; intros w Hf.
  - cbn. by destruct w.
  - cbn [Cache.DeleteAll_loop]. rewrite bind_run, DEL_eq, Hf. cbn [next_fault].
    rewrite redis_tick_calm by done. cbn [result world_of events fst snd].
    by rewrite IH.
Qed.

Lemma Cache_DeleteAll_calm (p : string) (w : World) :
  RedisClient w = true → redis_faults w = [] →
  Cache.DeleteAll p w
  = (None,
     set_redis (λ r, fold_left (λ r k, delete k r) (scan_keys p (redis w)) r) w,
     EvScan p :: (EvDel <$> scan_keys p (redis w))).
Proof.
  intros Hc Hf. rewrite Cache_DeleteAll_eq, Hc, Hf. cbn [next_fault].
  rewrite redis_tick_calm by done. cbv zeta. by rewrite DeleteAll_loop_calm.
Qed.

Lemma fold_delete_lookup (keys : list string) (r : gmap string string) (k : string) :
  fold_left (λ r k, delete k r) keys r !! k
  = if decide (k ∈ keys) then None else r !! k.
Proof.
  revert r. induction keys as [|k' keys IH]; intros r; [done|].
  cbn [fold_left]. rewrite IH.
  destruct (decide (k = k')) as [->|Hne].
  - rewrite lookup_delete_eq.
    destruct (decide (k' ∈ keys)); destruct (decide (k' ∈ k' :: keys)) as [|Hn];
      try done; destruct Hn; by left.
  - rewrite lookup_delete_ne by done.
    destruct (decide (k ∈ keys)) as [Hin|Hin].
    + rewrite decide_True; [done|by right].
    + rewrite decide_False; [done|]. by intros [?|?]%elem_of_cons.
Qed.

Lemma sql_of_EvDel (keys : list string) : sql_of (EvDel <$> keys) = [].
Proof. by induction keys. Qed.

Lemma sql_of_cons_other (e : event) (evs : list event) :
  (∀ q, e ≠ EvSQL q) → sql_of (e :: evs) = sql_of evs.
Proof. intros H. destruct e; try done. by destruct (H statement). Qed.

Lemma no_such_doctor (d : Doctor) (l : list Doctor) :
  doctor_name d ∉ doctor_name <$> l →
  filter (λ r, Doctor_FirstName r = Doctor_FirstName d
               ∧ Doctor_LastName r = Doctor_LastName d) l = [].
Proof.
  intros Hnew. induction l as [|r l IH]; [done|].
  rewrite fmap_cons in Hnew. apply not_elem_of_cons in Hnew as [Hne Hnew].
  rewrite filter_cons, decide_False; [by apply IH|].
  intros [H1 H2]. apply Hne. unfold doctor_name. by rewrite H1, H2.
Qed.

Lemma no_such_key {R} (T : Table R) (row : R) (l : list R) :
  (∀ r, r ∈ l → same_key T row r = false) → existsb (same_key T row) l = false.
Proof.
  intros H. apply not_true_is_false.
  intros (r & Hr%list_elem_of_In & Hk)%existsb_exists.
  by rewrite (H r Hr) in Hk.
Qed.

(** Rewriting the ticks of a run in which no failure is scheduled. *)
Ltac calm :=
  rewrite ?redis_tick_calm, ?db_tick_calm by (cbn; assumption).

Lemma DoctorRepository_Create_calm (w : World) (tok : string) (d : Doctor) (s : Seq) :
  RedisClient w = true → redis_faults w = [] → db_faults w = [] →
  redis w !! ("doctor_lock:" +:+ Doctor_FirstName d +:+ "_" +:+ Doctor_LastName d)
  = None →
  doctor_name d ∉ doctor_name <$> doctor (DB w) →
  sequences w !! "doctor_id_seq" = Some s → (nextval s).1 ≤ seq_max →
  (∀ r, r ∈ doctor (DB w) → Doctor_ID r ≠ format_id "DR-" (nextval s).1) →
  let o := DoctorRepository.Create tok d w in
  let k := "doctor_lock:" +:+ Doctor_FirstName d +:+ "_" +:+ Doctor_LastName d in
  let d' := Doctor_with_ID (format_id "DR-" (nextval s).1) d in
  let ck := DoctorRepository.getDoctorCacheKey (Doctor_ID d') in
  result o = (d', None)
  ∧ world_of o
    = set_redis (delete k)
        (set_tx_aborted false
           (set_redis
              (λ r, fold_left (λ r k, delete k r)
                      (scan_keys "doctors_cache" (delete ck (<[k := tok]> (redis w))))
                      (delete ck r))
              (set_DB (with_rows doctor_table (doctor (DB w) ++ [d'])%list (DB w))
                 (set_tx_aborted false
                    (set_sequences (<["doctor_id_seq" := (nextval s).2]> (sequences w))
                       (set_redis (insert k tok) w))))))
  ∧ sql_of (events o)
    = [Select "doctor"; Nextval "doctor_id_seq"; Begin; Insert "doctor"; Commit].
Proof.
  intros Hc Hrf Hdf Hk Hnew Hs Hmax Hid. cbv zeta.
  unfold DoctorRepository.Create. rewrite bind_run, acquire_calm by done.
  cbn [result world_of events fst snd negb].
  set (k := "doctor_lock:" +:+ _). set (w1 := set_redis _ w).
  assert (db_faults w1 = []) as Hdf1 by done.
  assert (redis_faults w1 = []) as Hrf1 by done.
  unfold defer. rewrite bind_run.
  rewrite (bind_run (db_First _ _ _ _)), db_First_eq. cbn [refused].
  rewrite Hdf1. cbn [next_fault].
  change (rows doctor_table (DB w1)) with (doctor (DB w)).
  rewrite (no_such_doctor d _ Hnew). cbn [head result world_of events fst snd].
  cbn [errors_Is_ErrRecordNotFound negb]. calm.
  rewrite (bind_run (db_Raw_next_id _ _ _)), db_Raw_next_id_eq. cbn [refused].
  rewrite Hdf1. cbn [next_fault]. calm.
  change (sequences w1) with (sequences w). rewrite Hs.
  rewrite (proj2 (Z.ltb_ge _ _) Hmax). cbn [result world_of events fst snd].
  set (d' := Doctor_with_ID _ d). set (w2 := set_sequences _ w1).
  assert (db_faults w2 = []) as Hdf2 by done.
  assert (redis_faults w2 = []) as Hrf2 by done.
  rewrite (bind_run (Transaction _)), Transaction_eq, Hdf2. cbn [next_fault]. cbv zeta.
  calm. set (w3 := set_tx_aborted false w2).
  assert (DoctorRepository.Create_tx d' w3
          = (None,
             set_redis (λ r, fold_left (λ r k, delete k r)
                               (scan_keys "doctors_cache"
                                  (delete (DoctorRepository.getDoctorCacheKey
                                             (Doctor_ID d')) (redis w1))) 
                               (delete (DoctorRepository.getDoctorCacheKey
                                          (Doctor_ID d')) r))
               (set_DB (with_rows doctor_table (doctor (DB w) ++ [d'])%list (DB w)) w3),
             EvSQL (Insert "doctor")
             :: EvDel (DoctorRepository.getDoctorCacheKey (Doctor_ID d'))
             :: EvScan "doctors_cache"
             :: (EvDel <$> scan_keys "doctors_cache"
                             (delete (DoctorRepository.getDoctorCacheKey
                                        (Doctor_ID d')) (redis w1))))) as Htx.
  { unfold DoctorRepository.Create_tx. rewrite bind_run, db_Create_eq.
    cbn [refused tx_aborted w3 set_tx_aborted].
    change (db_faults w3) with (db_faults w2). rewrite Hdf2. cbn [next_fault].
    change (rows doctor_table (DB w3)) with (doctor (DB w)).
    rewrite no_such_key.
    2:{ intros r Hr. cbn. apply bool_decide_eq_false_2. intros E.
        by apply (Hid r Hr). }
    rewrite db_tick_calm by done.
    cbn [result world_of events fst snd].
    rewrite bind_run, Cache_Delete_calm by done.
    cbn [result world_of events fst snd].
    rewrite Cache_DeleteAll_calm by done. done. }
  rewrite Htx. cbn [result world_of events fst snd tx_aborted set_redis set_DB w3
                      set_tx_aborted db_faults].
  change (db_faults w2) with (db_faults w). rewrite Hdf. cbn [next_fault].
  cbn [result world_of events fst snd mret M_ret].
  calm.
  rewrite (bind_run (release _ _)), release_calm; [|done|done|].
  2:{ cbn [redis set_redis set_tx_aborted set_DB w3 w2 w1 set_sequences].
      rewrite fold_delete_lookup, decide_False.
      - rewrite lookup_delete_ne by (by intros [=]). apply lookup_insert_eq.
      - rewrite elem_of_scan_keys. intros [Hg _]. revert Hg.
        by rewrite (glob_match_literal "doctors_cache" k eq_refl). }
  cbn [result world_of events fst snd mret M_ret].
  split; [done|]. split; [done|].
  repeat first [ rewrite sql_of_app | rewrite sql_of_cons | rewrite sql_of_EvDel
               | rewrite sql_of_release | rewrite sql_of_cons_other by done ].
  done.
Qed.

(** X19: in a run without failures, with the lock free, [Create] of a doctor
    whose name is new returns nil after SELECT, nextval, BEGIN, INSERT and
    COMMIT, the doctor having the next identifier of the sequence; a second
    [Create] of a doctor of that name, right after, is refused with the
    error of a duplicate, and the table holds the first doctor once. *)
Theorem DoctorRepository_Create_twice (w : World) (tok tok' : string) (d d2 : Doctor)
    (s : Seq) :
  RedisClient w = true → redis_faults w = [] → db_faults w = [] →
  redis w !! ("doctor_lock:" +:+ Doctor_FirstName d +:+ "_" +:+ Doctor_LastName d)
  = None →
  doctor_name d ∉ doctor_name <$> doctor (DB w) →
  sequences w !! "doctor_id_seq" = Some s → (nextval s).1 ≤ seq_max →
  (∀ r, r ∈ doctor (DB w) → Doctor_ID r ≠ format_id "DR-" (nextval s).1) →
  doctor_name d2 = doctor_name d →
  let o1 := DoctorRepository.Create tok d w in
  let o2 := DoctorRepository.Create tok' d2 (world_of o1) in
  result o1 = (Doctor_with_ID (format_id "DR-" (nextval s).1) d, None)
  ∧ sql_of (events o1)
    = [Select "doctor"; Nextval "doctor_id_seq"; Begin; Insert "doctor"; Commit]
  ∧ (result o2).2 = Some (New "doctor with the same name already exists")
  ∧ doctor (DB (world_of o2))
    = (doctor (DB w) ++ [Doctor_with_ID (format_id "DR-" (nextval s).1) d])%list.
Proof.
  intros Hc Hrf Hdf Hk Hnew Hs Hmax Hid Hname. cbv zeta.
  destruct (DoctorRepository_Create_calm w tok d s) as (Hres & Hw & Hsql); try done.
  cbv zeta in Hres, Hw, Hsql.
  split; [done|]. split; [done|].
  set (w1 := world_of (DoctorRepository.Create tok d w)) in *.
  assert (doctor (DB w1)
          = (doctor (DB w) ++ [Doctor_with_ID (format_id "DR-" (nextval s).1) d])%list)
    as Hrows by (by rewrite Hw).
  assert (Doctor_FirstName d2 = Doctor_FirstName d
          ∧ Doctor_LastName d2 = Doctor_LastName d) as [H1 H2]
    by (by injection Hname).
  assert ((result (DoctorRepository.Create tok' d2 w1)).2
          = Some (New "doctor with the same name already exists")) as Hdup.
  { apply DoctorRepository_Create_duplicate.
    - rewrite H1, H2, acquire_calm; [done|by rewrite Hw|by rewrite Hw|].
      rewrite Hw. cbn [redis set_redis]. apply lookup_delete_eq.
    - rewrite Hw. cbn [db_faults set_redis set_tx_aborted set_DB set_sequences].
      by rewrite Hdf.
    - rewrite Hrows, fmap_app, Hname. apply elem_of_app. right.
      by apply list_elem_of_singleton. }
  split; [done|].
  destruct (DoctorRepository_Create_DB w1 tok' d2) as [[_ ->]|(Hok & _)]; [done|].
  by rewrite Hok in Hdup.
Qed.

Lemma DoctorRepository_Create_twice_witness :
  (result (DoctorRepository.Create "t2" doctor_kim
             (world_of (DoctorRepository.Create "t1" doctor_kim empty_world)))).2
  = Some (New "doctor with the same name already exists").
Proof.
  destruct (DoctorRepository_Create_twice empty_world "t1" "t2" doctor_kim doctor_kim
              new_sequence) as (_ & _ & H & _);
    [reflexivity|reflexivity|reflexivity|reflexivity
    |by intros ?%elem_of_nil|reflexivity|by vm_compute
    |by intros r ?%elem_of_nil|reflexivity|exact H].
Defined.

(** ** Creating patients *)

Lemma no_such_patient (p : Patient) (l : list Patient) :
  searched_key p ∉ natural_key <$> l →
  filter (λ r, FirstName r = FirstName p
               ∧ MiddleName r = PatientRepository.middleName_of p
               ∧ LastName r = LastName p
               ∧ DateOfBirth r = DateOfBirth p) l = [].
Proof.
  intros Hnew. induction l as [|r l IH]; [done|].
  rewrite fmap_cons in Hnew. apply not_elem_of_cons in Hnew as [Hne Hnew].
  rewrite filter_cons, decide_False; [by apply IH|].
  intros (H1 & H2 & H3 & H4). apply Hne. unfold searched_key, natural_key.
  by rewrite H1, H2, H3, H4.
Qed.

Lemma some_such_patient (p : Patient) (l : list Patient) :
  searched_key p ∈ natural_key <$> l →
  head (filter (λ r, FirstName r = FirstName p
                     ∧ MiddleName r = PatientRepository.middleName_of p
                     ∧ LastName r = LastName p
                     ∧ DateOfBirth r = DateOfBirth p) l) ≠ None.
Proof.
  intros (r & Hn & Hr)%list_elem_of_fmap Hhead. apply head_None in Hhead.
  assert (r ∈ filter (λ r, FirstName r = FirstName p
                           ∧ MiddleName r = PatientRepository.middleName_of p
                           ∧ LastName r = LastName p
                           ∧ DateOfBirth r = DateOfBirth p) l) as Hin.
  { apply list_elem_of_filter. split; [|done].
    unfold searched_key, natural_key in Hn. by injection Hn as -> -> -> ->. }
  rewrite Hhead in Hin. by apply elem_of_nil in Hin.
Qed.

(** A patient whose key is found is refused once the lock is held and the
    SELECT has reached the server; nothing is written. *)
Lemma PatientRepository_Create_duplicate (w : World) (tok : string) (p : Patient) :
  (result (acquire (PatientRepository.Create_lockKey p) tok w)).1 = true →
  next_fault (db_faults w) = false →
  searched_key p ∈ natural_key <$> patient (DB w) →
  (result (PatientRepository.Create tok p w)).2
  = Some (New "patient with the same details already exists")
  ∧ DB (world_of (PatientRepository.Create tok p w)) = DB w.
Proof.
  intros Hlock Hf Hin. unfold PatientRepository.Create. rewrite bind_run.
  pose proof (acquire_db_faults (PatientRepository.Create_lockKey p) tok w) as Hfd.
  first_step (acquire_spec (PatientRepository.Create_lockKey p) tok w) as Ha r w1 e1.
  destruct Ha as ((Hdb1 & _) & _).
  destruct r as [locked err]. cbn [result world_of events fst snd] in *.
  subst locked. cbn [negb].
  unfold defer. rewrite !bind_run. cbn [mret M_ret result world_of events fst snd].
  match goal with
  | |- context [release ?k ?v ?w'] =>
      destruct (release_spec k v w') as ((Hdbr & _) & _)
  end.
  rewrite Hdbr. clear Hdbr.
  rewrite db_First_eq. cbn [refused]. rewrite Hfd, Hf.
  change (rows patient_table (DB w1)) with (patient (DB w1)). rewrite Hdb1.
  pose proof (some_such_patient p _ Hin) as Hsome.
  destruct (head _) as [p0|]; [|done].
  cbn. by rewrite Hdb1.
Qed.

Lemma PatientRepository_Create_calm (w : World) (tok : string) (p : Patient) (s : Seq) :
  RedisClient w = true → redis_faults w = [] → db_faults w = [] →
  redis w !! PatientRepository.Create_lockKey p = None →
  searched_key p ∉ natural_key <$> patient (DB w) →
  sequences w !! "patient_id_seq" = Some s → (nextval s).1 ≤ seq_max →
  (∀ r, r ∈ patient (DB w) → ID r ≠ format_id "DP-" (nextval s).1) →
  let o := PatientRepository.Create tok p w in
  let k := PatientRepository.Create_lockKey p in
  let p' := Patient_with_ID (format_id "DP-" (nextval s).1) p in
  let ck := getPatientCacheKey (ID p') in
  result o = (p', None)
  ∧ world_of o
    = set_redis (delete k)
        (set_tx_aborted false
           (set_redis
              (λ r, fold_left (λ r k, delete k r)
                      (scan_keys "patients_cache" (delete ck (<[k := tok]> (redis w))))
                      (delete ck r))
              (set_DB (with_rows patient_table (patient (DB w) ++ [p'])%list (DB w))
                 (set_tx_aborted false
                    (set_sequences (<["patient_id_seq" := (nextval s).2]> (sequences w))
                       (set_redis (insert k tok) w))))))
  ∧ sql_of (events o)
    = [Select "patient"; Nextval "patient_id_seq"; Begin; Insert "patient"; Commit].
Proof.
  intros Hc Hrf Hdf Hk Hnew Hs Hmax Hid. cbv zeta.
  unfold PatientRepository.Create. rewrite bind_run, acquire_calm by done.
  cbn [result world_of events fst snd negb].
  set (k := PatientRepository.Create_lockKey p). set (w1 := set_redis _ w).
  assert (db_faults w1 = []) as Hdf1 by done.
  assert (redis_faults w1 = []) as Hrf1 by done.
  unfold defer. rewrite bind_run.
  rewrite (bind_run (db_First _ _ _ _)), db_First_eq. cbn [refused].
  rewrite Hdf1. cbn [next_fault].
  change (rows patient_table (DB w1)) with (patient (DB w)).
  rewrite (no_such_patient p _ Hnew). cbn [head result world_of events fst snd].
  cbn [errors_Is_ErrRecordNotFound negb]. calm.
  rewrite (bind_run (db_Raw_next_id _ _ _)), db_Raw_next_id_eq. cbn [refused].
  rewrite Hdf1. cbn [next_fault]. calm.
  change (sequences w1) with (sequences w). rewrite Hs.
  rewrite (proj2 (Z.ltb_ge _ _) Hmax). cbn [result world_of events fst snd].
  set (p' := Patient_with_ID _ p). set (w2 := set_sequences _ w1).
  assert (db_faults w2 = []) as Hdf2 by done.
  assert (redis_faults w2 = []) as Hrf2 by done.
  rewrite (bind_run (Transaction _)), Transaction_eq, Hdf2. cbn [next_fault]. cbv zeta.
  calm. set (w3 := set_tx_aborted false w2).
  assert (PatientRepository.Create_tx p' w3
          = (None,
             set_redis (λ r, fold_left (λ r k, delete k r)
                               (scan_keys "patients_cache"
                                  (delete (getPatientCacheKey (ID p')) (redis w1)))
                               (delete (getPatientCacheKey (ID p')) r))
               (set_DB (with_rows patient_table (patient (DB w) ++ [p'])%list (DB w)) w3),
             EvSQL (Insert "patient")
             :: EvDel (getPatientCacheKey (ID p'))
             :: EvScan "patients_cache"
             :: (EvDel <$> scan_keys "patients_cache"
                             (delete (getPatientCacheKey (ID p')) (redis w1))))) as Htx.
  { unfold PatientRepository.Create_tx, PatientRepository.invalidate.
    rewrite bind_run, db_Create_eq.
    cbn [refused tx_aborted w3 set_tx_aborted].
    change (db_faults w3) with (db_faults w2). rewrite Hdf2. cbn [next_fault].
    change (rows patient_table (DB w3)) with (patient (DB w)).
    rewrite no_such_key.
    2:{ intros r Hr. cbn. apply bool_decide_eq_false_2. intros E.
        by apply (Hid r Hr). }
    rewrite db_tick_calm by done.
    cbn [result world_of events fst snd].
    rewrite bind_run, Cache_Delete_calm by done.
    cbn [result world_of events fst snd].
    rewrite Cache_DeleteAll_calm by done. done. }
  rewrite Htx. cbn [result world_of events fst snd tx_aborted set_redis set_DB w3
                      set_tx_aborted db_faults].
  change (db_faults w2) with (db_faults w). rewrite Hdf. cbn [next_fault].
  cbn [result world_of events fst snd mret M_ret].
  calm.
  rewrite (bind_run (release _ _)), release_calm; [|done|done|].
  2:{ cbn [redis set_redis set_tx_aborted set_DB w3 w2 w1 set_sequences].
      rewrite fold_delete_lookup, decide_False.
      - rewrite lookup_delete_ne by (by intros [=]). apply lookup_insert_eq.
      - rewrite elem_of_scan_keys. intros [Hg _]. revert Hg.
        by rewrite (glob_match_literal "patients_cache" k eq_refl). }
  cbn [result world_of events fst snd mret M_ret].
  split; [done|]. split; [done|].
  repeat first [ rewrite sql_of_app | rewrite sql_of_cons | rewrite sql_of_EvDel
               | rewrite sql_of_release | rewrite sql_of_cons_other by done ].
  done.
Qed.

(** X20: in a run without failures, with the lock free, [Create] of a
    patient whose middle name is not empty and whose four key columns are
    new returns nil after SELECT, nextval, BEGIN, INSERT and COMMIT, the
    patient having the next identifier of the sequence; a second [Create] of
    a patient with the same four columns, right after, is refused with the
    error of a duplicate and the table holds the first patient once. *)
Theorem PatientRepository_Create_twice (w : World) (tok tok' : string) (p p2 : Patient)
    (s : Seq) :
  RedisClient w = true → redis_faults w = [] → db_faults w = [] →
  redis w !! PatientRepository.Create_lockKey p = None →
  MiddleName p ≠ "" →
  natural_key p ∉ natural_key <$> patient (DB w) →
  sequences w !! "patient_id_seq" = Some s → (nextval s).1 ≤ seq_max →
  (∀ r, r ∈ patient (DB w) → ID r ≠ format_id "DP-" (nextval s).1) →
  natural_key p2 = natural_key p →
  let o1 := PatientRepository.Create tok p w in
  let o2 := PatientRepository.Create tok' p2 (world_of o1) in
  result o1 = (Patient_with_ID (format_id "DP-" (nextval s).1) p, None)
  ∧ sql_of (events o1)
    = [Select "patient"; Nextval "patient_id_seq"; Begin; Insert "patient"; Commit]
  ∧ (result o2).2 = Some (New "patient with the same details already exists")
  ∧ patient (DB (world_of o2))
    = (patient (DB w) ++ [Patient_with_ID (format_id "DP-" (nextval s).1) p])%list.
Proof.
  intros Hc Hrf Hdf Hk Hmid Hnew Hs Hmax Hid Hkey. cbv zeta.
  assert (searched_key p = natural_key p) as Hsk.
  { unfold searched_key, natural_key, PatientRepository.middleName_of.
    by rewrite decide_False. }
  assert (searched_key p2 = natural_key p) as Hsk2.
  { rewrite <- Hkey. unfold searched_key, natural_key, PatientRepository.middleName_of.
    rewrite decide_False; [done|].
    unfold natural_key in Hkey. injection Hkey as _ -> _ _. done. }
  assert (PatientRepository.Create_lockKey p2 = PatientRepository.Create_lockKey p)
    as Hlk.
  { unfold PatientRepository.Create_lockKey.
    unfold searched_key, natural_key in Hsk, Hsk2.
    injection Hsk as Hm. injection Hsk2 as -> -> -> ->. by rewrite Hm. }
  destruct (PatientRepository_Create_calm w tok p s) as (Hres & Hw & Hsql); try done.
  { by rewrite Hsk. }
  cbv zeta in Hres, Hw, Hsql.
  split; [done|]. split; [done|].
  set (w1 := world_of (PatientRepository.Create tok p w)) in *.
  assert (patient (DB w1)
          = (patient (DB w) ++ [Patient_with_ID (format_id "DP-" (nextval s).1) p])%list)
    as Hrows by (by rewrite Hw).
  destruct (PatientRepository_Create_duplicate w1 tok' p2) as [Hdup HDB].
  - rewrite Hlk, acquire_calm; [done|by rewrite Hw|by rewrite Hw|].
    rewrite Hw. cbn [redis set_redis]. apply lookup_delete_eq.
  - rewrite Hw. cbn [db_faults set_redis set_tx_aborted set_DB set_sequences].
    by rewrite Hdf.
  - rewrite Hrows, fmap_app, Hsk2. apply elem_of_app. right.
    by apply list_elem_of_singleton.
  - split; [done|]. by rewrite HDB.
Qed.

Lemma PatientRepository_Create_twice_witness :
  (result (PatientRepository.Create "t2" patient_joe_m
             (world_of (PatientRepository.Create "t1" patient_joe_m empty_world)))).2
  = Some (New "patient with the same details already exists").
Proof.
  destruct (PatientRepository_Create_twice empty_world "t1" "t2" patient_joe_m
              patient_joe_m new_sequence) as (_ & _ & H & _);
    [reflexivity|reflexivity|reflexivity|reflexivity|done
    |by intros ?%elem_of_nil|reflexivity|by vm_compute
    |by intros r ?%elem_of_nil|reflexivity|exact H].
Defined.

(** X21: the same two calls for a patient whose middle name is empty both
    return nil: the row is stored with the empty middle name while the
    SELECT of [Create] looks for the middle name "N/A", so the first row is
    not found by the second call, and the table ends with two rows that have
    the same first name, empty middle name, last name and date of birth,
    under two identifiers. *)
Theorem PatientRepository_Create_twice_without_middle_name (w : World)
    (tok tok' : string) (p : Patient) (s : Seq) :
  RedisClient w = true → redis_faults w = [] → db_faults w = [] →
  redis w !! PatientRepository.Create_lockKey p = None →
  MiddleName p = "" →
  searched_key p ∉ natural_key <$> patient (DB w) →
  sequences w !! "patient_id_seq" = Some s → (nextval s).1 + 1 ≤ seq_max →
  let id1 := format_id "DP-" (nextval s).1 in
  let id2 := format_id "DP-" ((nextval s).1 + 1) in
  id1 ≠ id2 →
  (∀ r, r ∈ patient (DB w) → ID r ≠ id1 ∧ ID r ≠ id2) →
  let o1 := PatientRepository.Create tok p w in
  let o2 := PatientRepository.Create tok' p (world_of o1) in
  result o1 = (Patient_with_ID id1 p, None)
  ∧ result o2 = (Patient_with_ID id2 p, None)
  ∧ patient (DB (world_of o2))
    = (patient (DB w) ++ [Patient_with_ID id1 p; Patient_with_ID id2 p])%list
  ∧ natural_key (Patient_with_ID id1 p) = natural_key (Patient_with_ID id2 p).
Proof.
  intros Hc Hrf Hdf Hk Hmid Hnew Hs Hmax id1 id2 Hne Hid. cbv zeta.
  destruct (PatientRepository_Create_calm w tok p s) as (Hres & Hw & _); try done.
  { lia. } { intros r Hr. by apply Hid. }
  cbv zeta in Hres, Hw. fold id1 in Hres, Hw.
  set (w1 := world_of (PatientRepository.Create tok p w)) in *.
  assert (patient (DB w1) = (patient (DB w) ++ [Patient_with_ID id1 p])%list)
    as Hrows by (by rewrite Hw).
  destruct (PatientRepository_Create_calm w1 tok' p (nextval s).2)
    as (Hres2 & Hw2 & _).
  - by rewrite Hw.
  - by rewrite Hw.
  - rewrite Hw. cbn [db_faults set_redis set_tx_aborted set_DB set_sequences].
    by rewrite Hdf.
  - rewrite Hw. cbn [redis set_redis]. apply lookup_delete_eq.
  - rewrite Hrows, fmap_app. intros [Hin|Hin%list_elem_of_singleton]%elem_of_app.
    + by apply Hnew.
    + unfold searched_key, natural_key, PatientRepository.middleName_of in Hin.
      rewrite decide_True in Hin by done. cbn in Hin. rewrite Hmid in Hin.
      by injection Hin.
  - rewrite Hw. cbn [sequences set_redis set_tx_aborted set_DB set_sequences].
    apply lookup_insert_eq.
  - exact Hmax.
  - assert ((nextval (nextval s).2).1 = (nextval s).1 + 1) as -> by done.
    fold id2. rewrite Hrows.
    intros r [Hr|Hr%list_elem_of_singleton]%elem_of_app.
    + by apply Hid.
    + subst r. cbn. done.
  - cbv zeta in Hres2, Hw2.
    assert ((nextval (nextval s).2).1 = (nextval s).1 + 1) as E by done.
    rewrite E in Hres2, Hw2. fold id2 in Hres2, Hw2.
    split; [done|]. split; [done|]. split; [|done].
    rewrite Hw2. cbn [DB patient set_redis set_tx_aborted set_DB with_rows
                        patient_table].
    by rewrite Hrows, <- app_assoc.
Qed.

Lemma PatientRepository_Create_twice_without_middle_name_witness :
  patient (DB (world_of (PatientRepository.Create "t2" patient_joe
                           (world_of (PatientRepository.Create "t1" patient_joe
                                        empty_world)))))
  = [Patient_with_ID "DP-000001" patient_joe; Patient_with_ID "DP-000002" patient_joe].
Proof.
  destruct (PatientRepository_Create_twice_without_middle_name empty_world "t1" "t2"
              patient_joe new_sequence) as (_ & _ & H & _);
    [reflexivity|reflexivity|reflexivity|reflexivity|reflexivity
    |by intros ?%elem_of_nil|reflexivity|by vm_compute|by vm_compute
    |by intros r ?%elem_of_nil|exact H].
Defined.

(** ** Deleting and updating doctors *)

(** An operation that takes its lock, runs its body and releases the lock,
    in a run without failures. *)
Lemma guarded_calm {A} (k tok : string) (on_failure : option error → A)
    (body : M A) (w : World) (a : A) (wb : World) (evs : list event) :
  RedisClient w = true → redis_faults w = [] → redis w !! k = None →
  body (set_redis (insert k tok) w) = (a, wb, evs) →
  RedisClient wb = true → redis_faults wb = [] → redis wb !! k = Some tok →
  ('(locked, err) ← acquire k tok;
   if negb locked then mret (on_failure err)
   else defer (release k tok) body) w
  = (a, set_redis (delete k) wb,
     (EvSetNX k tok (10 * Second) :: evs ++ [EvEval k tok])%list).
Proof.
  intros Hc Hf Hk Hbody Hcb Hfb Hkb.
  rewrite bind_run, acquire_calm by done.
  cbn [result world_of events fst snd negb]. unfold defer.
  rewrite bind_run, Hbody. cbn [result world_of events fst snd].
  rewrite bind_run, release_calm by done. done.
Qed.

(** The lock keys are not cache keys. *)
Lemma kept_by_invalidation (k key pattern tok : string) (r : gmap string string) :
  r !! k = Some tok → k ≠ key → literal pattern = true → k ≠ pattern →
  fold_left (λ r k, delete k r) (scan_keys pattern (delete key r)) (delete key r) !! k
  = Some tok.
Proof.
  intros Hk Hne Hlit Hnp. rewrite fold_delete_lookup, decide_False.
  - by rewrite lookup_delete_ne.
  - rewrite elem_of_scan_keys. intros [Hg _].
    by apply (glob_match_literal pattern k Hlit) in Hg.
Qed.

Lemma DoctorRepository_Delete_calm (w : World) (tok id : string) :
  RedisClient w = true → redis_faults w = [] → db_faults w = [] →
  redis w !! ("doctor_lock:" +:+ id) = None →
  let o := DoctorRepository.Delete tok id w in
  let k := "doctor_lock:" +:+ id in
  let ck := DoctorRepository.getDoctorCacheKey id in
  result o = None
  ∧ world_of o
    = set_redis (delete k)
        (set_redis
           (λ r, fold_left (λ r k, delete k r)
                   (scan_keys "doctors_cache" (delete ck (<[k := tok]> (redis w))))
                   (delete ck r))
           (set_DB (with_rows doctor_table
                      (filter (λ r, ¬ Doctor_ID r = id) (doctor (DB w))) (DB w))
              (set_redis (insert k tok) w)))
  ∧ sql_of (events o) = [DeleteFrom "doctor"].
Proof.
  intros Hc Hrf Hdf Hk. cbv zeta. unfold DoctorRepository.Delete.
  erewrite (guarded_calm _ _ _ _ w _ _ _ Hc Hrf Hk).
  2:{ set (w1 := set_redis _ w).
      rewrite bind_run, db_Delete_eq. cbn [refused].
      change (db_faults w1) with (db_faults w). rewrite Hdf. cbn [next_fault].
      rewrite db_tick_calm by done. cbn [result world_of events fst snd].
      rewrite bind_run, Cache_Delete_calm by done.
      cbn [result world_of events fst snd].
      rewrite Cache_DeleteAll_calm by done. reflexivity. }
  - cbn [result world_of events fst snd]. split; [done|]. split; [reflexivity|].
    repeat first [ rewrite sql_of_app | rewrite sql_of_cons | rewrite sql_of_EvDel
                 | rewrite sql_of_cons_other by done ].
    done.
  - done.
  - done.
  - cbn [redis set_redis set_DB].
    apply kept_by_invalidation; [apply lookup_insert_eq|by intros [=]|done|done].
Qed.

Lemma DoctorRepository_invalidate_gone (id : string) (w : World) :
  let m := (err ← Cache.Delete (DoctorRepository.getDoctorCacheKey id);
            match err with
            | Some _ => mret (Some (Errorf "failed to delete doctor cache: %w" err))
            | None => Cache.DeleteAll "doctors_cache"
            end) in
  same_db w (world_of (m w))
  ∧ shrinks w (world_of (m w))
  ∧ (result (m w) = None →
     redis (world_of (m w)) !! DoctorRepository.getDoctorCacheKey id = None
     ∧ redis (world_of (m w)) !! "doctors_cache" = None).
Proof.
  cbv zeta. rewrite bind_run.
  pose proof (Cache_Delete_gone (DoctorRepository.getDoctorCacheKey id) w) as Hgone.
  destruct (cache_op_Delete (DoctorRepository.getDoctorCacheKey id) w)
    as (Hdb & _ & Hs & _).
  destruct (result (Cache.Delete (DoctorRepository.getDoctorCacheKey id) w)) as [e|].
  { cbn. split; [done|]. split; [done|done]. }
  cbn [result world_of events fst snd].
  destruct (cache_op_DeleteAll "doctors_cache"
              (world_of (Cache.Delete (DoctorRepository.getDoctorCacheKey id) w)))
    as (Hdb' & _ & Hs' & _).
  split; [eauto using same_db_trans|]. split; [eauto using shrinks_trans|].
  intros Hok. split; [by apply Hs', Hgone|].
  by apply Cache_DeleteAll_gone.
Qed.

Lemma DoctorRepository_Delete_persists (w : World) (tok id : string) :
  result (DoctorRepository.Delete tok id w) = None →
  DB (world_of (DoctorRepository.Delete tok id w))
  = with_rows doctor_table (filter (λ r, ¬ Doctor_ID r = id) (doctor (DB w))) (DB w)
  ∧ redis (world_of (DoctorRepository.Delete tok id w))
    !! DoctorRepository.getDoctorCacheKey id = None
  ∧ redis (world_of (DoctorRepository.Delete tok id w)) !! "doctors_cache" = None.
Proof.
  unfold DoctorRepository.Delete. rewrite bind_run.
  first_step (acquire_spec ("doctor_lock:" +:+ id) tok w) as Ha r w1 e1.
  destruct Ha as ((Hdb1 & _ & _) & _).
  destruct r as [locked err]. cbn [result world_of events fst snd].
  destruct locked; cbn [negb]; [|done].
  unfold defer. rewrite !bind_run. cbn [mret M_ret result world_of events fst snd].
  match goal with
  | |- context [release ?k ?v ?w'] =>
      destruct (release_spec k v w') as ((Hdbr & _) & _ & _ & _ & Hsr & _)
  end.
  rewrite Hdbr. clear Hdbr.
  revert Hsr. rewrite db_Delete_eq. cbn [refused].
  destruct (next_fault _); cbn [result world_of events fst snd]; [done|].
  intros Hsr Hok.
  match goal with
  | |- context [world_of (?m ?w')] =>
      destruct (DoctorRepository_invalidate_gone id w') as ((Hdbi & _) & _ & Hgone)
  end.
  cbv zeta in Hdbi, Hgone. destruct (Hgone Hok) as [Hg1 Hg2].
  split; [|split; by apply Hsr].
  rewrite Hdbi. cbn. by rewrite Hdb1.
Qed.

Lemma DoctorRepository_Update_persists (w : World) (tok : string) (d : Doctor) :
  result (DoctorRepository.Update tok d w) = None →
  DB (world_of (DoctorRepository.Update tok d w))
  = with_rows doctor_table (saved doctor_table d (doctor (DB w))) (DB w)
  ∧ redis (world_of (DoctorRepository.Update tok d w))
    !! DoctorRepository.getDoctorCacheKey (Doctor_ID d) = None
  ∧ redis (world_of (DoctorRepository.Update tok d w)) !! "doctors_cache" = None.
Proof.
  unfold DoctorRepository.Update. rewrite bind_run.
  first_step (acquire_spec ("doctor_lock:" +:+ Doctor_ID d) tok w) as Ha r w1 e1.
  destruct Ha as ((Hdb1 & _ & _) & _).
  destruct r as [locked err]. cbn [result world_of events fst snd].
  destruct locked; cbn [negb]; [|done].
  unfold defer. rewrite !bind_run. cbn [mret M_ret result world_of events fst snd].
  match goal with
  | |- context [release ?k ?v ?w'] =>
      destruct (release_spec k v w') as ((Hdbr & _) & _ & _ & _ & Hsr & _)
  end.
  rewrite Hdbr. clear Hdbr.
  revert Hsr. rewrite db_Save_eq. cbn [refused].
  destruct (next_fault _); cbn [result world_of events fst snd]; [done|].
  intros Hsr Hok.
  match goal with
  | |- context [world_of (?m ?w')] =>
      destruct (DoctorRepository_invalidate_gone (Doctor_ID d) w')
        as ((Hdbi & _) & _ & Hgone)
  end.
  cbv zeta in Hdbi, Hgone. destruct (Hgone Hok) as [Hg1 Hg2].
  split; [|split; by apply Hsr].
  rewrite Hdbi. cbn. by rewrite Hdb1.
Qed.

Lemma filter_filter_same {A} (P : A → Prop) `{∀ x, Decision (P x)} (l : list A) :
  filter P (filter P l) = filter P l.
Proof.
  induction l as [|x l IH]; [done|].
  rewrite filter_cons. destruct (decide (P x)) as [Hx|Hx]; [|done].
  by rewrite filter_cons, decide_True, IH.
Qed.

(** X22: [Delete] of a doctor does not ask whether the doctor exists.  When
    it returns nil no row has the identifier, the other rows are as they
    were, and the entry of the doctor and the collection entry are gone from
    the cache.  In a run without failures, with the lock free, it returns
    nil having sent one DELETE, whether or not a row had the identifier, and
    a second [Delete] right after returns nil too and changes no row. *)
Theorem DoctorRepository_Delete_removes (w : World) (tok tok' id : string) :
  let o1 := DoctorRepository.Delete tok id w in
  let o2 := DoctorRepository.Delete tok' id (world_of o1) in
  (result o1 = None →
   DB (world_of o1)
   = with_rows doctor_table (filter (λ r, ¬ Doctor_ID r = id) (doctor (DB w))) (DB w)
   ∧ redis (world_of o1) !! DoctorRepository.getDoctorCacheKey id = None
   ∧ redis (world_of o1) !! "doctors_cache" = None)
  ∧ (RedisClient w = true → redis_faults w = [] → db_faults w = [] →
     redis w !! ("doctor_lock:" +:+ id) = None →
     result o1 = None ∧ sql_of (events o1) = [DeleteFrom "doctor"]
     ∧ result o2 = None ∧ DB (world_of o2) = DB (world_of o1)).
Proof.
  cbv zeta. split; [apply DoctorRepository_Delete_persists|].
  intros Hc Hrf Hdf Hk.
  destruct (DoctorRepository_Delete_calm w tok id Hc Hrf Hdf Hk) as (Hr1 & Hw1 & Hsql).
  cbv zeta in Hr1, Hw1, Hsql.
  split; [done|]. split; [done|].
  set (w1 := world_of (DoctorRepository.Delete tok id w)) in *.
  destruct (DoctorRepository_Delete_calm w1 tok' id) as (Hr2 & Hw2 & _).
  - by rewrite Hw1.
  - by rewrite Hw1.
  - rewrite Hw1. cbn [db_faults set_redis set_DB]. by rewrite Hdf.
  - rewrite Hw1. cbn [redis set_redis]. apply lookup_delete_eq.
  - split; [done|]. cbv zeta in Hw2. rewrite Hw2.
    cbn [DB set_redis set_DB]. rewrite Hw1. cbn [DB set_redis set_DB].
    cbn [doctor with_rows doctor_table]. by rewrite filter_filter_same.
Qed.

(** X23: [Update] of a doctor writes the row under its identifier: when it
    returns nil the rows that had the identifier are the doctor given, the
    other rows are as they were, a doctor whose identifier no row had was
    added at the end of the table, and the entry of the doctor and the
    collection entry are gone from the cache. *)
Theorem DoctorRepository_Update_upserts (w : World) (tok : string) (d : Doctor) :
  result (DoctorRepository.Update tok d w) = None →
  let w' := world_of (DoctorRepository.Update tok d w) in
  d ∈ doctor (DB w')
  ∧ (∀ r, r ∈ doctor (DB w') → Doctor_ID r = Doctor_ID d → r = d)
  ∧ (∀ r, Doctor_ID r ≠ Doctor_ID d → r ∈ doctor (DB w') ↔ r ∈ doctor (DB w))
  ∧ ((∀ r, r ∈ doctor (DB w) → Doctor_ID r ≠ Doctor_ID d) →
     doctor (DB w') = (doctor (DB w) ++ [d])%list)
  ∧ redis w' !! DoctorRepository.getDoctorCacheKey (Doctor_ID d) = None
  ∧ redis w' !! "doctors_cache" = None.
Proof.
  intros Hok. cbv zeta.
  destruct (DoctorRepository_Update_persists w tok d Hok) as (-> & Hg1 & Hg2).
  cbn [doctor with_rows doctor_table]. unfold saved.
  split; [|split; [|split; [|split; [|done]]]].
  - destruct (existsb _ _) eqn:Hex.
    + apply existsb_exists in Hex as (r & Hr%list_elem_of_In & Hk).
      apply list_elem_of_fmap. exists r. by rewrite Hk.
    + apply elem_of_app. right. by apply list_elem_of_singleton.
  - intros r Hr Hid. destruct (existsb _ _) eqn:Hex.
    + apply list_elem_of_fmap in Hr as (r0 & -> & Hr0).
      destruct (same_key doctor_table d r0) eqn:Hk; [done|].
      cbn in Hk, Hid. apply bool_decide_eq_false in Hk. by destruct Hk.
    + apply elem_of_app in Hr as [Hr|Hr%list_elem_of_singleton]; [|done].
      exfalso. apply not_true_iff_false in Hex. apply Hex.
      apply existsb_exists. exists r. split; [by apply list_elem_of_In|].
      cbn. by apply bool_decide_eq_true_2.
  - intros r Hne. destruct (existsb _ _) eqn:Hex.
    + rewrite list_elem_of_fmap. split.
      * intros (r0 & -> & Hr0).
        destruct (same_key doctor_table d r0) eqn:Hk; [done|done].
      * intros Hr. exists r. split; [|done].
        destruct (same_key doctor_table d r) eqn:Hk; [|done].
        cbn in Hk. apply bool_decide_eq_true in Hk. by destruct Hne.
    + rewrite elem_of_app, list_elem_of_singleton. split; [|by left].
      intros [?| ->]; done.
  - intros Hnone. by rewrite no_such_key
      by (intros r Hr; cbn; apply bool_decide_eq_false_2; intros E;
          by apply (Hnone r Hr)).
Qed.

Lemma DoctorRepository_Update_upserts_witness :
  doctor (DB (world_of (DoctorRepository.Update "t1"
                          {| Doctor_ID := "DR-000009"; Doctor_FirstName := "Lin";
                             Doctor_LastName := "Were" |} clinic_world)))
  = [doctor_kim;
     {| Doctor_ID := "DR-000009"; Doctor_FirstName := "Lin"; Doctor_LastName := "Were" |}].
Proof.
  destruct (DoctorRepository_Update_upserts clinic_world "t1"
              {| Doctor_ID := "DR-000009"; Doctor_FirstName := "Lin";
                 Doctor_LastName := "Were" |} ltac:(by vm_compute))
    as (_ & _ & _ & H & _).
  apply H. intros r Hr%list_elem_of_singleton. by subst r.
Defined.

(** ** Billings *)

Lemma no_row_for {R} (P : R → Prop) `{∀ r, Decision (P r)} (l : list R) :
  (∀ r, r ∈ l → ¬ P r) → filter P l = [].
Proof.
  intros Hnone. induction l as [|r l IH]; [done|].
  rewrite filter_cons, decide_False.
  - apply IH. intros r' Hr'. apply Hnone. by right.
  - apply Hnone. by left.
Qed.

(** Closing the case of a billing refused for its doctor. *)
Ltac refused_for_doctor Hsql HDB1 Hseq1 Hab1 :=
  let Hd := fresh "Hd" in
  let Hs := fresh "Hs" in
  let Ha := fresh "Ha" in
  let Hsqlr := fresh "Hsqlr" in
  match goal with
  | |- context [release ?k ?v ?w'] =>
      destruct (release_spec k v w') as ((Hd & Hs & Ha) & _ & Hsqlr & _)
  end;
  rewrite ?app_nil_r, !sql_of_app, Hsql, Hsqlr;
  unfold same_db; cbn in Hd, Hs, Ha |- *;
  rewrite Hd, Hs, Ha, HDB1, Hseq1, Hab1;
  repeat split; try done; by right; left.

Lemma BillingRepository_Create_unknown_doctor (w : World) (tok : string) (b : Billing) :
  (∀ r, r ∈ doctor (DB w) → Doctor_ID r ≠ Billing_DoctorID b) →
  let o := BillingRepository.Create tok b w in
  (result o).2 ≠ None ∧ same_db w (world_of o)
  ∧ sql_of (events o) ∈ [[]; [Select "doctor"]]
  ∧ ((result (acquire ("billing_lock:" +:+ BillingID b) tok w)).1 = true →
     next_fault (db_faults w) = false →
     (result o).2 = Some (New "doctor not found")).
Proof.
  intros Hnone. cbv zeta. unfold BillingRepository.Create. rewrite !bind_run.
  pose proof (acquire_db_faults ("billing_lock:" +:+ BillingID b) tok w) as Hfd.
  first_step (acquire_spec ("billing_lock:" +:+ BillingID b) tok w) as Ha r w1 e1.
  destruct Ha as (Hdb1 & _ & _ & _ & _ & _ & Hsql & _).
  destruct r as [locked err]. cbn [result world_of events fst snd] in *.
  destruct locked; cbn [negb].
  2:{ cbn. rewrite app_nil_r, Hsql. repeat split; try done; try apply Hdb1. by left. }
  unfold defer. rewrite !bind_run. cbn [mret M_ret result world_of events fst snd].
  rewrite db_First_eq. cbn [refused].
  change (rows doctor_table (DB w1)) with (doctor (DB w1)).
  destruct Hdb1 as (HDB1 & Hseq1 & Hab1). rewrite HDB1.
  rewrite (no_row_for (λ r, Doctor_ID r = Billing_DoctorID b) _ Hnone).
  cbn [head]. rewrite Hfd.
  destruct (next_fault (db_faults w)); cbn [result world_of events fst snd] in *;
    refused_for_doctor Hsql HDB1 Hseq1 Hab1.
Qed.

Lemma BillingRepository_Update_unknown_doctor (w : World) (tok : string) (b : Billing) :
  (∀ r, r ∈ doctor (DB w) → Doctor_ID r ≠ Billing_DoctorID b) →
  let o := BillingRepository.Update tok b w in
  (result o).2 ≠ None ∧ same_db w (world_of o)
  ∧ sql_of (events o) ∈ [[]; [Select "doctor"]]
  ∧ ((result (acquire ("billing_lock:" +:+ BillingID b) tok w)).1 = true →
     next_fault (db_faults w) = false →
     (result o).2 = Some (New "doctor not found")).
Proof.
  intros Hnone. cbv zeta. unfold BillingRepository.Update. rewrite !bind_run.
  pose proof (acquire_db_faults ("billing_lock:" +:+ BillingID b) tok w) as Hfd.
  first_step (acquire_spec ("billing_lock:" +:+ BillingID b) tok w) as Ha r w1 e1.
  destruct Ha as (Hdb1 & _ & _ & _ & _ & _ & Hsql & _).
  destruct r as [locked err]. cbn [result world_of events fst snd] in *.
  destruct locked; cbn [negb].
  2:{ cbn. rewrite app_nil_r, Hsql. repeat split; try done; try apply Hdb1. by left. }
  unfold defer. rewrite !bind_run. cbn [mret M_ret result world_of events fst snd].
  rewrite db_First_eq. cbn [refused].
  change (rows doctor_table (DB w1)) with (doctor (DB w1)).
  destruct Hdb1 as (HDB1 & Hseq1 & Hab1). rewrite HDB1.
  rewrite (no_row_for (λ r, Doctor_ID r = Billing_DoctorID b) _ Hnone).
  cbn [head]. rewrite Hfd.
  destruct (next_fault (db_faults w)); cbn [result world_of events fst snd] in *;
    refused_for_doctor Hsql HDB1 Hseq1 Hab1.
Qed.

(** X24: a billing whose doctor does not exist is refused by [Create] and by
    [Update]: neither writes a row or takes an identifier from the sequence,
    the only statement either sends is the SELECT of the doctor, and once
    the lock is held and the SELECT has reached the server the error is
    "doctor not found". *)
Theorem BillingRepository_unknown_doctor (w : World) (tok : string) (b : Billing) :
  (∀ r, r ∈ doctor (DB w) → Doctor_ID r ≠ Billing_DoctorID b) →
  let oc := BillingRepository.Create tok b w in
  let ou := BillingRepository.Update tok b w in
  ((result oc).2 ≠ None ∧ same_db w (world_of oc)
   ∧ sql_of (events oc) ∈ [[]; [Select "doctor"]]
   ∧ (result ou).2 ≠ None ∧ same_db w (world_of ou)
   ∧ sql_of (events ou) ∈ [[]; [Select "doctor"]])
  ∧ ((result (acquire ("billing_lock:" +:+ BillingID b) tok w)).1 = true →
     next_fault (db_faults w) = false →
     (result oc).2 = Some (New "doctor not found")
     ∧ (result ou).2 = Some (New "doctor not found")).
Proof.
  intros Hnone. cbv zeta.
  destruct (BillingRepository_Create_unknown_doctor w tok b Hnone)
    as (Hc1 & Hc2 & Hc3 & Hc4).
  destruct (BillingRepository_Update_unknown_doctor w tok b Hnone)
    as (Hu1 & Hu2 & Hu3 & Hu4).
  split; [exact (conj Hc1 (conj Hc2 (conj Hc3 (conj Hu1 (conj Hu2 Hu3)))))|].
  intros Hl Hf. split; auto.
Qed.

Lemma BillingRepository_unknown_doctor_witness :
  (result (BillingRepository.Create "t1"
             {| BillingID := ""; Billing_PatientID := "DP-000001";
                Billing_DoctorID := "DR-000404"; Procedure := "crown";
                BillingAmount := 500%float; PaidCashAmount := 100%float;
                PaidInsuranceAmount := 150%float; Balance := 0%float;
                TotalReceived := 0%float |} clinic_world)).2
  = Some (New "doctor not found").
Proof.
  edestruct (BillingRepository_unknown_doctor clinic_world "t1") as [_ H];
    [|destruct H as [H _]; [| |exact H]].
  - intros r Hr%list_elem_of_singleton. by subst r.
  - by vm_compute.
  - reflexivity.
Defined.

Lemma BillingRepository_invalidate_gone (b : Billing) (w : World) :
  result (BillingRepository.invalidate b w) = None →
  let w' := world_of (BillingRepository.invalidate b w) in
  redis w' !! BillingRepository.getBillingCacheKey (BillingID b) = None
  ∧ redis w' !! "billings_cache" = None
  ∧ redis w' !! getPatientCacheKey (Billing_PatientID b) = None
  ∧ redis w' !! "patients_cache" = None.
Proof.
  cbv zeta. unfold BillingRepository.invalidate. rewrite bind_run.
  pose proof (Cache_Delete_gone (BillingRepository.getBillingCacheKey (BillingID b)) w)
    as Hg1.
  set (w1 := world_of (Cache.Delete _ w)) in *.
  destruct (result (Cache.Delete _ w)) as [e|]; [done|].
  cbn [result world_of events fst snd]. rewrite bind_run.
  pose proof (Cache_DeleteAll_gone "billings_cache" w1) as Hg2.
  destruct (cache_op_DeleteAll "billings_cache" w1) as (_ & _ & Hs2 & _).
  set (w2 := world_of (Cache.DeleteAll _ w1)) in *.
  destruct (result (Cache.DeleteAll _ w1)) as [e|]; [done|].
  cbn [result world_of events fst snd]. rewrite bind_run.
  pose proof (Cache_Delete_gone (getPatientCacheKey (Billing_PatientID b)) w2) as Hg3.
  destruct (cache_op_Delete (getPatientCacheKey (Billing_PatientID b)) w2)
    as (_ & _ & Hs3 & _).
  set (w3 := world_of (Cache.Delete _ w2)) in *.
  destruct (result (Cache.Delete _ w2)) as [e|]; [done|].
  cbn [result world_of events fst snd]. intros Hok.
  pose proof (Cache_DeleteAll_gone "patients_cache" w3 Hok) as Hg4.
  destruct (cache_op_DeleteAll "patients_cache" w3) as (_ & _ & Hs4 & _).
  set (w4 := world_of (Cache.DeleteAll _ w3)) in *.
  split; [by apply Hs4, Hs3, Hs2, Hg1|].
  split; [by apply Hs4, Hs3, Hg2|].
  split; [by apply Hs4, Hg3|]. by apply Hg4.
Qed.

Lemma BillingRepository_Delete_persists (w : World) (tok id : string) :
  result (BillingRepository.Delete tok id w) = None →
  let w' := world_of (BillingRepository.Delete tok id w) in
  ∃ found,
    head (filter (λ r, BillingID r = id) (billing (DB w))) = Some found
    ∧ DB w'
      = with_rows billing_table (filter (λ r, ¬ BillingID r = id) (billing (DB w)))
          (DB w)
    ∧ redis w' !! BillingRepository.getBillingCacheKey id = None
    ∧ redis w' !! "billings_cache" = None
    ∧ redis w' !! getPatientCacheKey (Billing_PatientID found) = None
    ∧ redis w' !! "patients_cache" = None.
Proof.
  cbv zeta. unfold BillingRepository.Delete. rewrite bind_run.
  first_step (acquire_spec ("billing_lock:" +:+ id) tok w) as Ha r w1 e1.
  destruct Ha as ((Hdb1 & _ & _) & _).
  destruct r as [locked err]. cbn [result world_of events fst snd].
  destruct locked; cbn [negb]; [|done].
  unfold defer. rewrite !bind_run. cbn [mret M_ret result world_of events fst snd].
  match goal with
  | |- context [release ?k ?v ?w'] =>
      destruct (release_spec k v w') as ((Hdbr & _) & _ & _ & _ & Hsr & _)
  end.
  rewrite Hdbr. clear Hdbr.
  revert Hsr. rewrite db_First_eq. cbn [refused].
  destruct (next_fault _); cbn [result world_of events fst snd]; [done|].
  change (rows billing_table (DB w1)) with (billing (DB w1)). rewrite Hdb1.
  destruct (head _) as [found|]; cbn [result world_of events fst snd]; [|done].
  rewrite !bind_run, db_Delete_eq. cbn [refused].
  destruct (next_fault _); cbn [result world_of events fst snd]; [done|].
  change (rows billing_table (DB (db_tick w1))) with (billing (DB w1)).
  change (DB (db_tick w1)) with (DB w1). rewrite Hdb1.
  set (w2 := set_DB _ _).
  change (Cache.Delete (BillingRepository.getBillingCacheKey id) ≫= _)
    with (BillingRepository.invalidate (Billing_with_ID id found)).
  intros Hsr Hok.
  destruct (BillingRepository_invalidate_gone _ _ Hok) as (H1 & H2 & H3 & H4).
  destruct (BillingRepository_invalidate_spec (Billing_with_ID id found) w2)
    as ((Hdbi & _) & _).
  exists found. split; [done|]. split; [by rewrite Hdbi|].
  repeat split; by apply Hsr.
Qed.

Lemma BillingRepository_Delete_unknown (w : World) (tok id : string) :
  (∀ r, r ∈ billing (DB w) → BillingID r ≠ id) →
  let o := BillingRepository.Delete tok id w in
  result o ≠ None ∧ same_db w (world_of o)
  ∧ sql_of (events o) ∈ [[]; [Select "billing"]]
  ∧ invalidations (events o) = []
  ∧ ((result (acquire ("billing_lock:" +:+ id) tok w)).1 = true →
     next_fault (db_faults w) = false →
     result o = Some (Errorf "failed to find billing: %w" (Some ErrRecordNotFound))).
Proof.
  intros Hnone. cbv zeta. unfold BillingRepository.Delete. rewrite !bind_run.
  pose proof (acquire_db_faults ("billing_lock:" +:+ id) tok w) as Hfd.
  first_step (acquire_spec ("billing_lock:" +:+ id) tok w) as Ha r w1 e1.
  destruct Ha as (Hdb1 & _ & _ & _ & _ & _ & Hsql & Hinv).
  destruct r as [locked err]. cbn [result world_of events fst snd] in *.
  destruct locked; cbn [negb].
  2:{ cbn. rewrite app_nil_r, Hsql, Hinv.
      repeat split; try done; try apply Hdb1. by left. }
  unfold defer. rewrite !bind_run. cbn [mret M_ret result world_of events fst snd].
  rewrite db_First_eq. cbn [refused].
  change (rows billing_table (DB w1)) with (billing (DB w1)).
  destruct Hdb1 as (HDB1 & Hseq1 & Hab1). rewrite HDB1.
  rewrite (no_row_for (λ r, BillingID r = id) _ Hnone).
  cbn [head]. rewrite Hfd.
  destruct (next_fault (db_faults w)); cbn [result world_of events fst snd] in *;
    match goal with
    | |- context [release ?k ?v ?w'] =>
        destruct (release_spec k v w') as ((Hd & Hs & Ha) & _ & Hsqlr & Hinvr & _)
    end;
    rewrite ?app_nil_r, !sql_of_app, !invalidations_app, Hsql, Hsqlr, Hinv, Hinvr;
    unfold same_db; cbn in Hd, Hs, Ha |- *;
    rewrite Hd, Hs, Ha, HDB1, Hseq1, Hab1;
    repeat split; try done; by right; left.
Qed.

(** X25: [Delete] of a billing reads the row before it deletes it.  For an
    identifier that no row has it returns an error, which once the lock is
    held and the SELECT has reached the server is "failed to find billing"
    around the record-not-found error; no DELETE is sent, no row and no
    cache entry is touched.  When it returns nil the rows with the
    identifier are gone, the other rows are as they were, and the entry of
    the billing, the entry of the patient of the row that was read and the
    two collection entries are gone from the cache. *)
Theorem BillingRepository_Delete_reads_first (w : World) (tok id : string) :
  let o := BillingRepository.Delete tok id w in
  ((∀ r, r ∈ billing (DB w) → BillingID r ≠ id) →
   result o ≠ None ∧ same_db w (world_of o)
   ∧ sql_of (events o) ∈ [[]; [Select "billing"]]
   ∧ invalidations (events o) = []
   ∧ ((result (acquire ("billing_lock:" +:+ id) tok w)).1 = true →
      next_fault (db_faults w) = false →
      result o = Some (Errorf "failed to find billing: %w" (Some ErrRecordNotFound))))
  ∧ (result o = None →
     ∃ found,
       head (filter (λ r, BillingID r = id) (billing (DB w))) = Some found
       ∧ DB (world_of o)
         = with_rows billing_table
             (filter (λ r, ¬ BillingID r = id) (billing (DB w))) (DB w)
       ∧ redis (world_of o) !! BillingRepository.getBillingCacheKey id = None
       ∧ redis (world_of o) !! "billings_cache" = None
       ∧ redis (world_of o) !! getPatientCacheKey (Billing_PatientID found) = None
       ∧ redis (world_of o) !! "patients_cache" = None).
Proof.
  cbv zeta. split.
  - apply BillingRepository_Delete_unknown.
  - apply BillingRepository_Delete_persists.
Qed.
(** ** Failures of the cache *)

Lemma acquire_first (k tok : string) (w : World) :
  RedisClient w = true → next_fault (redis_faults w) = false →
  redis w !! k = None →
  acquire k tok w
  = ((true, None), set_redis (insert k tok) (redis_tick w),
     [EvSetNX k tok (10 * Second)]).
Proof.
  intros Hc Hf Hk. unfold acquire. change (Z.to_nat 3) with 3%nat.
  cbn [lock_loop]. by rewrite bind_run, NewLock_eq, Hc, Hf, Hk.
Qed.

Lemma patient_lock_not_cache (id id' : string) :
  getPatientCacheKey id' ≠ "patient_lock:" +:+ id.
Proof. unfold getPatientCacheKey. cbv [String.append]. discriminate. Qed.

Lemma patient_lock_not_collection (id : string) :
  "patients_cache" ≠ "patient_lock:" +:+ id.
Proof. cbv [String.append]. discriminate. Qed.

(** X26: a failure of the cache is reported by the mutations although the
    write is done.  When the lock was taken, the statement was executed and
    the DEL of the patient's cache entry then fails, [Update] and [Delete]
    return the error "failed to delete patient cache" around the error of
    the client: the row is written (or deleted) all the same, and the entry
    of the patient and the collection entry are still in the cache as they
    were. *)
Theorem cache_failure_after_write (w : World) (tok : string) :
  RedisClient w = true →
  next_fault (redis_faults w) = false →
  next_fault (tail (redis_faults w)) = true →
  next_fault (db_faults w) = false →
  (∀ p, redis w !! ("patient_lock:" +:+ ID p) = None →
        let o := PatientRepository.Update tok p w in
        result o = Some (Errorf "failed to delete patient cache: %w" (Some ErrIO))
        ∧ DB (world_of o)
          = with_rows patient_table (saved patient_table p (patient (DB w))) (DB w)
        ∧ redis (world_of o) !! getPatientCacheKey (ID p)
          = redis w !! getPatientCacheKey (ID p)
        ∧ redis (world_of o) !! "patients_cache" = redis w !! "patients_cache")
  ∧ (∀ id, redis w !! ("patient_lock:" +:+ id) = None →
           let o := PatientRepository.Delete tok id w in
           result o = Some (Errorf "failed to delete patient cache: %w" (Some ErrIO))
           ∧ DB (world_of o)
             = with_rows patient_table
                 (filter (λ r, ¬ ID r = id) (patient (DB w))) (DB w)
           ∧ redis (world_of o) !! getPatientCacheKey id
             = redis w !! getPatientCacheKey id
           ∧ redis (world_of o) !! "patients_cache" = redis w !! "patients_cache").
Proof.
  intros Hc Hf1 Hf2 Hfd. split.
  - intros p Hk. cbv zeta. unfold PatientRepository.Update.
    rewrite bind_run, acquire_first by done.
    cbn [result world_of events fst snd negb]. unfold defer.
    rewrite !bind_run, db_Save_eq. cbn [refused].
    change (db_faults (set_redis _ (redis_tick w))) with (db_faults w).
    rewrite Hfd. cbn [result world_of events fst snd].
    unfold PatientRepository.invalidate. rewrite bind_run, Cache_Delete_eq.
    cbn [RedisClient redis_faults set_DB db_tick set_db_faults set_redis redis_tick
         set_redis_faults].
    rewrite Hc, Hf2. cbn [result world_of events fst snd mret M_ret].
    match goal with
    | |- context [release ?k ?v ?w'] =>
        destruct (release_spec k v w') as ((Hdb & _) & _ & _ & _ & _ & Hfr)
    end.
    split; [done|]. split; [by rewrite Hdb|].
    split; (rewrite Hfr;
            [cbn; rewrite lookup_insert_ne; [done|apply not_eq_sym]|]);
      auto using patient_lock_not_cache, patient_lock_not_collection.
  - intros id Hk. cbv zeta. unfold PatientRepository.Delete.
    rewrite bind_run, acquire_first by done.
    cbn [result world_of events fst snd negb]. unfold defer.
    rewrite !bind_run, db_Delete_eq. cbn [refused].
    change (db_faults (set_redis _ (redis_tick w))) with (db_faults w).
    rewrite Hfd. cbn [result world_of events fst snd].
    unfold PatientRepository.invalidate. rewrite bind_run, Cache_Delete_eq.
    cbn [RedisClient redis_faults set_DB db_tick set_db_faults set_redis redis_tick
         set_redis_faults].
    rewrite Hc, Hf2. cbn [result world_of events fst snd mret M_ret].
    match goal with
    | |- context [release ?k ?v ?w'] =>
        destruct (release_spec k v w') as ((Hdb & _) & _ & _ & _ & _ & Hfr)
    end.
    split; [done|]. split; [by rewrite Hdb|].
    split; (rewrite Hfr;
            [cbn; rewrite lookup_insert_ne; [done|apply not_eq_sym]|]);
      auto using patient_lock_not_cache, patient_lock_not_collection.
Qed.

Lemma cache_failure_after_write_witness :
  result (PatientRepository.Update "t1" patient_ann_moved clinic_world_flaky)
  = Some (Errorf "failed to delete patient cache: %w" (Some ErrIO))
  ∧ patient (DB (world_of (PatientRepository.Update "t1" patient_ann_moved
                             clinic_world_flaky)))
    = [patient_ann_moved].
Proof.
  destruct (cache_failure_after_write clinic_world_flaky "t1"
              eq_refl eq_refl eq_refl eq_refl) as [H _].
  destruct (H patient_ann_moved eq_refl) as (Hr & HDB & _).
  split; [exact Hr|]. by rewrite HDB.
Defined.



Lemma DeletePatientAndRelated_atomic_witness :
  sql_of (events (PatientRepository.DeletePatientAndRelated "t1" "DP-000001"
                    clinic_world_failing_delete))
  = [Begin; Select "emergency_contact"; Select "examination"; Select "billing";
     Select "treatment_plan"; Select "appointment"; DeleteFrom "emergency_contact";
     DeleteFrom "examination"; Rollback]
  ∧ DB (world_of (PatientRepository.DeletePatientAndRelated "t1" "DP-000001"
                    clinic_world_failing_delete))
    = DB clinic_world_failing_delete.
Proof.
  split; [by vm_compute|].
  apply (DeletePatientAndRelated_atomic clinic_world_failing_delete "t1" "DP-000001").
  by vm_compute.
Defined.
